(** * Spec list hierarchy of the component-testing runner

    A shallow embedding of
    [packages/runner-ct/src/app/SpecList/makeFileHierarchy.ts]: the
    depth-grouped walker ([getAllFolders], [getAllFileNodes], [charCount],
    [makeFileHierarchy] with its inner [walk]) and the incremental trie
    builder ([buildTree], [convertTree]), followed by the properties the
    specification states about them. *)

From Stdlib Require Import String Ascii NArith Lia.
From stdpp Require Import gmap strings list fin_maps.
Open Scope string_scope.
Open Scope list_scope.
Open Scope nat_scope.

#[global] Set Warnings "-register-all,-clear-no-such-hyp".

(** ** Completions

    A call either returns a value or throws.  The only exception the
    module can raise is a [TypeError] (a property read on [undefined], or a
    call of something that is not a function).  [OutOfFuel] is not a
    JavaScript outcome: it is the answer of the fuelled model of [walk] when
    the recursion budget is too small, and is shown never to be the answer
    of [makeFileHierarchy]. *)

Inductive result (A : Type) : Type :=
| Ok (a : A)
| TypeError
| OutOfFuel.
Arguments Ok {A} a.
Arguments TypeError {A}.
Arguments OutOfFuel {A}.

#[export] Instance result_ret : MRet result := fun A a => Ok a.
#[export] Instance result_bind : MBind result := fun A B f m =>
  match m with
  | Ok a => f a
  | TypeError => TypeError
  | OutOfFuel => OutOfFuel
  end.
#[export] Instance result_fmap : FMap result := fun A B f m =>
  match m with
  | Ok a => Ok (f a)
  | TypeError => TypeError
  | OutOfFuel => OutOfFuel
  end.

(** ** The string primitives the module uses

    Strings are sequences of characters.  [split], [includes],
    [startsWith] and [charCount] go through them character by character,
    and the separator and the dot are single characters. *)

Module JS.

(** [s.split(sep)] for a one-character separator: never an empty array,
    [''.split('/')] is [['']]. *)
Fixpoint split (sep : ascii) (s : string) : list string :=
  match s with
  | EmptyString => [EmptyString]
  | String c s' =>
      if Ascii.eqb c sep then EmptyString :: split sep s'
      else match split sep s' with
           | [] => [String c EmptyString]
           | seg :: segs => String c seg :: segs
           end
  end.

(** [parts.join(sep)]. *)
Definition join (sep : string) (parts : list string) : string :=
  String.concat sep parts.

(** [s.includes(c)] for a one-character search string. *)
Fixpoint includes (c : ascii) (s : string) : bool :=
  match s with
  | EmptyString => false
  | String c' s' => Ascii.eqb c' c || includes c s'
  end.

(** [x.startsWith(p)]. *)
Definition startsWith (p x : string) : bool := String.prefix p x.

(** Truthiness of a string: every string but the empty one. *)
Definition truthy (s : string) : bool :=
  match s with EmptyString => false | String _ _ => true end.

(** *** Plain objects

    The records of the module are object literals, so a property read
    [o[k]] and the test [k in o] also see what [Object.prototype]
    provides.  None of the inherited values is an array or a building
    folder, and an own property always shadows the inherited one. *)
Definition Object_prototype_keys : list string :=
  [ "constructor"; "hasOwnProperty"; "isPrototypeOf";
    "propertyIsEnumerable"; "toLocaleString"; "toString"; "valueOf";
    "__proto__"; "__defineGetter__"; "__defineSetter__";
    "__lookupGetter__"; "__lookupSetter__" ].

Definition inherited (k : string) : bool :=
  existsb (String.eqb k) Object_prototype_keys.

Inductive property (V : Type) : Type :=
| Own (v : V)
| Inherited
| Undefined.
Arguments Own {V} v.
Arguments Inherited {V}.
Arguments Undefined {V}.

(** [o[k]], given the own properties as an option. *)
Definition read {V : Type} (own : option V) (k : string) : property V :=
  match own with
  | Some v => Own v
  | None => if inherited k then Inherited else Undefined
  end.

(** *** Property order

    [Object.values] lists the own properties whose key is an array index
    (a canonical numeric string below [2^32 - 1]) first, in ascending
    numeric order, and then the other keys in creation order. *)
Definition digit (c : ascii) : option N :=
  let n := N_of_ascii c in
  if ((48 <=? n) && (n <=? 57))%N then Some (n - 48)%N else None.

Fixpoint digits (acc : N) (s : string) : option N :=
  match s with
  | EmptyString => Some acc
  | String c s' =>
      match digit c with
      | Some d => digits (10 * acc + d)%N s'
      | None => None
      end
  end.

Definition array_index (k : string) : option N :=
  match k with
  | EmptyString => None
  | String c s' =>
      if Ascii.eqb c "0"
      then match s' with EmptyString => Some 0%N | _ => None end
      else match digits 0 k with
           | Some n => if (n <? 4294967295)%N then Some n else None
           | None => None
           end
  end.

Section Ordered.
Context {V : Type}.

(** Own properties in creation order. *)
Definition object := list (string * V).

Fixpoint own (o : object) (k : string) : option V :=
  match o with
  | [] => None
  | (k', v) :: o' => if String.eqb k' k then Some v else own o' k
  end.

(** [o[k] = v]: an existing property keeps its place, a new one goes
    last. *)
Fixpoint set (o : object) (k : string) (v : V) : object :=
  match o with
  | [] => [(k, v)]
  | (k', v') :: o' =>
      if String.eqb k' k then (k', v) :: o' else (k', v') :: set o' k v
  end.

Fixpoint insert_index (e : N * V) (l : list (N * V)) : list (N * V) :=
  match l with
  | [] => [e]
  | e' :: l' =>
      if (fst e <=? fst e')%N then e :: l else e' :: insert_index e l'
  end.

Fixpoint index_properties (o : object) : list (N * V) :=
  match o with
  | [] => []
  | (k, v) :: o' =>
      match array_index k with
      | Some n => insert_index (n, v) (index_properties o')
      | None => index_properties o'
      end
  end.

Fixpoint named_properties (o : object) : list V :=
  match o with
  | [] => []
  | (k, v) :: o' =>
      match array_index k with
      | Some _ => named_properties o'
      | None => v :: named_properties o'
      end
  end.

Definition Object_values (o : object) : list V :=
  map snd (index_properties o) ++ named_properties o.
End Ordered.
Arguments object V : clear implicits.

End JS.

(** ** The depth-grouped walker *)

(** [TreeNode = FileNode | FolderNode]; the [type] tag is the
    constructor. *)
Inductive TreeNode : Type :=
| FileNode (name relative : string)
| FolderNode (name relative : string) (files : list TreeNode).

(** [dirs.add(dir)] on a [Set]: insertion order, no second copy. *)
Definition Set_add (dirs : list string) (dir : string) : list string :=
  if bool_decide (dir ∈ dirs) then dirs else dirs ++ [dir].

Definition getAllFolders (files : list string) : list string :=
  fold_left
    (fun dirs file =>
       let path := JS.split "/" file in
       match last path with
       | Some lastPart =>
           let hasFileNode := JS.includes "." lastPart in
           let dirOnly :=
             if hasFileNode then take (length path - 1) path else path in
           fold_left
             (fun dirs i => Set_add dirs (JS.join "/" (take (i + 1) dirOnly)))
             (seq 0 (length dirOnly)) dirs
       | None => dirs
       end)
    files [].

(** One turn of the loop of [getAllFileNodes]. *)
Definition getAllFileNodes_step
    (allFileNodes : gmap string (list string)) (file : string)
  : result (gmap string (list string)) :=
  let split := JS.split "/" file in
  let isFileNode :=
    match last split with Some l => JS.includes "." l | None => false end in
  let isRoot := (length split =? 1)%nat in
  let isFileNodeInFolderNode := (1 <? length split)%nat && isFileNode in
  allFileNodes ←
    (if isFileNodeInFolderNode then
       match rev split with
       | file :: path =>
           let dir := JS.join "/" (rev path) in
           match JS.read (allFileNodes !! dir) dir with
           | JS.Undefined => Ok (<[dir := [file]]> allFileNodes)
           | JS.Own files => Ok (<[dir := files ++ [file]]> allFileNodes)
           | JS.Inherited => TypeError
           end
       | [] => Ok allFileNodes
       end
     else Ok allFileNodes);
  if isFileNode && isRoot then
    match JS.read (allFileNodes !! "/") "/" with
    | JS.Own files => Ok (<["/" := files ++ [file]]> allFileNodes)
    | _ => TypeError
    end
  else Ok allFileNodes.

Fixpoint getAllFileNodes_loop
    (allFileNodes : gmap string (list string)) (files : list string)
  : result (gmap string (list string)) :=
  match files with
  | [] => Ok allFileNodes
  | file :: files =>
      allFileNodes ← getAllFileNodes_step allFileNodes file;
      getAllFileNodes_loop allFileNodes files
  end.

Definition getAllFileNodes (files : list string)
  : result (gmap string (list string)) :=
  getAllFileNodes_loop {["/" := []]} files.

Fixpoint charCount (str : string) (letter : ascii) : nat :=
  match str with
  | EmptyString => 0
  | String c str' =>
      (if Ascii.eqb c letter then 1 else 0) + charCount str' letter
  end.

Definition foldersByLength_of (allFolderNodes : list string)
  : gmap nat (list string) :=
  fold_left
    (fun acc curr =>
       let count := charCount curr "/" in
       match acc !! count with
       | None => <[count := [curr]]> acc
       | Some folders => <[count := folders ++ [curr]]> acc
       end)
    allFolderNodes ∅.

Section Walk.
(** The two tables [walk] closes over. *)
Variable foldersByLength : gmap nat (list string).
Variable allFileNodes : gmap string (list string).

(** [walk(dirs, depth)]; [dirs] is [None] for [undefined].  One unit of
    fuel is spent per call. *)
Fixpoint walk (fuel : nat) (dirs : option (list string)) (depth : nat)
  : result (list TreeNode) :=
  match fuel with
  | 0 => OutOfFuel
  | S fuel =>
      match dirs with
      | None => Ok []
      | Some dirs =>
          mapM
            (fun dir =>
               nestedDirs ←
                 match foldersByLength !! (depth + 1) with
                 | Some next =>
                     walk fuel
                       (Some (List.filter (JS.startsWith dir) next))
                       (depth + 1)
                 | None => Ok []
                 end;
               containedFileNodes ←
                 match JS.read (allFileNodes !! dir) dir with
                 | JS.Own files =>
                     Ok (map (fun file =>
                                FileNode file (dir +:+ "/" +:+ file)) files)
                 | JS.Undefined => Ok []
                 | JS.Inherited => TypeError
                 end;
               let dirname := hd "" (rev (JS.split "/" dir)) in
               Ok (FolderNode dirname dir
                     (nestedDirs ++ containedFileNodes)))
            dirs
      end
  end.
End Walk.

(** The deepest level [walk] can reach is the largest separator count of a
    discovered folder; one call per level and one for the entry. *)
Definition walk_fuel (allFolderNodes : list string) : nat :=
  S (list_max (map (fun dir => charCount dir "/") allFolderNodes)).

Definition makeFileHierarchy (files : list string) : result (list TreeNode) :=
  let allFolderNodes := getAllFolders files in
  allFileNodes ← getAllFileNodes files;
  let foldersByLength := foldersByLength_of allFolderNodes in
  walk foldersByLength allFileNodes (walk_fuel allFolderNodes)
    (foldersByLength !! 0) 0.

(** ** The incremental trie builder *)

Inductive BuildingFile : Type :=
| mkBuildingFile (path name : string).

(** [folders] is a plain object keyed by segment name; its creation order
    is what [Object.values] later reads. *)
Inductive BuildingFolder : Type :=
| mkBuildingFolder (path name : string) (files : list BuildingFile)
    (folders : JS.object BuildingFolder).

(** [TreeFolder | TreeFile], the element type of [children]. *)
Inductive Tree : Type :=
| TreeFile (id name : string)
| TreeFolder (id name : string) (children : list Tree).

Definition convertFile (f : BuildingFile) : Tree :=
  match f with mkBuildingFile path name => TreeFile path name end.

(** [convertTree]; the recursive calls are made on the properties of
    [folders] before [Object.values] orders them, which is the same list
    (see [convertTree_unfold]). *)
Fixpoint convertTree (b : BuildingFolder) : Tree :=
  match b with
  | mkBuildingFolder path name files folders =>
      TreeFolder path name
        (JS.Object_values
           (map (fun kv => (fst kv, convertTree (snd kv))) folders)
         ++ map convertFile files)
  end.

Section Insert.
(** The path being inserted and its segments. *)
Variable filePath : string.
Variable pathParts : list string.

(** The inner loop of [buildTree] from index [i] on, [rest] being
    [pathParts.slice(i)] and [parentDirectory] the folder the loop stands
    in; the result is that folder after the in-place updates. *)
Fixpoint insertFrom (i : nat) (rest : list string)
    (parentDirectory : BuildingFolder) : result BuildingFolder :=
  match rest, parentDirectory with
  | [], _ => Ok parentDirectory
  | [part], mkBuildingFolder path name files folders =>
      Ok (mkBuildingFolder path name
            (files ++ [mkBuildingFile filePath part]) folders)
  | part :: rest, mkBuildingFolder path name files folders =>
      match JS.read (JS.own folders part) part with
      | JS.Own child =>
          child ← insertFrom (S i) rest child;
          Ok (mkBuildingFolder path name files (JS.set folders part child))
      | JS.Inherited => TypeError
      | JS.Undefined =>
          let newDirectory :=
            mkBuildingFolder (JS.join "/" (take (i + 1) pathParts)) part
              [] [] in
          child ← insertFrom (S i) rest newDirectory;
          Ok (mkBuildingFolder path name files (JS.set folders part child))
      end
  end.
End Insert.

Definition insertPath (rootFolder : BuildingFolder) (filePath : string)
  : result BuildingFolder :=
  let pathParts := JS.split "/" filePath in
  insertFrom filePath pathParts 0 pathParts rootFolder.

Fixpoint insertPaths (rootFolder : BuildingFolder) (filePaths : list string)
  : result BuildingFolder :=
  match filePaths with
  | [] => Ok rootFolder
  | filePath :: filePaths =>
      rootFolder ← insertPath rootFolder filePath;
      insertPaths rootFolder filePaths
  end.

(** [rootName], [None] for [undefined]. *)
Definition rootName (rootDirectory : string) : option string :=
  let rootPathParts := JS.split "/" rootDirectory in
  let lastRootPart := rootPathParts !! (length rootPathParts - 1) in
  match lastRootPart with
  | Some part =>
      if JS.truthy part then Some part
      else if (1 <? length rootPathParts)%nat
           then rootPathParts !! (length rootPathParts - 2)
           else None
  | None =>
      if (1 <? length rootPathParts)%nat
      then rootPathParts !! (length rootPathParts - 2)
      else None
  end.

Definition buildTree (filePaths : list string) (rootDirectory : string)
  : result Tree :=
  let rootFolder :=
    mkBuildingFolder rootDirectory (default "/" (rootName rootDirectory))
      [] [] in
  convertTree <$> insertPaths rootFolder filePaths.

(** ** The system test of a new project

    [system-tests/test/new_project_spec.js]: the promise chain the test
    [passes] returns to the test runner, which lets the test pass when
    the promise is fulfilled and fail when it is rejected.  What the file
    system and the run of the project do is outside the test: they are
    the parameters of the section, acting on a state of the world. *)

Section NewProject.
Variable (World Stats Completed Reason : Type).

(** How a promise settles. *)
Inductive settled (A : Type) : Type :=
| Fulfilled (a : A)
| Rejected (reason : Reason).
Arguments Fulfilled {A} a.
Arguments Rejected {A} reason.

(** A promise: what it settles to, and the world it leaves behind. *)
Definition Promise (A : Type) : Type := World → settled A * World.

(** [p.then(onFulfilled)]: the call-back runs on fulfilment only. *)
Definition then_ {A B : Type} (p : Promise A) (onFulfilled : A → Promise B)
  : Promise B :=
  fun world =>
    match p world with
    | (Fulfilled a, world') => onFulfilled a world'
    | (Rejected reason, world') => (Rejected reason, world')
    end.

(** [p.catch(onRejected)]: the call-back runs on rejection only. *)
Definition catch_ {A : Type} (p : Promise A) (onRejected : Reason → Promise A)
  : Promise A :=
  fun world =>
    match p world with
    | (Fulfilled a, world') => (Fulfilled a, world')
    | (Rejected reason, world') => onRejected reason world'
    end.

(** A call-back that throws rejects the promise of its [then]. *)
Definition throw {A : Type} (reason : Reason) : Promise A :=
  fun world => (Rejected reason, world).

(** [fs.statAsync(supportPath)] and [e2e.exec(this, {...})]. *)
Variable statAsync : Promise Stats.
Variable exec : Promise Completed.
(** [new Error('support folder should not exist')]. *)
Variable support_folder_should_not_exist : Reason.

(** The body of [it('passes', ...)]. *)
Definition passes : Promise Stats :=
  catch_
    (then_ statAsync (fun _ => throw support_folder_should_not_exist))
    (fun _ => then_ exec (fun _ => statAsync)).
End NewProject.
Arguments Fulfilled {Reason A} a.
Arguments Rejected {Reason A} reason.
Arguments then_ {World Reason A B} p onFulfilled.
Arguments catch_ {World Reason A} p onRejected.
Arguments throw {World Reason A} reason.
Arguments passes {World Stats Completed Reason} statAsync exec
  support_folder_should_not_exist.

(** * Notions the properties are stated with *)

Definition folder_path (b : BuildingFolder) : string :=
  match b with mkBuildingFolder path _ _ _ => path end.
Definition folder_name (b : BuildingFolder) : string :=
  match b with mkBuildingFolder _ name _ _ => name end.
Definition folder_files (b : BuildingFolder) : list BuildingFile :=
  match b with mkBuildingFolder _ _ files _ => files end.
Definition folder_folders (b : BuildingFolder) : JS.object BuildingFolder :=
  match b with mkBuildingFolder _ _ _ folders => folders end.

Definition tree_id (t : Tree) : string :=
  match t with TreeFile id _ | TreeFolder id _ _ => id end.
Definition tree_name (t : Tree) : string :=
  match t with TreeFile _ name | TreeFolder _ name _ => name end.
Definition tree_children (t : Tree) : list Tree :=
  match t with TreeFile _ _ => [] | TreeFolder _ _ children => children end.

(** The same folder under another [path] and [name]. *)
Definition relabel (path name : string) (b : BuildingFolder)
  : BuildingFolder :=
  mkBuildingFolder path name (folder_files b) (folder_folders b).

(** The directory segments of a path: all but the last one. *)
Definition directory_segments (filePath : string) : list string :=
  removelast (JS.split "/" filePath).

(** The last segment of a path. *)
Definition file_segment (filePath : string) : string :=
  default "" (last (JS.split "/" filePath)).

(** A path [buildTree] can take: none of its directory segments is a
    property name of [Object.prototype]. *)
Definition tree_path_ok (filePath : string) : Prop :=
  Forall (fun part => JS.inherited part = false)
    (directory_segments filePath).

(** Induction over building folders, with the hypothesis for every folder
    stored in [folders]. *)
Section BuildingFolderInduction.
Variable P : BuildingFolder → Prop.
Hypothesis Hfolder :
  ∀ path name files folders,
    Forall (fun kv => P (snd kv)) folders →
    P (mkBuildingFolder path name files folders).

Fixpoint BuildingFolder_nested_ind (b : BuildingFolder) : P b :=
  match b with
  | mkBuildingFolder path name files folders =>
      Hfolder path name files folders
        ((fix go (l : JS.object BuildingFolder)
            : Forall (fun kv => P (snd kv)) l :=
            match l with
            | [] => List.Forall_nil _
            | kv :: l' =>
                List.Forall_cons _ kv l'
                  (BuildingFolder_nested_ind (snd kv)) (go l')
            end) folders)
  end.
End BuildingFolderInduction.

(** Every [TreeFile] below a node, as [(id, name)]. *)
Fixpoint tree_files (t : Tree) : list (string * string) :=
  match t with
  | TreeFile id name => [(id, name)]
  | TreeFolder _ _ children => flat_map tree_files children
  end.

(** Every file stored in a building folder or below it. *)
Fixpoint building_files (b : BuildingFolder) : list BuildingFile :=
  match b with
  | mkBuildingFolder _ _ files folders =>
      flat_map (fun kv => building_files (snd kv)) folders ++ files
  end.

Definition file_entry (f : BuildingFile) : string * string :=
  match f with mkBuildingFile path name => (path, name) end.

(** Every folder is stored in its parent under its own name, which is
    not a property name of [Object.prototype]. *)
Inductive folder_wf : BuildingFolder → Prop :=
| folder_wf_intro path name files folders :
    NoDup folders.*1 →
    Forall (fun kv =>
              folder_name (snd kv) = fst kv
              ∧ JS.inherited (fst kv) = false
              ∧ folder_wf (snd kv))
      folders →
    folder_wf (mkBuildingFolder path name files folders).

Definition is_folder (t : Tree) : bool :=
  match t with TreeFile _ _ => false | TreeFolder _ _ _ => true end.

(** The names of the folders among some siblings. *)
Definition folder_names (siblings : list Tree) : list string :=
  tree_name <$> List.filter is_folder siblings.


(** The folder reached from [b] by following the segment names. *)
Fixpoint folder_at (b : BuildingFolder) (names : list string)
  : option BuildingFolder :=
  match names with
  | [] => Some b
  | name :: names =>
      match JS.own (folder_folders b) name with
      | Some child => folder_at child names
      | None => None
      end
  end.

(** Its files, none when there is no such folder. *)
Definition files_at (b : BuildingFolder) (names : list string)
  : list BuildingFile :=
  from_option folder_files [] (folder_at b names).

(** [tree_at t names s]: following the folders called [names] from [t]
    leads to [s]. *)
Inductive tree_at : Tree → list string → Tree → Prop :=
| tree_at_here t : tree_at t [] t
| tree_at_down id name children child names s :
    child ∈ children → is_folder child = true → tree_at child names s →
    tree_at (TreeFolder id name children) (tree_name child :: names) s.

(** The segments [getAllFolders] keeps of a path: all of them, or all but
    the last when the last one has a dot. *)
Definition folder_segments (file : string) : list string :=
  if JS.includes "." (file_segment file)
  then directory_segments file
  else JS.split "/" file.

(** [count] joined prefixes of [segments], from the one of [from + 1]
    segments on. *)
Definition prefixes_from (from count : nat) (segments : list string)
  : list string :=
  map (fun i => JS.join "/" (take (i + 1) segments)) (seq from count).

Definition prefixes (segments : list string) : list string :=
  prefixes_from 0 (length segments) segments.

(** What one input path appends to the list kept for [dir]. *)
Definition registers (file dir : string) : list string :=
  if JS.includes "." (file_segment file) then
    if (1 <? length (JS.split "/" file))%nat then
      if decide (JS.join "/" (directory_segments file) = dir)
      then [file_segment file] else []
    else
      if decide (dir = "/") then [file] else []
  else [].

(** All that the input appends to the list kept for [dir], in order. *)
Definition registered (files : list string) (dir : string) : list string :=
  flat_map (fun file => registers file dir) files.

(** Input the walker can take: no discovered folder path is a property
    name of [Object.prototype]. *)
Definition forest_ok (files : list string) : Prop :=
  Forall (fun dir => JS.inherited dir = false) (getAllFolders files).

Definition is_FolderNode (node : TreeNode) : bool :=
  match node with FileNode _ _ => false | FolderNode _ _ _ => true end.
Definition node_name (node : TreeNode) : string :=
  match node with FileNode name _ | FolderNode name _ _ => name end.
Definition node_relative (node : TreeNode) : string :=
  match node with FileNode _ relative | FolderNode _ relative _ => relative end.

(** [forest_at forest chain node]: [node] lies in [forest] under the nested
    folders whose [relative] fields are [chain], outermost first. *)
Inductive forest_at : list TreeNode → list string → TreeNode → Prop :=
| forest_at_here forest node :
    node ∈ forest → forest_at forest [] node
| forest_at_down forest name relative files chain node :
    FolderNode name relative files ∈ forest →
    forest_at files chain node →
    forest_at forest (relative :: chain) node.

(** The paths of the scenario of the specification. *)
Definition scenario_files : list string :=
  ["foo.js"; "foo/y/bar.js"; "foo/bar"; "a/b/c"].

(** The root name as the specification words it: the last non-empty
    segment of the root directory, and ["/"] when there is none. *)
Definition spec_rootName (rootDirectory : string) : string :=
  default "/" (last (filter (fun part => part ≠ "")
                       (JS.split "/" rootDirectory))).

(** The key under which [getAllFileNodes] registers a file: the joined
    directory, or the sentinel for a root-level file. *)
Definition directory_key (file : string) : string :=
  match directory_segments file with
  | [] => "/"
  | _ :: _ => JS.join "/" (directory_segments file)
  end.

Section WalkVocabulary.
Variable foldersByLength : gmap nat (list string).
Variable allFileNodes : gmap string (list string).

(** The file nodes [walk] makes for [dir]. *)
Definition contained (dir : string) : list TreeNode :=
  map (fun file => FileNode file (dir +:+ "/" +:+ file))
    (default [] (allFileNodes !! dir)).

(** The recursive call [walk] makes for [dir]. *)
Definition nested_call (fuel depth : nat) (dir : string)
  : result (list TreeNode) :=
  match foldersByLength !! (depth + 1) with
  | Some next =>
      walk foldersByLength allFileNodes fuel
        (Some (List.filter (JS.startsWith dir) next)) (depth + 1)
  | None => Ok []
  end.

(** The call-back [walk] maps over [dirs]. *)
Definition walk_node (fuel depth : nat) (dir : string) : result TreeNode :=
  nestedDirs ← nested_call fuel depth dir;
  containedFileNodes ←
    match JS.read (allFileNodes !! dir) dir with
    | JS.Own files =>
        Ok (map (fun file => FileNode file (dir +:+ "/" +:+ file)) files)
    | JS.Undefined => Ok []
    | JS.Inherited => TypeError
    end;
  let dirname := hd "" (rev (JS.split "/" dir)) in
  Ok (FolderNode dirname dir (nestedDirs ++ containedFileNodes)).

(** The node [walk] returns for [dir]. *)
Definition walked (fuel depth : nat) (dir : string) (node : TreeNode)
  : Prop :=
  ∃ nested,
    nested_call fuel depth dir = Ok nested
    ∧ JS.read (allFileNodes !! dir) dir ≠ JS.Inherited
    ∧ node
      = FolderNode (hd "" (rev (JS.split "/" dir))) dir
          (nested ++ contained dir).
End WalkVocabulary.

(** A path [getAllFileNodes] can take: when it registers a file in a
    directory, that directory is not a property name of
    [Object.prototype]. *)
Definition index_path_ok (file : string) : Prop :=
  JS.includes "." (file_segment file) = true →
  directory_segments file ≠ [] →
  JS.inherited (JS.join "/" (directory_segments file)) = false.

(** The [path] of the folders below [b], [prefix] being the segments that
    lead to [b]: each joins the segments that lead to it. *)
Inductive folder_paths : list string → BuildingFolder → Prop :=
| folder_paths_intro prefix path name files folders :
    Forall (fun kv =>
              folder_path (snd kv) = JS.join "/" (prefix ++ [fst kv])
              ∧ folder_paths (prefix ++ [fst kv]) (snd kv))
      folders →
    folder_paths prefix (mkBuildingFolder path name files folders).

(** The keys of [folders] in the folder reached by [names], in creation
    order; none when there is no such folder. *)
Definition keys_at (b : BuildingFolder) (names : list string)
  : list string :=
  from_option (fun c => (folder_folders c).*1) [] (folder_at b names).

(** The segment that follows [names] in [segments], when [names] is a
    proper prefix of [segments]. *)
Definition next_segment (names segments : list string) : option string :=
  if decide (take (length names) segments = names)
  then segments !! length names
  else None.

(** The sub-folders the input asks for in the folder of [names], in the
    order of their first appearance. *)
Definition subfolder_names (filePaths : list string) (names : list string)
  : list string :=
  fold_left
    (fun keys p =>
       match next_segment names (directory_segments p) with
       | Some key => Set_add keys key
       | None => keys
       end)
    filePaths [].

(** The order in which [Object.values] and [Object.keys] list the
    properties called [keys], created in that order. *)
Definition property_order (keys : list string) : list string :=
  JS.Object_values (map (fun key => (key, key)) keys).

(** Every [FileNode] below a node, as [(relative, name)]. *)
Fixpoint node_files (node : TreeNode) : list (string * string) :=
  match node with
  | FileNode name relative => [(relative, name)]
  | FolderNode _ _ files => flat_map node_files files
  end.

(** The [relative] of every [FolderNode] below a node, the node
    included. *)
Fixpoint node_folders (node : TreeNode) : list string :=
  match node with
  | FileNode _ _ => []
  | FolderNode _ relative files => relative :: flat_map node_folders files
  end.

(** Input on which [startsWith] selects the sub-folders of a folder and
    nothing else: when the path of a discovered folder begins with the
    path of a discovered folder of the level above, what follows begins
    with a separator.  The folders [a] and [ab/c] break it. *)
Definition segment_nested (files : list string) : Prop :=
  ∀ parent dir rest,
    parent ∈ getAllFolders files → dir ∈ getAllFolders files →
    charCount dir "/" = charCount parent "/" + 1 →
    dir = parent +:+ rest →
    ∃ name, rest = "/" +:+ name.

(** Every [FileNode] of a forest, at any depth, as [(relative, name)]. *)
Definition forest_files (forest : list TreeNode) : list (string * string) :=
  flat_map node_files forest.

(** [segment_nested] as a check on the list of discovered folders. *)
Definition segment_nestedb (folders : list string) : bool :=
  forallb
    (fun parent =>
       forallb
         (fun dir =>
            implb
              ((charCount dir "/" =? charCount parent "/" + 1)%nat
               && String.prefix parent dir)
              (String.prefix (parent +:+ "/") dir))
         folders)
    folders.

(** Induction over tree nodes, with the hypothesis for every node of
    [files]. *)
Section TreeNodeInduction.
Variable P : TreeNode → Prop.
Hypothesis Hfile : ∀ name relative, P (FileNode name relative).
Hypothesis Hfolder :
  ∀ name relative files,
    Forall P files → P (FolderNode name relative files).

Fixpoint TreeNode_nested_ind (node : TreeNode) : P node :=
  match node with
  | FileNode name relative => Hfile name relative
  | FolderNode name relative files =>
      Hfolder name relative files
        ((fix go (l : list TreeNode) : Forall P l :=
            match l with
            | [] => List.Forall_nil _
            | node' :: l' =>
                List.Forall_cons _ node' l' (TreeNode_nested_ind node')
                  (go l')
            end) files)
  end.
End TreeNodeInduction.

(** * Properties *)

(** ** Strings *)

Section StringFacts.

Lemma split_nonempty sep s : JS.split sep s ≠ [].
Proof.
  destruct s as [|c s]; simpl; [done|].
  destruct (Ascii.eqb c sep); [done|].
  by destruct (JS.split sep s).
Qed.

Lemma split_last_is_Some sep s : is_Some (last (JS.split sep s)).
Proof.
  pose proof (split_nonempty sep s) as H.
  destruct (JS.split sep s) as [|x l] using rev_ind; [done|].
  rewrite last_snoc. by eexists.
Qed.

(** Joining what [split] produced gives the string back. *)
Lemma join_split sep s :
  JS.join (String sep EmptyString) (JS.split sep s) = s.
Proof.
  unfold JS.join. induction s as [|c s IH]; simpl; [done|].
  destruct (Ascii.eqb_spec c sep) as [->|Hne].
  - pose proof (split_nonempty sep s) as Hs.
    destruct (JS.split sep s) as [|seg segs]; [done|].
    simpl in *. by rewrite IH.
  - pose proof (split_nonempty sep s) as Hs.
    destruct (JS.split sep s) as [|seg segs]; [done|].
    destruct segs as [|seg' segs]; simpl in *; by subst s.
Qed.

Lemma append_assoc (a b c : string) : (a +:+ b) +:+ c = a +:+ (b +:+ c).
Proof.
  induction a as [|x a IH]; [done|].
  change (String x ((a +:+ b) +:+ c) = String x (a +:+ (b +:+ c))).
  by rewrite IH.
Qed.

Lemma charCount_app a b c :
  charCount (a +:+ b) c = charCount a c + charCount b c.
Proof. induction a as [|x a IH]; simpl; [done|]. rewrite IH. lia. Qed.

(** No segment of a split contains the separator. *)
Lemma split_segments sep s :
  Forall (fun seg => charCount seg sep = 0) (JS.split sep s).
Proof.
  induction s as [|c s IH]; simpl; [by repeat constructor|].
  destruct (Ascii.eqb c sep) eqn:E; [by constructor|].
  destruct (JS.split sep s) as [|seg segs]; simpl.
  - repeat constructor. simpl. by rewrite E.
  - inversion IH; subst. constructor; [|done]. simpl. by rewrite E.
Qed.

Lemma join_snoc sep l x :
  l ≠ [] → JS.join sep (l ++ [x]) = JS.join sep l +:+ sep +:+ x.
Proof.
  unfold JS.join. induction l as [|y l IH]; [done|]. intros _.
  destruct l as [|z l]; [done|].
  change (String.concat sep ((y :: z :: l) ++ [x]))
    with (y +:+ sep +:+ String.concat sep ((z :: l) ++ [x])).
  rewrite IH by done.
  change (String.concat sep (y :: z :: l))
    with (y +:+ sep +:+ String.concat sep (z :: l)).
  by rewrite !append_assoc.
Qed.

(** A join of [n] separator-free segments holds [n - 1] separators. *)
Lemma charCount_join sep l :
  Forall (fun seg => charCount seg sep = 0) l →
  charCount (JS.join (String sep EmptyString) l) sep = length l - 1.
Proof.
  unfold JS.join. induction 1 as [|x l Hx Hl IH]; [done|].
  destruct l as [|y l]; [simpl; lia|].
  change (String.concat (String sep "") (x :: y :: l))
    with (x +:+ String sep "" +:+ String.concat (String sep "") (y :: l)).
  rewrite !charCount_app, IH, Hx. simpl. rewrite Ascii.eqb_refl. lia.
Qed.

Lemma split_app_sep sep a b :
  charCount a sep = 0 →
  JS.split sep (a +:+ String sep b) = a :: JS.split sep b.
Proof.
  induction a as [|c a IH]; simpl.
  - intros _. by rewrite Ascii.eqb_refl.
  - destruct (Ascii.eqb c sep) eqn:E; [lia|]. simpl. intros H.
    by rewrite IH.
Qed.

Lemma split_no_sep sep a : charCount a sep = 0 → JS.split sep a = [a].
Proof.
  induction a as [|c a IH]; simpl; [done|].
  destruct (Ascii.eqb c sep) eqn:E; [lia|]. simpl. intros H.
  by rewrite IH.
Qed.

(** Splitting a join of separator-free segments gives the segments. *)
Lemma split_join sep l :
  l ≠ [] → Forall (fun seg => charCount seg sep = 0) l →
  JS.split sep (JS.join (String sep EmptyString) l) = l.
Proof.
  unfold JS.join. intros Hne H. induction H as [|x l Hx Hl IH]; [done|].
  destruct l as [|y l]; [by apply split_no_sep|].
  change (String.concat (String sep "") (x :: y :: l))
    with (x +:+ String sep (String.concat (String sep "") (y :: l))).
  rewrite split_app_sep by done. by rewrite IH.
Qed.

Lemma startsWith_app p x : JS.startsWith p (p +:+ x) = true.
Proof.
  unfold JS.startsWith. induction p as [|c p IH]; simpl.
  - by destruct x.
  - destruct (ascii_dec c c); [done | congruence].
Qed.

End StringFacts.

(** ** Completions and plain objects *)

Section ResultFacts.

Lemma bind_Ok {A B : Type} (m : result A) (f : A → result B) (b : B) :
  m ≫= f = Ok b ↔ ∃ a, m = Ok a ∧ f a = Ok b.
Proof.
  destruct m; simpl; split; try done; try (by intros (? & ? & ?)).
  - intros H. by eexists.
  - by intros (? & [= <-] & ?).
Qed.

Lemma fmap_Ok {A B : Type} (m : result A) (f : A → B) (b : B) :
  f <$> m = Ok b ↔ ∃ a, m = Ok a ∧ b = f a.
Proof.
  destruct m; simpl; split; try done; try (by intros (? & ? & ?)).
  - intros [= <-]. by eexists.
  - by intros (? & [= <-] & ->).
Qed.

(** [mapM] returns exactly when every call returns, with the results in
    order. *)
Lemma mapM_Ok {A B : Type} (f : A → result B) (l : list A) (r : list B) :
  mapM f l = Ok r ↔ Forall2 (fun x y => f x = Ok y) l r.
Proof.
  revert r. induction l as [|x l IH]; intros r.
  - split; [intros [= <-]; constructor | by inversion 1].
  - change (mapM f (x :: l))
      with (f x ≫= fun y => mapM f l ≫= fun k => Ok (y :: k)).
    rewrite bind_Ok. split.
    + intros (y & Hy & H). apply bind_Ok in H as (k & Hk & [= <-]).
      constructor; [done | by apply IH].
    + inversion 1 as [|? y ? k Hy Hk]; subst. exists y. split; [done|].
      apply bind_Ok. exists k. split; [by apply IH | done].
Qed.
End ResultFacts.

Section ObjectFacts.
Context {V : Type}.
Implicit Types (o : JS.object V) (k : string) (v : V).

Lemma own_None o k : JS.own o k = None ↔ k ∉ o.*1.
Proof.
  induction o as [|[k' v'] o IH]; simpl.
  - split; [intros _; apply not_elem_of_nil | done].
  - rewrite not_elem_of_cons.
    destruct (String.eqb_spec k' k) as [->|Hne]; [naive_solver|].
    rewrite IH. naive_solver.
Qed.

Lemma own_Some_elem o k v : JS.own o k = Some v → (k, v) ∈ o.
Proof.
  induction o as [|[k' v'] o IH]; simpl; [done|].
  destruct (String.eqb_spec k' k) as [->|Hne].
  - intros [= ->]. apply elem_of_cons. by left.
  - intros H. apply elem_of_cons. right. by apply IH.
Qed.

(** Assigning to an absent key creates the property last. *)
Lemma set_fresh o k v : JS.own o k = None → JS.set o k v = o ++ [(k, v)].
Proof.
  induction o as [|[k' v'] o IH]; simpl; [done|].
  destruct (String.eqb k' k); [done|]. intros H. by rewrite IH.
Qed.

(** Assigning to an own key replaces the value where it stands. *)
Lemma set_present o k v v' :
  JS.own o k = Some v →
  ∃ o1 o2, o = o1 ++ (k, v) :: o2 ∧ JS.set o k v' = o1 ++ (k, v') :: o2.
Proof.
  induction o as [|[k' w] o IH]; simpl; [done|].
  destruct (String.eqb_spec k' k) as [->|Hne].
  - intros [= ->]. by exists [], o.
  - intros (o1 & o2 & -> & ->)%IH. by exists ((k', w) :: o1), o2.
Qed.

Lemma own_set o k k' v :
  JS.own (JS.set o k v) k' = if decide (k = k') then Some v else JS.own o k'.
Proof.
  induction o as [|[k0 w] o IH]; simpl.
  - destruct (String.eqb_spec k k'), (decide (k = k')); done.
  - destruct (String.eqb_spec k0 k) as [->|Hne]; simpl.
    + destruct (String.eqb_spec k k'), (decide (k = k')); done.
    + destruct (String.eqb_spec k0 k') as [->|Hne'].
      * by rewrite decide_False by done.
      * apply IH.
Qed.

Lemma set_keys o k v :
  (JS.set o k v).*1 = if JS.own o k is Some _ then o.*1 else o.*1 ++ [k].
Proof.
  induction o as [|[k0 w] o IH]; csimpl; [done|].
  destruct (String.eqb_spec k0 k) as [->|Hne]; csimpl; [done|].
  rewrite IH. by destruct (JS.own o k).
Qed.

Lemma insert_index_perm (e : N * V) l : JS.insert_index e l ≡ₚ e :: l.
Proof.
  induction l as [|e' l IH]; simpl; [done|].
  destruct (fst e <=? fst e')%N; [done|].
  rewrite IH. apply Permutation_swap.
Qed.

(** [Object.values] lists every own value once. *)
Lemma Object_values_perm o : JS.Object_values o ≡ₚ o.*2.
Proof.
  unfold JS.Object_values. induction o as [|[k v] o IH]; simpl; [done|].
  destruct (JS.array_index k).
  - rewrite insert_index_perm. simpl. by rewrite IH.
  - rewrite <- Permutation_middle. by rewrite IH.
Qed.
End ObjectFacts.

Lemma insert_index_map {V W : Type} (f : V → W) n v l :
  JS.insert_index (n, f v) (map (fun e => (fst e, f (snd e))) l)
  = map (fun e => (fst e, f (snd e))) (JS.insert_index (n, v) l).
Proof.
  induction l as [|[n' v'] l IH]; simpl; [done|].
  destruct (n <=? n')%N; simpl; [done|]. by rewrite IH.
Qed.

Lemma index_properties_map {V W : Type} (f : V → W) (o : JS.object V) :
  JS.index_properties (map (fun kv => (fst kv, f (snd kv))) o)
  = map (fun e => (fst e, f (snd e))) (JS.index_properties o).
Proof.
  induction o as [|[k v] o IH]; simpl; [done|].
  destruct (JS.array_index k); [|done].
  rewrite IH. apply insert_index_map.
Qed.

(** Mapping the values of an object and listing them commute. *)
Lemma Object_values_map {V W : Type} (f : V → W) (o : JS.object V) :
  JS.Object_values (map (fun kv => (fst kv, f (snd kv))) o)
  = map f (JS.Object_values o).
Proof.
  unfold JS.Object_values. rewrite map_app, index_properties_map. f_equal.
  - rewrite !map_map. by apply map_ext.
  - induction o as [|[k v] o IH]; simpl; [done|].
    destruct (JS.array_index k); simpl; by rewrite IH.
Qed.

(** ** The trie builder: shape of the result *)

(** [convertTree] as the source writes it. *)
Lemma convertTree_unfold path name files folders :
  convertTree (mkBuildingFolder path name files folders)
  = TreeFolder path name
      (map convertTree (JS.Object_values folders) ++ map convertFile files).
Proof. simpl. by rewrite (Object_values_map convertTree). Qed.

Section InsertFacts.
Variable filePath : string.
Variable pathParts : list string.

Lemma insertFrom_last i part path name files folders :
  insertFrom filePath pathParts i [part]
    (mkBuildingFolder path name files folders)
  = Ok (mkBuildingFolder path name
          (files ++ [mkBuildingFile filePath part]) folders).
Proof. done. Qed.

Lemma insertFrom_step i part rest path name files folders :
  rest ≠ [] →
  insertFrom filePath pathParts i (part :: rest)
    (mkBuildingFolder path name files folders)
  = child ←
      match JS.read (JS.own folders part) part with
      | JS.Own child => insertFrom filePath pathParts (S i) rest child
      | JS.Inherited => TypeError
      | JS.Undefined =>
          insertFrom filePath pathParts (S i) rest
            (mkBuildingFolder (JS.join "/" (take (i + 1) pathParts)) part
               [] [])
      end;
    Ok (mkBuildingFolder path name files (JS.set folders part child)).
Proof.
  intros Hrest. destruct rest as [|part' rest]; [done|].
  simpl. by destruct (JS.read (JS.own folders part) part).
Qed.

(** Only [files] and [folders] of the folder the loop starts in change,
    and they do not depend on its [path] and [name]. *)
Lemma insertFrom_relabel i rest path name path' name' files folders :
  insertFrom filePath pathParts i rest
    (mkBuildingFolder path name files folders)
  = relabel path name
      <$> insertFrom filePath pathParts i rest
            (mkBuildingFolder path' name' files folders).
Proof.
  destruct rest as [|part rest]; [done|].
  destruct (decide (rest = [])) as [->|Hrest]; [done|].
  rewrite !insertFrom_step by done.
  by destruct (JS.read (JS.own folders part) part) as [child| |];
    try destruct (insertFrom _ _ _ _ _).
Qed.

Lemma insertFrom_labels i rest b b' :
  insertFrom filePath pathParts i rest b = Ok b' →
  folder_path b' = folder_path b ∧ folder_name b' = folder_name b.
Proof.
  destruct b as [path name files folders].
  destruct rest as [|part rest]; [by intros [= <-]|].
  destruct (decide (rest = [])) as [->|Hrest]; [by intros [= <-]|].
  rewrite insertFrom_step by done.
  intros (child & _ & [= <-])%bind_Ok. done.
Qed.

(** No [TypeError] unless a directory segment names a property of
    [Object.prototype]; never out of fuel, the loop is bounded by the
    segments. *)
Lemma insertFrom_returns i rest b :
  Forall (fun part => JS.inherited part = false) (removelast rest) →
  ∃ b', insertFrom filePath pathParts i rest b = Ok b'.
Proof.
  revert i b. induction rest as [|part rest IH]; intros i b Hsafe.
  { by exists b. }
  destruct b as [path name files folders].
  destruct (decide (rest = [])) as [->|Hrest]; [by eexists|].
  rewrite insertFrom_step by done.
  assert (removelast (part :: rest) = part :: removelast rest) as Heq
    by (by destruct rest).
  rewrite Heq in Hsafe. inversion Hsafe as [|? ? Hpart Hrest']; subst.
  unfold JS.read. rewrite Hpart.
  destruct (JS.own folders part) as [child|].
  - destruct (IH (S i) child Hrest') as [child' ->]. by eexists.
  - edestruct (IH (S i)) as [child' ->]; [done|]. by eexists.
Qed.
End InsertFacts.

Lemma insertPath_returns b filePath :
  tree_path_ok filePath → ∃ b', insertPath b filePath = Ok b'.
Proof. apply insertFrom_returns. Qed.

Lemma insertPath_labels b filePath b' :
  insertPath b filePath = Ok b' →
  folder_path b' = folder_path b ∧ folder_name b' = folder_name b.
Proof. apply insertFrom_labels. Qed.

Lemma insertPaths_returns filePaths b :
  Forall tree_path_ok filePaths → ∃ b', insertPaths b filePaths = Ok b'.
Proof.
  revert b. induction filePaths as [|p ps IH]; intros b Hok; simpl.
  { by exists b. }
  inversion Hok as [|? ? Hp Hps]; subst.
  destruct (insertPath_returns b p Hp) as [b1 ->]. simpl. by apply IH.
Qed.

Lemma insertPaths_labels filePaths b b' :
  insertPaths b filePaths = Ok b' →
  folder_path b' = folder_path b ∧ folder_name b' = folder_name b.
Proof.
  revert b. induction filePaths as [|p ps IH]; intros b; simpl.
  { by intros [= <-]. }
  intros (b1 & H1 & H2)%bind_Ok.
  apply IH in H2 as [-> ->]. by apply insertPath_labels in H1.
Qed.

Lemma insertPaths_relabel filePaths path name path' name' files folders :
  insertPaths (mkBuildingFolder path name files folders) filePaths
  = relabel path name
      <$> insertPaths (mkBuildingFolder path' name' files folders) filePaths.
Proof.
  revert files folders.
  induction filePaths as [|p ps IH]; intros files folders; simpl; [done|].
  unfold insertPath.
  rewrite (insertFrom_relabel _ _ _ _ path name path' name').
  destruct (insertFrom p _ 0 _ (mkBuildingFolder path' name' _ _))
    as [[path1 name1 files1 folders1]| |] eqn:E; simpl; [|done..].
  apply insertFrom_labels in E as [E1 E2]; simpl in *; subst.
  apply IH.
Qed.

(** [buildTree] returns for every list of admissible paths. *)
Lemma buildTree_returns filePaths rootDirectory :
  Forall tree_path_ok filePaths →
  ∃ children,
    buildTree filePaths rootDirectory
    = Ok (TreeFolder rootDirectory (default "/" (rootName rootDirectory))
            children).
Proof.
  intros Hok. unfold buildTree.
  edestruct insertPaths_returns as [b' Hb']; [done|]. rewrite Hb'.
  apply insertPaths_labels in Hb' as [H1 H2].
  destruct b' as [path name files folders]; simpl in H1, H2; subst.
  eexists. unfold fmap, result_fmap. by rewrite convertTree_unfold.
Qed.

(** ** The trie builder: files *)

Lemma flat_map_convertFile files :
  flat_map tree_files (map convertFile files) = map file_entry files.
Proof.
  induction files as [|[path name] files IH]; simpl; [done|].
  by rewrite IH.
Qed.

(** Conversion keeps the files, up to the order [Object.values] imposes
    on the folders. *)
Lemma convertTree_files b :
  tree_files (convertTree b) ≡ₚ map file_entry (building_files b).
Proof.
  induction b as [path name files folders IH] using BuildingFolder_nested_ind.
  rewrite convertTree_unfold.
  cbn [tree_files building_files].
  rewrite flat_map_app, map_app, flat_map_convertFile.
  apply Permutation_app; [|done].
  rewrite (Object_values_perm folders).
  clear files. induction folders as [|[k c] folders IHf]; [done|].
  inversion IH as [|? ? Hc Hfolders]; subst.
  cbn [fmap list_fmap map flat_map snd]. rewrite map_app.
  apply Permutation_app; [exact Hc | by apply IHf].
Qed.

Section InsertFiles.
Variable filePath : string.
Variable pathParts : list string.

(** Inserting a path adds one file, named by the last segment. *)
Lemma insertFrom_files i rest b b' :
  rest ≠ [] →
  insertFrom filePath pathParts i rest b = Ok b' →
  building_files b'
  ≡ₚ mkBuildingFile filePath (default "" (last rest)) :: building_files b.
Proof.
  revert i b b'. induction rest as [|part rest IH]; [done|].
  intros i [path name files folders] b' _.
  destruct (decide (rest = [])) as [->|Hrest].
  { intros [= <-]. cbn [building_files last default].
    rewrite app_assoc. by rewrite <- Permutation_cons_append. }
  rewrite insertFrom_step by done.
  assert (last (part :: rest) = last rest) as ->
    by (destruct rest; [done | apply last_cons_cons]).
  intros (child' & Hchild & [= <-])%bind_Ok.
  cbn [building_files]. unfold JS.read in Hchild.
  destruct (JS.own folders part) as [child|] eqn:Hown.
  - apply IH in Hchild; [|done].
    destruct (set_present folders part child child' Hown)
      as (o1 & o2 & -> & ->).
    rewrite !flat_map_app. cbn [flat_map snd]. rewrite Hchild.
    by rewrite <- !app_assoc, <- !app_comm_cons, <- !Permutation_middle.
  - destruct (JS.inherited part); [done|].
    apply IH in Hchild; [|done].
    rewrite set_fresh by done.
    rewrite flat_map_app. cbn [flat_map snd building_files] in *.
    rewrite Hchild. rewrite app_nil_r.
    by rewrite <- !app_assoc, <- !app_comm_cons, <- !Permutation_middle.
Qed.
End InsertFiles.

Lemma insertPaths_files filePaths b b' :
  insertPaths b filePaths = Ok b' →
  building_files b'
  ≡ₚ building_files b
     ++ map (fun p => mkBuildingFile p (file_segment p)) filePaths.
Proof.
  revert b. induction filePaths as [|p ps IH]; intros b; simpl.
  { intros [= <-]. by rewrite app_nil_r. }
  intros (b1 & H1 & H2)%bind_Ok.
  apply IH in H2. rewrite H2.
  apply insertFrom_files in H1; [|apply split_nonempty].
  rewrite H1. by rewrite <- Permutation_middle.
Qed.

(** Counted with multiplicity, the [TreeFile]s of the tree are the input
    paths, each with its last segment as name. *)
Lemma buildTree_files filePaths rootDirectory t :
  buildTree filePaths rootDirectory = Ok t →
  tree_files t ≡ₚ map (fun p => (p, file_segment p)) filePaths.
Proof.
  unfold buildTree. intros (b & Hb & ->)%fmap_Ok.
  rewrite convertTree_files. apply insertPaths_files in Hb.
  rewrite Hb. simpl. rewrite map_map. done.
Qed.

(** ** The trie builder: folders *)

Lemma folder_wf_empty path name files :
  folder_wf (mkBuildingFolder path name files []).
Proof. constructor; [apply NoDup_nil_2 | constructor]. Qed.

Lemma insertFrom_wf filePath pathParts i rest b b' :
  insertFrom filePath pathParts i rest b = Ok b' →
  folder_wf b → folder_wf b'.
Proof.
  revert i b b'. induction rest as [|part rest IH]; intros i b b'.
  { by intros [= <-]. }
  destruct b as [path name files folders].
  destruct (decide (rest = [])) as [->|Hrest].
  { intros [= <-]. inversion 1; subst. by constructor. }
  rewrite insertFrom_step by done.
  intros (child' & Hchild & [= <-])%bind_Ok.
  inversion 1 as [? ? ? ? Hkeys Hall]; subst.
  unfold JS.read in Hchild.
  destruct (JS.own folders part) as [child|] eqn:Hown.
  - pose proof (insertFrom_labels _ _ _ _ _ _ Hchild) as [_ Hname].
    destruct (set_present folders part child child' Hown)
      as (o1 & o2 & -> & Hset).
    constructor.
    + by rewrite set_keys, Hown.
    + rewrite Hset. rewrite Forall_app, Forall_cons in Hall |- *.
      destruct Hall as (H1 & (Hc & Hpart & Hwf) & H2). simpl in *.
      split_and!; [done| congruence | done | by eapply IH | done].
  - destruct (JS.inherited part) eqn:Hpart; [done|].
    pose proof (insertFrom_labels _ _ _ _ _ _ Hchild) as [_ Hname].
    constructor.
    + rewrite set_keys, Hown. apply NoDup_app. split_and!; [done| |].
      * intros k Hk ->%list_elem_of_singleton. by apply own_None in Hown.
      * apply NoDup_singleton.
    + rewrite set_fresh by done. apply Forall_app. split; [done|].
      apply Forall_singleton. split; [done|]. split; [done|].
      eapply IH; [done|]. apply folder_wf_empty.
Qed.

Lemma insertPaths_wf filePaths b b' :
  insertPaths b filePaths = Ok b' → folder_wf b → folder_wf b'.
Proof.
  revert b. induction filePaths as [|p ps IH]; intros b; simpl.
  { by intros [= <-]. }
  intros (b1 & H1 & H2)%bind_Ok Hwf. eapply IH; [done|].
  by eapply insertFrom_wf.
Qed.

Lemma convertTree_name b : tree_name (convertTree b) = folder_name b.
Proof. by destruct b. Qed.

Lemma convertTree_is_folder b : is_folder (convertTree b) = true.
Proof. by destruct b. Qed.

Lemma folder_names_convert folders files :
  folder_names
    (map convertTree (JS.Object_values folders) ++ map convertFile files)
  = folder_name <$> JS.Object_values folders.
Proof.
  unfold folder_names. rewrite List.filter_app.
  replace (List.filter is_folder (map convertFile files)) with (@nil Tree).
  2: { induction files as [|[] files IH]; simpl; done. }
  rewrite app_nil_r.
  induction (JS.Object_values folders) as [|c l IH]; [done|].
  cbn [map List.filter]. rewrite convertTree_is_folder. csimpl.
  by rewrite convertTree_name, IH.
Qed.



Section InsertAt.
Variable filePath : string.
Variable pathParts : list string.

Lemma files_at_new path name names :
  files_at (mkBuildingFolder path name [] []) names = [].
Proof. by destruct names. Qed.

(** The file goes to the folder named by the directory segments, at the
    end of its list; every other list is left alone. *)
Lemma insertFrom_files_at i rest b b' names :
  rest ≠ [] →
  insertFrom filePath pathParts i rest b = Ok b' →
  files_at b' names
  = files_at b names
    ++ (if decide (names = removelast rest)
        then [mkBuildingFile filePath (default "" (last rest))]
        else []).
Proof.
  revert i b b' names. induction rest as [|part rest IH]; [done|].
  intros i [path name files folders] b' names _.
  destruct (decide (rest = [])) as [->|Hrest].
  { intros [= <-]. destruct names; [done|].
    cbn [removelast]. rewrite decide_False by done.
    by rewrite app_nil_r. }
  rewrite insertFrom_step by done.
  assert (last (part :: rest) = last rest) as ->
    by (destruct rest; [done | apply last_cons_cons]).
  assert (removelast (part :: rest) = part :: removelast rest) as ->
    by (by destruct rest).
  intros (child' & Hchild & [= <-])%bind_Ok.
  destruct names as [|n names].
  { rewrite decide_False by done. by rewrite app_nil_r. }
  unfold files_at. cbn [folder_at folder_folders]. rewrite own_set.
  destruct (decide (part = n)) as [<-|Hne].
  - unfold JS.read in Hchild.
    destruct (JS.own folders part) as [child|] eqn:Hown.
    + eapply (IH _ _ _ names) in Hchild; [|done].
      unfold files_at in Hchild. rewrite Hchild.
      f_equal. by repeat case_decide; simplify_eq.
    + destruct (JS.inherited part); [done|].
      eapply (IH _ _ _ names) in Hchild; [|done].
      rewrite files_at_new in Hchild.
      unfold files_at in Hchild. rewrite Hchild. cbn [from_option].
      by repeat case_decide; simplify_eq.
  - rewrite (decide_False (P := n :: names = _)) by congruence.
    by rewrite app_nil_r.
Qed.

(** The folder of the directory segments exists afterwards. *)
Lemma insertFrom_folder_at i rest b b' :
  insertFrom filePath pathParts i rest b = Ok b' →
  is_Some (folder_at b' (removelast rest)).
Proof.
  revert i b b'. induction rest as [|part rest IH]; intros i b b'.
  { by intros [= <-]. }
  destruct b as [path name files folders].
  destruct (decide (rest = [])) as [->|Hrest]; [by intros [= <-]|].
  rewrite insertFrom_step by done.
  assert (removelast (part :: rest) = part :: removelast rest) as ->
    by (by destruct rest).
  intros (child' & Hchild & [= <-])%bind_Ok.
  cbn [folder_at folder_folders]. rewrite own_set, decide_True by done.
  destruct (JS.read (JS.own folders part) part); [| done |]; by eapply IH.
Qed.

(** Folders are never removed. *)
Lemma insertFrom_folder_at_mono i rest b b' names :
  insertFrom filePath pathParts i rest b = Ok b' →
  is_Some (folder_at b names) → is_Some (folder_at b' names).
Proof.
  revert i b b' names. induction rest as [|part rest IH]; intros i b b' names.
  { by intros [= <-]. }
  destruct b as [path name files folders].
  destruct (decide (rest = [])) as [->|Hrest].
  { intros [= <-]. by destruct names. }
  rewrite insertFrom_step by done.
  intros (child' & Hchild & [= <-])%bind_Ok.
  destruct names as [|n names]; [done|].
  cbn [folder_at folder_folders]. rewrite own_set.
  destruct (decide (part = n)) as [<-|Hne]; [|done].
  unfold JS.read in Hchild.
  destruct (JS.own folders part) as [child|]; [by eapply IH|].
  by intros [].
Qed.
End InsertAt.

Lemma insertPaths_files_at filePaths b b' names :
  insertPaths b filePaths = Ok b' →
  files_at b' names
  = files_at b names
    ++ map (fun p => mkBuildingFile p (file_segment p))
         (filter (fun p => directory_segments p = names) filePaths).
Proof.
  revert b. induction filePaths as [|p ps IH]; intros b; simpl.
  { intros [= <-]. by rewrite app_nil_r. }
  intros (b1 & H1 & H2)%bind_Ok.
  rewrite (IH _ H2).
  rewrite (insertFrom_files_at _ _ _ _ _ _ names (split_nonempty _ _) H1).
  rewrite filter_cons. fold (directory_segments p) (file_segment p).
  rewrite <- app_assoc. f_equal.
  repeat case_decide; simplify_eq; done.
Qed.

Lemma insertPaths_folder_at_mono filePaths b b' names :
  insertPaths b filePaths = Ok b' →
  is_Some (folder_at b names) → is_Some (folder_at b' names).
Proof.
  revert b. induction filePaths as [|p ps IH]; intros b; simpl.
  { by intros [= <-]. }
  intros (b1 & H1 & H2)%bind_Ok Hb. eapply IH; [done|].
  by eapply insertFrom_folder_at_mono.
Qed.

Lemma insertPaths_folder_at filePaths b b' p :
  insertPaths b filePaths = Ok b' → p ∈ filePaths →
  is_Some (folder_at b' (directory_segments p)).
Proof.
  revert b. induction filePaths as [|q ps IH]; intros b; simpl.
  { intros _ Hp. by apply elem_of_nil in Hp. }
  intros (b1 & H1 & H2)%bind_Ok [->|Hp]%elem_of_cons; [|by eapply IH].
  eapply insertPaths_folder_at_mono; [done|].
  by eapply insertFrom_folder_at.
Qed.

(** Conversion keeps the addresses of the folders. *)
Lemma convertTree_at b names c :
  folder_wf b → folder_at b names = Some c →
  tree_at (convertTree b) names (convertTree c).
Proof.
  revert b. induction names as [|n names IH]; intros b Hwf; simpl.
  { intros [= ->]. constructor. }
  destruct (JS.own (folder_folders b) n) as [child|] eqn:Hown; [|done].
  intros Hc. destruct Hwf as [path name files folders Hkeys Hall].
  simpl in Hown. apply own_Some_elem in Hown.
  rewrite Forall_forall in Hall. destruct (Hall _ Hown) as (Hn & _ & Hwf).
  simpl in Hn. rewrite <- Hn, <- convertTree_name, convertTree_unfold.
  apply tree_at_down; [|apply convertTree_is_folder|by apply IH].
  apply elem_of_app. left. apply list_elem_of_fmap_2.
  rewrite (Object_values_perm folders).
  by apply (list_elem_of_fmap_2 snd _ (n, child)).
Qed.

(** The folder an input path lies in: it is found under the path's
    directory segments, and after its sub-folders it lists the input paths
    of that directory, in input order and as often as they were given. *)
Lemma buildTree_directory filePaths rootDirectory p :
  Forall tree_path_ok filePaths → p ∈ filePaths →
  ∃ t id name folders,
    buildTree filePaths rootDirectory = Ok t
    ∧ tree_at t (directory_segments p)
        (TreeFolder id name
           (folders
            ++ map (fun q => TreeFile q (file_segment q))
                 (filter
                    (fun q => directory_segments q = directory_segments p)
                    filePaths)))
    ∧ Forall (fun child => is_folder child = true) folders.
Proof.
  intros Hok Hp. unfold buildTree.
  edestruct insertPaths_returns as [b' Hb']; [done|]. rewrite Hb'.
  destruct (insertPaths_folder_at _ _ _ _ Hb' Hp)
    as [[path name files folders] Hc].
  exists (convertTree b'), path, name,
    (map convertTree (JS.Object_values folders)).
  split; [done|]. split.
  - pose proof (insertPaths_files_at _ _ _ (directory_segments p) Hb') as Hf.
    unfold files_at in Hf at 1. rewrite Hc in Hf. simpl in Hf.
    eapply convertTree_at in Hc.
    2: { eapply insertPaths_wf; [done|]. apply folder_wf_empty. }
    rewrite convertTree_unfold, Hf, files_at_new, app_nil_l, map_map in Hc.
    exact Hc.
  - apply Forall_forall. intros child (c & -> & _)%list_elem_of_fmap.
    apply convertTree_is_folder.
Qed.

(** ** The walker: the tables *)

Section SetFacts.
Lemma Set_add_elem dirs dir x : x ∈ Set_add dirs dir ↔ x ∈ dirs ∨ x = dir.
Proof.
  unfold Set_add. case_bool_decide.
  - naive_solver.
  - rewrite elem_of_app, list_elem_of_singleton. done.
Qed.

Lemma Set_add_NoDup dirs dir : NoDup dirs → NoDup (Set_add dirs dir).
Proof.
  unfold Set_add. case_bool_decide; [done|]. intros Hdirs.
  apply NoDup_app. split_and!; [done| |apply NoDup_singleton].
  by intros x Hx ->%list_elem_of_singleton.
Qed.

Lemma fold_Set_add_elem {A} (g : A → string) l dirs x :
  x ∈ fold_left (fun dirs y => Set_add dirs (g y)) l dirs
  ↔ x ∈ dirs ∨ ∃ y, y ∈ l ∧ x = g y.
Proof.
  revert dirs. induction l as [|y l IH]; intros dirs; simpl.
  - split; [by left|]. intros [?|(y & Hy & _)]; [done|].
    by apply elem_of_nil in Hy.
  - rewrite IH, Set_add_elem. setoid_rewrite elem_of_cons. naive_solver.
Qed.

Lemma fold_Set_add_NoDup {A} (g : A → string) l dirs :
  NoDup dirs → NoDup (fold_left (fun dirs y => Set_add dirs (g y)) l dirs).
Proof.
  revert dirs. induction l as [|y l IH]; intros dirs; simpl; [done|].
  intros Hdirs. by apply IH, Set_add_NoDup.
Qed.
End SetFacts.

Lemma directory_segments_take file :
  directory_segments file
  = take (length (JS.split "/" file) - 1) (JS.split "/" file).
Proof.
  unfold directory_segments. rewrite removelast_firstn_len.
  f_equal. lia.
Qed.

Lemma split_directory_file file :
  JS.split "/" file = directory_segments file ++ [file_segment file].
Proof.
  unfold directory_segments, file_segment.
  destruct (split_last_is_Some "/" file) as [x Hx]. rewrite Hx.
  apply last_Some in Hx as [l ->]. by rewrite removelast_last.
Qed.

(** The loop body of [getAllFolders], by the prefixes it adds. *)
Lemma getAllFolders_step dirs file :
  (let path := JS.split "/" file in
   match last path with
   | Some lastPart =>
       let hasFileNode := JS.includes "." lastPart in
       let dirOnly :=
         if hasFileNode then take (length path - 1) path else path in
       fold_left
         (fun dirs i => Set_add dirs (JS.join "/" (take (i + 1) dirOnly)))
         (seq 0 (length dirOnly)) dirs
   | None => dirs
   end)
  = fold_left (fun dirs dir => Set_add dirs dir)
      (prefixes (folder_segments file)) dirs.
Proof.
  cbv zeta. unfold prefixes, prefixes_from, folder_segments, file_segment.
  rewrite <- directory_segments_take.
  destruct (split_last_is_Some "/" file) as [x ->].
  cbn [default from_option id].
  assert (∀ segs l,
    fold_left
      (fun dirs i => Set_add dirs (JS.join "/" (take (i + 1) segs))) l dirs
    = fold_left (fun dirs dir => Set_add dirs dir)
        (map (fun i => JS.join "/" (take (i + 1) segs)) l) dirs) as Hgen.
  { intros segs l. revert dirs.
    induction l as [|i l IH]; intros dirs; simpl; [done|]. apply IH. }
  destruct (JS.includes "." x); apply Hgen.
Qed.

Lemma fold_left_pointwise {A B : Type} (f g : A → B → A) l a :
  (∀ a b, f a b = g a b) → fold_left f l a = fold_left g l a.
Proof.
  intros Hfg. revert a. induction l as [|b l IH]; intros a; simpl; [done|].
  by rewrite Hfg, IH.
Qed.

Lemma getAllFolders_elem files x :
  x ∈ getAllFolders files
  ↔ ∃ file, file ∈ files ∧ x ∈ prefixes (folder_segments file).
Proof.
  unfold getAllFolders.
  assert (∀ dirs,
    x ∈ fold_left
          (fun dirs file =>
             fold_left (fun dirs dir => Set_add dirs dir)
               (prefixes (folder_segments file)) dirs) files dirs
    ↔ x ∈ dirs ∨ ∃ file, file ∈ files ∧ x ∈ prefixes (folder_segments file))
    as Hgen.
  { induction files as [|file files IH]; intros dirs; simpl.
    - split; [by left|]. intros [?|(y & Hy & _)]; [done|].
      by apply elem_of_nil in Hy.
    - rewrite IH, (fold_Set_add_elem id). setoid_rewrite elem_of_cons.
      unfold id. naive_solver. }
  erewrite fold_left_pointwise; [|intros; apply getAllFolders_step].
  rewrite Hgen. split; [intros [H|H]; [by apply elem_of_nil in H | done]|].
  by right.
Qed.

Lemma getAllFolders_NoDup files : NoDup (getAllFolders files).
Proof.
  unfold getAllFolders.
  erewrite fold_left_pointwise; [|intros; apply getAllFolders_step].
  generalize (NoDup_nil_2 (A := string)). generalize (@nil string).
  induction files as [|file files IH]; intros dirs Hdirs; simpl; [done|].
  apply IH. by apply (fold_Set_add_NoDup id).
Qed.

(** [foldersByLength[d]] is the sub-list of the folders with [d]
    separators, and is absent when there is none. *)
Lemma foldersByLength_lookup folders d :
  foldersByLength_of folders !! d
  = match filter (fun x => charCount x "/" = d) folders with
    | [] => None
    | l => Some l
    end.
Proof.
  unfold foldersByLength_of.
  set (step := fun (acc : gmap nat (list string)) curr => _).
  assert (∀ acc,
    fold_left step folders acc !! d
    = match filter (fun x => charCount x "/" = d) folders with
      | [] => acc !! d
      | l => Some (default [] (acc !! d) ++ l)
      end) as Hgen.
  { induction folders as [|x folders IH]; intros acc; simpl; [done|].
    rewrite IH, filter_cons.
    assert (step acc x !! d
            = if decide (charCount x "/" = d)
              then Some (default [] (acc !! d) ++ [x]) else acc !! d) as ->.
    { unfold step. destruct (decide (charCount x "/" = d)) as [<-|Hne].
      - by destruct (acc !! charCount x "/"); rewrite lookup_insert_eq.
      - by destruct (acc !! charCount x "/");
          rewrite lookup_insert_ne by done. }
    destruct (decide (charCount x "/" = d)); [|done].
    destruct (filter _ folders); simpl; by rewrite <- ?app_assoc. }
  rewrite Hgen, lookup_empty. by destruct (filter _ folders).
Qed.

Lemma foldersByLength_Some folders d l :
  foldersByLength_of folders !! d = Some l →
  l = filter (fun x => charCount x "/" = d) folders.
Proof.
  rewrite foldersByLength_lookup. destruct (filter _ folders); naive_solver.
Qed.

Lemma foldersByLength_elem folders x :
  x ∈ folders →
  ∃ l, foldersByLength_of folders !! charCount x "/" = Some l ∧ x ∈ l.
Proof.
  intros Hx. rewrite foldersByLength_lookup.
  assert (x ∈ filter (fun y => charCount y "/" = charCount x "/") folders)
    as Hin by (by apply list_elem_of_filter).
  destruct (filter _ folders) as [|y l]; [by apply elem_of_nil in Hin|].
  by eexists.
Qed.

Lemma getAllFileNodes_step_spec allFileNodes file :
  is_Some (allFileNodes !! "/") →
  JS.inherited (JS.join "/" (directory_segments file)) = false →
  ∃ allFileNodes',
    getAllFileNodes_step allFileNodes file = Ok allFileNodes'
    ∧ is_Some (allFileNodes' !! "/")
    ∧ ∀ dir,
        default [] (allFileNodes' !! dir)
        = default [] (allFileNodes !! dir) ++ registers file dir.
Proof.
  intros [root Hroot] Hsafe.
  unfold getAllFileNodes_step, registers, file_segment, directory_segments
    in *.
  destruct (split_last_is_Some "/" file) as [x Hx].
  apply last_Some in Hx as [ds Hds]. rewrite Hds in *. clear Hds.
  rewrite removelast_last in *.
  rewrite last_snoc, length_app, rev_app_distr.
  cbn [default from_option id rev app length].
  set (dir0 := JS.join "/" ds) in *.
  destruct (JS.includes "." x) eqn:Hdot.
  2: { rewrite andb_false_r. cbn. eexists. split_and!; [done|by eexists|].
       intros dir. by rewrite app_nil_r. }
  rewrite andb_true_r. cbn [andb]. rewrite rev_involutive. fold dir0.
  clearbody dir0. destruct ds as [|d ds].
  - cbn. rewrite Hroot. cbn. eexists. split_and!; [done| |].
    + rewrite lookup_insert_eq. by eexists.
    + intros dir. destruct (decide (dir = "/")) as [->|Hne].
      * by rewrite lookup_insert_eq, Hroot.
      * rewrite lookup_insert_ne by done. by rewrite app_nil_r.
  - replace (1 <? length (d :: ds) + 1)%nat with true
      by (symmetry; apply Nat.ltb_lt; simpl; lia).
    replace (length (d :: ds) + 1 =? 1)%nat with false
      by (symmetry; apply Nat.eqb_neq; simpl; lia).
    unfold JS.read. rewrite Hsafe.
    destruct (allFileNodes !! dir0) as [l|] eqn:Hdir; cbn.
    + eexists. split_and!; [done| |].
      * rewrite lookup_insert. case_decide; [by eexists|].
        rewrite Hroot. by eexists.
      * intros dir. rewrite lookup_insert.
        destruct (decide (dir0 = dir)) as [<-|Hne]; [by rewrite Hdir|].
        by rewrite app_nil_r.
    + eexists. split_and!; [done| |].
      * rewrite lookup_insert. case_decide; [by eexists|].
        rewrite Hroot. by eexists.
      * intros dir. rewrite lookup_insert.
        destruct (decide (dir0 = dir)) as [<-|Hne]; [by rewrite Hdir|].
        by rewrite app_nil_r.
Qed.

Lemma prefixes_elem segments i :
  i < length segments →
  JS.join "/" (take (i + 1) segments) ∈ prefixes segments.
Proof.
  intros Hi. unfold prefixes, prefixes_from.
  apply (list_elem_of_fmap_2 (fun i => JS.join "/" (take (i + 1) segments))).
  apply list_elem_of_In, in_seq. lia.
Qed.

(** The directory of a path is a discovered folder as soon as the path has
    one. *)
Lemma directory_in_getAllFolders files file :
  file ∈ files → directory_segments file ≠ [] →
  JS.join "/" (directory_segments file) ∈ getAllFolders files.
Proof.
  intros Hfile Hdir. apply getAllFolders_elem. exists file. split; [done|].
  set (ds := directory_segments file) in *.
  assert (0 < length ds) as Hlen by (destruct ds; simpl; [done | lia]).
  unfold folder_segments. fold ds.
  destruct (JS.includes "." (file_segment file)).
  - replace ds with (take (length ds - 1 + 1) ds) at 1
      by (apply firstn_all2; lia).
    apply prefixes_elem. lia.
  - rewrite split_directory_file. fold ds.
    replace ds with (take (length ds - 1 + 1) (ds ++ [file_segment file]))
      at 1.
    + apply prefixes_elem. rewrite length_app. simpl. lia.
    + replace (length ds - 1 + 1) with (length ds) by lia.
      by rewrite take_app_length.
Qed.

Lemma getAllFileNodes_loop_spec allFileNodes files :
  is_Some (allFileNodes !! "/") →
  Forall (fun file =>
            JS.inherited (JS.join "/" (directory_segments file)) = false)
    files →
  ∃ allFileNodes',
    getAllFileNodes_loop allFileNodes files = Ok allFileNodes'
    ∧ ∀ dir,
        default [] (allFileNodes' !! dir)
        = default [] (allFileNodes !! dir) ++ registered files dir.
Proof.
  intros Hroot Hsafe. revert allFileNodes Hroot.
  induction Hsafe as [|file files Hfile _ IH]; intros allFileNodes Hroot.
  { exists allFileNodes. split; [done|]. intros dir. by rewrite app_nil_r. }
  destruct (getAllFileNodes_step_spec allFileNodes file Hroot Hfile)
    as (m1 & Hstep & Hroot1 & Hm1).
  destruct (IH m1 Hroot1) as (m2 & Hloop & Hm2).
  exists m2. split.
  - simpl. by rewrite Hstep.
  - intros dir. rewrite Hm2, Hm1. simpl. by rewrite app_assoc.
Qed.

(** [getAllFileNodes] returns on admissible input, and the list read for
    a directory, [[]] when there is none, is what the input registered. *)
Lemma getAllFileNodes_spec files :
  forest_ok files →
  ∃ allFileNodes,
    getAllFileNodes files = Ok allFileNodes
    ∧ ∀ dir, default [] (allFileNodes !! dir) = registered files dir.
Proof.
  intros Hok. unfold getAllFileNodes.
  edestruct (getAllFileNodes_loop_spec {["/" := []]} files)
    as (m & Hm & Hlookup).
  - rewrite lookup_singleton_eq. by eexists.
  - apply Forall_forall. intros file Hfile.
    destruct (decide (directory_segments file = [])) as [->|Hne]; [done|].
    unfold forest_ok in Hok. rewrite Forall_forall in Hok.
    by apply Hok, directory_in_getAllFolders.
  - exists m. split; [done|]. intros dir. rewrite Hlookup.
    destruct (decide (dir = "/")) as [->|Hne].
    + by rewrite lookup_singleton_eq.
    + by rewrite lookup_singleton_ne.
Qed.

(** ** The walker: the forest *)

Lemma forest_at_app forest1 forest2 chain node :
  forest_at (forest1 ++ forest2) chain node
  ↔ forest_at forest1 chain node ∨ forest_at forest2 chain node.
Proof.
  split.
  - inversion 1 as [? ? Hin|? ? ? ? ? ? Hin Hat]; subst;
      apply elem_of_app in Hin as [Hin|Hin];
      eauto using forest_at_here, forest_at_down.
  - intros [H|H]; inversion H as [? ? Hin|? ? ? ? ? ? Hin Hat]; subst.
    + apply forest_at_here, elem_of_app. by left.
    + eapply forest_at_down; [|done]. apply elem_of_app. by left.
    + apply forest_at_here, elem_of_app. by right.
    + eapply forest_at_down; [|done]. apply elem_of_app. by right.
Qed.

Lemma forest_at_snoc forest chain name relative files node :
  forest_at forest chain (FolderNode name relative files) →
  node ∈ files →
  forest_at forest (chain ++ [relative]) node.
Proof.
  intros Hat Hnode.
  remember (FolderNode name relative files) as folder eqn:Hfolder.
  induction Hat as [forest folder Hin|? ? ? ? ? ? Hin Hat IH]; subst.
  - eapply forest_at_down; [done|]. by apply forest_at_here.
  - simpl. eapply forest_at_down; [done|]. by apply IH.
Qed.

Lemma Forall2_elem_r {A B} (P : A → B → Prop) l k y :
  Forall2 P l k → y ∈ k → ∃ x, x ∈ l ∧ P x y.
Proof.
  induction 1 as [|x y' l k Hxy _ IH]; intros Hy.
  - by apply elem_of_nil in Hy.
  - apply elem_of_cons in Hy as [->|Hy].
    + exists x. split; [apply list_elem_of_here | done].
    + destruct (IH Hy) as (x' & Hx' & HP). exists x'.
      split; [by apply list_elem_of_further | done].
Qed.

Lemma Forall2_elem_l {A B} (P : A → B → Prop) l k x :
  Forall2 P l k → x ∈ l → ∃ y, y ∈ k ∧ P x y.
Proof.
  induction 1 as [|x' y l k Hxy _ IH]; intros Hx.
  - by apply elem_of_nil in Hx.
  - apply elem_of_cons in Hx as [->|Hx].
    + exists y. split; [apply list_elem_of_here | done].
    + destruct (IH Hx) as (y' & Hy' & HP). exists y'.
      split; [by apply list_elem_of_further | done].
Qed.

Section WalkFacts.
Variable foldersByLength : gmap nat (list string).
Variable allFileNodes : gmap string (list string).

Lemma walk_unfold fuel dirs depth :
  walk foldersByLength allFileNodes (S fuel) (Some dirs) depth
  = mapM (walk_node foldersByLength allFileNodes fuel depth) dirs.
Proof. reflexivity. Qed.

Lemma walk_node_Ok fuel depth dir node :
  walk_node foldersByLength allFileNodes fuel depth dir = Ok node
  ↔ walked foldersByLength allFileNodes fuel depth dir node.
Proof.
  unfold walk_node, walked, contained, JS.read.
  rewrite bind_Ok. setoid_rewrite bind_Ok.
  destruct (allFileNodes !! dir) as [l|]; [|destruct (JS.inherited dir)];
    simpl; naive_solver.
Qed.

Lemma walk_Ok fuel dirs depth forest :
  walk foldersByLength allFileNodes fuel (Some dirs) depth = Ok forest
  ↔ ∃ fuel',
      fuel = S fuel'
      ∧ Forall2 (walked foldersByLength allFileNodes fuel' depth) dirs
          forest.
Proof.
  destruct fuel as [|fuel].
  { split; [done | by intros (? & ? & _)]. }
  rewrite walk_unfold, mapM_Ok. split.
  - intros H. exists fuel. split; [done|].
    eapply Forall2_impl; [done|]. intros dir node. apply walk_node_Ok.
  - intros (? & [= <-] & H).
    eapply Forall2_impl; [done|]. intros dir node. apply walk_node_Ok.
Qed.

Lemma walk_FolderNodes fuel dirs depth forest :
  walk foldersByLength allFileNodes fuel dirs depth = Ok forest →
  Forall (fun node => is_FolderNode node = true) forest.
Proof.
  destruct dirs as [dirs|].
  - intros (fuel' & -> & H)%walk_Ok. apply Forall_forall. intros node Hn.
    destruct (Forall2_elem_r _ _ _ _ H Hn) as (dir & _ & ? & _ & _ & ->).
    done.
  - destruct fuel; [done|]. by intros [= <-].
Qed.

Lemma nested_FolderNodes fuel depth dir nested :
  nested_call foldersByLength allFileNodes fuel depth dir = Ok nested →
  Forall (fun node => is_FolderNode node = true) nested.
Proof.
  unfold nested_call. destruct (foldersByLength !! (depth + 1)).
  - apply walk_FolderNodes.
  - by intros [= <-].
Qed.

Lemma walk_relatives fuel dirs depth forest :
  walk foldersByLength allFileNodes fuel (Some dirs) depth = Ok forest →
  node_relative <$> forest = dirs.
Proof.
  intros (fuel' & -> & H)%walk_Ok.
  induction H as [|dir node dirs forest (? & _ & _ & ->) _ IH]; [done|].
  csimpl. by rewrite IH.
Qed.

(** A folder without separator is named by its whole path. *)
Lemma walk_names fuel dirs depth forest :
  walk foldersByLength allFileNodes fuel (Some dirs) depth = Ok forest →
  (∀ dir, dir ∈ dirs → charCount dir "/" = 0) →
  node_name <$> forest = dirs.
Proof.
  intros (fuel' & -> & H)%walk_Ok Hcount.
  induction H as [|dir node dirs forest (? & _ & _ & ->) _ IH]; [done|].
  csimpl. rewrite split_no_sep by (apply Hcount, list_elem_of_here).
  simpl. f_equal. apply IH. intros dir' Hin.
  by apply Hcount, list_elem_of_further.
Qed.

(** A file node of the forest comes from the list of the innermost
    folder around it, which [walk] visited and which lies as deep as it
    has separators. *)
Lemma walk_file_at fuel dirs depth forest chain name relative :
  (∀ d l x, foldersByLength !! d = Some l → x ∈ l → charCount x "/" = d) →
  walk foldersByLength allFileNodes fuel (Some dirs) depth = Ok forest →
  (∀ x, x ∈ dirs → charCount x "/" = depth) →
  forest_at forest chain (FileNode name relative) →
  ∃ dir,
    last chain = Some dir
    ∧ charCount dir "/" + 1 = depth + length chain
    ∧ (dir ∈ dirs ∨ ∃ d l, foldersByLength !! d = Some l ∧ dir ∈ l)
    ∧ name ∈ default [] (allFileNodes !! dir)
    ∧ relative = dir +:+ "/" +:+ name.
Proof.
  intros Hcount. revert dirs depth forest chain.
  induction fuel as [|fuel IH]; intros dirs depth forest chain.
  { by intros (? & ? & _)%walk_Ok. }
  intros (? & [= <-] & Hwalk)%walk_Ok Hdirs Hat.
  inversion Hat as [? ? Hin|? nm rel fs chain' ? Hin Hat']; subst.
  { destruct (Forall2_elem_r _ _ _ _ Hwalk Hin)
      as (dir & _ & ? & _ & _ & [=]). }
  destruct (Forall2_elem_r _ _ _ _ Hwalk Hin)
    as (dir & Hdir & nested & Hnested & _ & [= -> -> ->]).
  apply forest_at_app in Hat' as [Hat'|Hat'].
  - unfold nested_call in Hnested.
    destruct (foldersByLength !! (depth + 1)) as [next|] eqn:Hnext.
    + eapply IH in Hnested
        as (dir' & Hlast & Hlen & Hvisited & Hname & Hrel); [| |done].
      * exists dir'. split; [|split; [|split; [|done]]].
        -- destruct chain'; [done|]. by rewrite last_cons_cons.
        -- cbn [length]. lia.
        -- right. destruct Hvisited as [Hin'|Hin']; [|done].
           apply list_elem_of_In, filter_In in Hin' as [Hin' _].
           exists (depth + 1), next. split; [done|].
           by apply list_elem_of_In.
      * intros x [Hx _]%list_elem_of_In%filter_In. eapply Hcount; [done|].
        by apply list_elem_of_In.
    + injection Hnested as <-.
      inversion Hat' as [? ? Hin'|? ? ? ? ? ? Hin' _]; subst;
        by apply elem_of_nil in Hin'.
  - unfold contained in Hat'.
    inversion Hat' as [? ? Hin'|? ? ? ? ? ? Hin' _]; subst.
    + apply list_elem_of_fmap in Hin' as (file & [= -> ->] & Hfile).
      exists dir. split; [done|]. split; [|by split; [left|]].
      rewrite (Hdirs dir Hdir). cbn [length]. lia.
    + by apply list_elem_of_fmap in Hin' as (file & [=] & _).
Qed.

Lemma Forall2_exists {A B} (P : A → B → Prop) l :
  (∀ x, x ∈ l → ∃ y, P x y) → ∃ k, Forall2 P l k.
Proof.
  induction l as [|x l IH]; intros HP.
  - exists []. constructor.
  - destruct (HP x) as [y Hy]; [apply list_elem_of_here|].
    destruct IH as [k Hk].
    { intros x' Hx'. by apply HP, list_elem_of_further. }
    exists (y :: k). by constructor.
Qed.

(** With one unit of fuel per level that has folders, [walk] returns
    unless it reads an inherited property. *)
Lemma walk_returns levels fuel dirs depth :
  (∀ d, is_Some (foldersByLength !! d) → d < levels) →
  (∀ d l x, foldersByLength !! d = Some l → x ∈ l →
            JS.read (allFileNodes !! x) x ≠ JS.Inherited) →
  (∀ x, x ∈ dirs → JS.read (allFileNodes !! x) x ≠ JS.Inherited) →
  levels ≤ fuel + depth → 1 ≤ fuel →
  ∃ forest,
    walk foldersByLength allFileNodes fuel (Some dirs) depth = Ok forest.
Proof.
  intros Hlevels Hsafe. revert dirs depth.
  induction fuel as [|fuel IH]; intros dirs depth Hdirs Hfuel Hpos; [lia|].
  destruct (Forall2_exists
              (walked foldersByLength allFileNodes fuel depth) dirs)
    as [forest Hforest].
  - intros dir Hdir. unfold walked, nested_call.
    destruct (foldersByLength !! (depth + 1)) as [next|] eqn:Hnext.
    + assert (depth + 1 < levels) by (apply Hlevels; by eexists).
      destruct (IH (List.filter (JS.startsWith dir) next) (depth + 1))
        as [nested Hnested]; [|lia|lia|].
      * intros x [Hx _]%list_elem_of_In%filter_In.
        eapply Hsafe; [done|]. by apply list_elem_of_In.
      * eexists _, nested. split; [done|]. split; [by apply Hdirs|done].
    + eexists _, []. split; [done|]. split; [by apply Hdirs|done].
  - exists forest. apply walk_Ok. by exists fuel.
Qed.

(** The folder of [segments] lies under the folders of its prefixes. *)
Lemma walk_folder_at segments count fuel dirs depth forest :
  (∀ i, i < length segments →
        ∃ l, foldersByLength !! i = Some l
             ∧ JS.join "/" (take (i + 1) segments) ∈ l) →
  walk foldersByLength allFileNodes fuel (Some dirs) depth = Ok forest →
  depth + count + 1 = length segments →
  JS.join "/" (take (depth + 1) segments) ∈ dirs →
  ∃ name nested,
    forest_at forest (prefixes_from depth count segments)
      (FolderNode name (JS.join "/" segments)
         (nested ++ contained allFileNodes (JS.join "/" segments)))
    ∧ Forall (fun node => is_FolderNode node = true) nested.
Proof.
  intros Hlevels. revert fuel dirs depth forest.
  induction count as [|count IH]; intros fuel dirs depth forest
    (fuel' & -> & Hwalk)%walk_Ok Hlen Hdir;
    destruct (Forall2_elem_l _ _ _ _ Hwalk Hdir)
      as (node & Hnode & nested & Hnested & _ & ->).
  - rewrite firstn_all2 in Hnode by lia.
    eexists _, nested. split; [by apply forest_at_here|].
    by eapply nested_FolderNodes.
  - unfold prefixes_from. cbn [seq map].
    destruct (Hlevels (depth + 1)) as (next & Hnext & Hin); [lia|].
    unfold nested_call in Hnested. rewrite Hnext in Hnested.
    eapply (IH _ _ (depth + 1)) in Hnested as (name & nested' & Hat & Hall);
      [|lia|].
    + exists name, nested'. split; [|done].
      eapply forest_at_down; [done|]. apply forest_at_app. left.
      replace (S depth) with (depth + 1) by lia. exact Hat.
    + apply list_elem_of_In, filter_In. split; [by apply list_elem_of_In|].
      destruct (lookup_lt_is_Some_2 segments (depth + 1)) as [seg Hseg];
        [lia|].
      replace (depth + 1 + 1) with (S (depth + 1)) by lia.
      rewrite (take_S_r _ _ _ Hseg), join_snoc.
      * apply startsWith_app.
      * destruct segments; [simpl in Hlen; lia|].
        by replace (depth + 1) with (S depth) by lia.
Qed.

End WalkFacts.

(** ** The walker on the tables of [makeFileHierarchy] *)

Lemma split_length_count sep s :
  length (JS.split sep s) = charCount s sep + 1.
Proof.
  induction s as [|c s IH]; simpl; [done|].
  destruct (Ascii.eqb c sep); simpl; [lia|].
  pose proof (split_nonempty sep s).
  destruct (JS.split sep s); simpl in *; [done | lia].
Qed.

Lemma directory_segments_length path :
  length (directory_segments path) = charCount path "/".
Proof.
  pose proof (split_length_count "/" path) as H.
  rewrite split_directory_file, length_app in H. simpl in H. lia.
Qed.

Lemma file_segment_count path : charCount (file_segment path) "/" = 0.
Proof.
  pose proof (split_segments "/" path) as H.
  rewrite split_directory_file, Forall_app, Forall_singleton in H.
  by destruct H.
Qed.

Lemma directory_segments_count path :
  Forall (fun seg => charCount seg "/" = 0) (directory_segments path).
Proof.
  pose proof (split_segments "/" path) as H.
  rewrite split_directory_file, Forall_app in H. by destruct H.
Qed.

(** A path is its directory, a separator and its last segment. *)
Lemma join_directory_file path :
  directory_segments path ≠ [] →
  JS.join "/" (directory_segments path) +:+ "/" +:+ file_segment path = path.
Proof.
  intros Hdir. rewrite <- join_snoc by done.
  rewrite <- split_directory_file. apply (join_split "/").
Qed.

Lemma file_segment_root path :
  directory_segments path = [] → file_segment path = path.
Proof.
  intros Hdir. pose proof (join_split "/" path) as H.
  by rewrite split_directory_file, Hdir in H.
Qed.

(** What [registers] can add, and where. *)
Lemma registers_elem file dir name :
  name ∈ registers file dir →
  name = file_segment file
  ∧ JS.includes "." (file_segment file) = true
  ∧ (directory_segments file ≠ []
     ∧ dir = JS.join "/" (directory_segments file)
     ∨ directory_segments file = [] ∧ dir = "/").
Proof.
  unfold registers.
  destruct (JS.includes "." (file_segment file)); [|by intros ?%elem_of_nil].
  rewrite split_directory_file, length_app. simpl.
  destruct (directory_segments file) as [|d ds] eqn:Hds; simpl.
  - case_decide; [|by intros ?%elem_of_nil].
    intros ->%list_elem_of_singleton. split; [|by split; [|right]].
    symmetry. by apply file_segment_root.
  - replace (1 <? S (length ds + 1)) with true
      by (symmetry; apply Nat.ltb_lt; lia).
    case_decide; [|by intros ?%elem_of_nil].
    intros ->%list_elem_of_singleton. split; [done|]. split; [done|].
    by left.
Qed.

Lemma registers_file file :
  JS.includes "." (file_segment file) = true →
  directory_segments file ≠ [] →
  registers file (JS.join "/" (directory_segments file))
  = [file_segment file].
Proof.
  intros Hdot Hdir. unfold registers. rewrite Hdot.
  rewrite split_directory_file, length_app. simpl.
  replace (1 <? length (directory_segments file) + 1) with true.
  - by rewrite decide_True.
  - symmetry. apply Nat.ltb_lt. destruct (directory_segments file); [done|].
    simpl. lia.
Qed.

Lemma registers_root file :
  JS.includes "." (file_segment file) = true →
  directory_segments file = [] →
  registers file "/" = [file].
Proof.
  intros Hdot Hdir. unfold registers. rewrite Hdot.
  rewrite split_directory_file, length_app, Hdir. by simpl.
Qed.

Lemma registered_elem files dir name :
  name ∈ registered files dir →
  ∃ file, file ∈ files ∧ name ∈ registers file dir.
Proof.
  unfold registered. intros (file & Hfile & Hname)%list_elem_of_In%in_flat_map.
  exists file. split; by apply list_elem_of_In.
Qed.

(** Every prefix of the directory of an input path is a discovered
    folder. *)
Lemma directory_prefix_in_getAllFolders files file i :
  file ∈ files → i < length (directory_segments file) →
  JS.join "/" (take (i + 1) (directory_segments file)) ∈ getAllFolders files.
Proof.
  intros Hfile Hi. apply getAllFolders_elem. exists file. split; [done|].
  unfold folder_segments.
  destruct (JS.includes "." (file_segment file)); [by apply prefixes_elem|].
  rewrite split_directory_file.
  replace (take (i + 1) (directory_segments file))
    with (take (i + 1) (directory_segments file ++ [file_segment file]))
    by (apply take_app_le; lia).
  apply prefixes_elem. rewrite length_app. simpl. lia.
Qed.

Section Tables.
Variable files : list string.

Lemma level_elem d l x :
  foldersByLength_of (getAllFolders files) !! d = Some l → x ∈ l →
  x ∈ getAllFolders files ∧ charCount x "/" = d.
Proof.
  intros ->%foldersByLength_Some Hx. by apply list_elem_of_filter in Hx as [].
Qed.

Lemma level_NoDup d l :
  foldersByLength_of (getAllFolders files) !! d = Some l → NoDup l.
Proof.
  intros ->%foldersByLength_Some. apply NoDup_filter, getAllFolders_NoDup.
Qed.

Lemma level_bound d :
  is_Some (foldersByLength_of (getAllFolders files) !! d) →
  d < walk_fuel (getAllFolders files).
Proof.
  intros [l Hl]. pose proof Hl as Hl'.
  rewrite foldersByLength_lookup in Hl'.
  destruct l as [|x l]; [by destruct (filter _ _)|].
  destruct (level_elem d (x :: l) x Hl) as [Hx <-];
    [apply list_elem_of_here|].
  unfold walk_fuel. apply Nat.lt_succ_r.
  pose proof (proj1 (list_max_le
    (map (fun dir => charCount dir "/") (getAllFolders files)) _)
    (Nat.le_refl _)) as Hmax.
  rewrite List.Forall_forall in Hmax. apply Hmax.
  apply (in_map (fun dir => charCount dir "/")). by apply list_elem_of_In.
Qed.

(** The levels of the prefixes of the directory of an input path. *)
Lemma directory_levels file i :
  file ∈ files → i < length (directory_segments file) →
  ∃ l, foldersByLength_of (getAllFolders files) !! i = Some l
       ∧ JS.join "/" (take (i + 1) (directory_segments file)) ∈ l.
Proof.
  intros Hfile Hi.
  pose proof (directory_prefix_in_getAllFolders files file i Hfile Hi)
    as Hin.
  apply foldersByLength_elem in Hin as (l & Hl & Hin).
  rewrite (charCount_join "/") in Hl.
  - rewrite length_take in Hl.
    replace ((i + 1) `min` length (directory_segments file) - 1) with i
      in Hl by lia.
    by exists l.
  - apply Forall_take, directory_segments_count.
Qed.
End Tables.

Lemma read_not_inherited {V} (own : option V) k :
  JS.inherited k = false → JS.read own k ≠ JS.Inherited.
Proof. unfold JS.read. intros ->. by destruct own. Qed.

(** [makeFileHierarchy] returns on admissible input: its forest is what
    [walk] gives for the folders without separator, over tables that hold
    what the input registered. *)
Lemma makeFileHierarchy_returns files :
  forest_ok files →
  ∃ allFileNodes forest,
    getAllFileNodes files = Ok allFileNodes
    ∧ (∀ dir, default [] (allFileNodes !! dir) = registered files dir)
    ∧ makeFileHierarchy files = Ok forest
    ∧ (foldersByLength_of (getAllFolders files) !! 0 = None ∧ forest = []
       ∨ ∃ dirs,
           foldersByLength_of (getAllFolders files) !! 0 = Some dirs
           ∧ walk (foldersByLength_of (getAllFolders files)) allFileNodes
               (walk_fuel (getAllFolders files)) (Some dirs) 0
             = Ok forest).
Proof.
  intros Hok.
  destruct (getAllFileNodes_spec files Hok) as (allFileNodes & Hfiles & Hreg).
  exists allFileNodes. unfold makeFileHierarchy. rewrite Hfiles. cbn.
  unfold forest_ok in Hok. rewrite Forall_forall in Hok.
  destruct (foldersByLength_of (getAllFolders files) !! 0) as [dirs|] eqn:H0.
  - destruct (walk_returns (foldersByLength_of (getAllFolders files))
                allFileNodes (walk_fuel (getAllFolders files))
                (walk_fuel (getAllFolders files)) dirs 0)
      as [forest Hforest].
    + apply level_bound.
    + intros d l x Hl Hx. apply read_not_inherited, Hok.
      by eapply level_elem.
    + intros x Hx. apply read_not_inherited, Hok. by eapply level_elem.
    + lia.
    + unfold walk_fuel. lia.
    + exists forest. split_and!; [done..|]. right. by exists dirs.
  - exists []. split_and!; [done..|]. by left.
Qed.

Section Forest.
Variable files : list string.
Variable allFileNodes : gmap string (list string).
Variable forest : list TreeNode.
Hypothesis Hregistered :
  ∀ dir, default [] (allFileNodes !! dir) = registered files dir.
Hypothesis Hwalk :
  foldersByLength_of (getAllFolders files) !! 0 = None ∧ forest = []
  ∨ ∃ dirs,
      foldersByLength_of (getAllFolders files) !! 0 = Some dirs
      ∧ walk (foldersByLength_of (getAllFolders files)) allFileNodes
          (walk_fuel (getAllFolders files)) (Some dirs) 0
        = Ok forest.

Lemma forest_at_nil chain (node : TreeNode) : ¬ forest_at [] chain node.
Proof.
  inversion 1 as [? ? Hin|? ? ? ? ? ? Hin _]; by apply elem_of_nil in Hin.
Qed.

(** A file node stands for a registered file of a discovered folder, as
    deep as its path has directory segments. *)
Lemma forest_file chain name relative :
  forest_at forest chain (FileNode name relative) →
  ∃ dir file,
    last chain = Some dir
    ∧ dir ∈ getAllFolders files
    ∧ file ∈ files
    ∧ name ∈ registers file dir
    ∧ relative = dir +:+ "/" +:+ name
    ∧ length chain = length (directory_segments relative).
Proof.
  intros Hat. destruct Hwalk as [[_ ->]|(dirs & H0 & Hw)].
  { by apply forest_at_nil in Hat. }
  destruct (walk_file_at _ _ _ _ _ _ chain name relative
              (fun d l x Hl Hx => proj2 (level_elem files d l x Hl Hx))
              Hw (fun x Hx => proj2 (level_elem files 0 dirs x H0 Hx)) Hat)
    as (dir & Hlast & Hlen & Hvisited & Hname & ->).
  rewrite Hregistered in Hname.
  apply registered_elem in Hname as (file & Hfile & Hname).
  exists dir, file. split_and!; [done| |done..|].
  - destruct Hvisited as [Hin|(d & l & Hl & Hin)]; by eapply level_elem.
  - rewrite directory_segments_length, !charCount_app.
    apply registers_elem in Hname as (-> & _ & _).
    rewrite file_segment_count. simpl. lia.
Qed.

(** The folder of the directory of an input path, under the folders of
    the shorter prefixes, with its files last. *)
Lemma forest_directory file :
  file ∈ files → directory_segments file ≠ [] →
  ∃ name nested,
    forest_at forest
      (prefixes_from 0 (length (directory_segments file) - 1)
         (directory_segments file))
      (FolderNode name (JS.join "/" (directory_segments file))
         (nested
          ++ map (fun name =>
                    FileNode name
                      (JS.join "/" (directory_segments file)
                       +:+ "/" +:+ name))
               (registered files
                  (JS.join "/" (directory_segments file)))))
    ∧ Forall (fun node => is_FolderNode node = true) nested.
Proof.
  intros Hfile Hdir.
  assert (0 < length (directory_segments file)) as Hlen
    by (destruct (directory_segments file); simpl; [done | lia]).
  destruct (directory_levels files file 0 Hfile Hlen) as (l & Hl & Hin).
  destruct Hwalk as [[H0 _]|(dirs & H0 & Hw)]; [congruence|].
  rewrite Hl in H0. injection H0 as <-.
  rewrite <- Hregistered.
  eapply (walk_folder_at _ _ (directory_segments file)); [|done|lia|done].
  intros i Hi. by apply directory_levels.
Qed.



End Forest.

Lemma prefixes_snoc segments :
  segments ≠ [] →
  prefixes segments
  = prefixes_from 0 (length segments - 1) segments
    ++ [JS.join "/" segments].
Proof.
  intros Hne. unfold prefixes, prefixes_from.
  assert (0 < length segments) by (destruct segments; simpl; [done | lia]).
  replace (length segments) with (S (length segments - 1)) at 1 by lia.
  rewrite seq_S, map_app. simpl. do 3 f_equal. apply firstn_all2. lia.
Qed.

Lemma prefixes_length segments : length (prefixes segments) = length segments.
Proof. unfold prefixes, prefixes_from. by rewrite length_map, length_seq. Qed.

Lemma registered_app files1 files2 dir :
  registered (files1 ++ files2) dir
  = registered files1 dir ++ registered files2 dir.
Proof. apply flat_map_app. Qed.

Lemma registered_elem_of files file dir name :
  file ∈ files → name ∈ registers file dir → name ∈ registered files dir.
Proof.
  intros Hfile Hname. apply list_elem_of_In, in_flat_map.
  exists file. split; by apply list_elem_of_In.
Qed.

Section ForestFiles.
Variable files : list string.
Variable allFileNodes : gmap string (list string).
Variable forest : list TreeNode.
Hypothesis Hregistered :
  ∀ dir, default [] (allFileNodes !! dir) = registered files dir.
Hypothesis Hwalk :
  foldersByLength_of (getAllFolders files) !! 0 = None ∧ forest = []
  ∨ ∃ dirs,
      foldersByLength_of (getAllFolders files) !! 0 = Some dirs
      ∧ walk (foldersByLength_of (getAllFolders files)) allFileNodes
          (walk_fuel (getAllFolders files)) (Some dirs) 0
        = Ok forest.

(** An input path with a directory and a dot in its last segment is a
    file node under the folders of the prefixes of its directory. *)
Lemma forest_input_file p :
  p ∈ files → JS.includes "." (file_segment p) = true →
  directory_segments p ≠ [] →
  forest_at forest (prefixes (directory_segments p))
    (FileNode (file_segment p) p).
Proof.
  intros Hp Hdot Hdir.
  destruct (forest_directory files allFileNodes forest Hregistered Hwalk
              p Hp Hdir) as (name & nested & Hat & _).
  rewrite prefixes_snoc by done.
  eapply forest_at_snoc; [exact Hat|].
  apply elem_of_app. right.
  rewrite <- (join_directory_file p Hdir) at 2.
  apply (list_elem_of_fmap_2
           (fun name =>
              FileNode name
                (JS.join "/" (directory_segments p) +:+ "/" +:+ name))).
  eapply registered_elem_of; [done|].
  rewrite registers_file by done. apply list_elem_of_here.
Qed.

(** Unless a folder with the path of the sentinel was discovered, a file
    node stands for an input path with a directory and a dot in its last
    segment. *)
Lemma forest_file_input chain name relative :
  "/" ∉ getAllFolders files →
  forest_at forest chain (FileNode name relative) →
  relative ∈ files
  ∧ name = file_segment relative
  ∧ JS.includes "." (file_segment relative) = true
  ∧ directory_segments relative ≠ [].
Proof.
  intros Hsentinel Hat.
  destruct (forest_file files allFileNodes forest Hregistered Hwalk
              chain name relative Hat)
    as (dir & file & _ & Hdir & Hfile & Hname & -> & _).
  apply registers_elem in Hname as (-> & Hdot & [[Hne ->]|[_ ->]]);
    [|done].
  by rewrite join_directory_file.
Qed.
End ForestFiles.

(** ** The outcomes of the two strategies *)

Lemma inherited_no_separator k :
  JS.inherited k = true → charCount k "/" = 0.
Proof.
  unfold JS.inherited, JS.Object_prototype_keys. cbn [existsb].
  intros H.
  repeat (apply orb_prop in H as [H|H];
          [apply String.eqb_eq in H as ->; reflexivity|]).
  discriminate.
Qed.

(** A directory segment named like a property of [Object.prototype] is
    found by [in] and is no folder: the loop throws. *)
Lemma insertFrom_throws filePath pathParts i rest b :
  folder_wf b →
  Exists (fun part => JS.inherited part = true) (removelast rest) →
  insertFrom filePath pathParts i rest b = TypeError.
Proof.
  revert i b. induction rest as [|part rest IH]; intros i b Hwf Hbad.
  { by apply Exists_nil in Hbad. }
  destruct b as [path name files folders].
  destruct (decide (rest = [])) as [->|Hrest].
  { by apply Exists_nil in Hbad. }
  rewrite insertFrom_step by done.
  assert (removelast (part :: rest) = part :: removelast rest) as Heq
    by (by destruct rest).
  rewrite Heq in Hbad. inversion Hwf as [? ? ? ? Hkeys Hall]; subst.
  rewrite Forall_forall in Hall. unfold JS.read.
  destruct (JS.own folders part) as [child|] eqn:Hown.
  - apply own_Some_elem in Hown.
    destruct (Hall _ Hown) as (_ & Hpart & Hchild). simpl in Hpart.
    apply Exists_cons in Hbad as [Hbad|Hbad]; [congruence|].
    by rewrite (IH _ _ Hchild Hbad).
  - destruct (JS.inherited part) eqn:Hpart; [done|].
    apply Exists_cons in Hbad as [Hbad|Hbad]; [congruence|].
    by rewrite (IH _ _ (folder_wf_empty _ _ _) Hbad).
Qed.

Lemma insertFrom_not_OutOfFuel filePath pathParts i rest b :
  insertFrom filePath pathParts i rest b ≠ OutOfFuel.
Proof.
  revert i b. induction rest as [|part rest IH]; intros i b; [done|].
  destruct b as [path name files folders].
  destruct (decide (rest = [])) as [->|Hrest]; [done|].
  rewrite insertFrom_step by done.
  destruct (JS.read (JS.own folders part) part) as [child| |]; [|done|].
  - specialize (IH (S i) child).
    by destruct (insertFrom filePath pathParts (S i) rest child).
  - specialize (IH (S i)
      (mkBuildingFolder (JS.join "/" (take (i + 1) pathParts)) part [] [])).
    by destruct (insertFrom filePath pathParts (S i) rest _).
Qed.

#[local] Instance tree_path_ok_dec p : Decision (tree_path_ok p).
Proof. unfold tree_path_ok. apply _. Defined.

Lemma insertPaths_throws filePaths b :
  folder_wf b → ¬ Forall tree_path_ok filePaths →
  insertPaths b filePaths = TypeError.
Proof.
  revert b. induction filePaths as [|p ps IH]; intros b Hwf Hbad; simpl.
  { destruct Hbad. constructor. }
  destruct (decide (tree_path_ok p)) as [Hp|Hp].
  - destruct (insertPath_returns b p Hp) as [b1 Hb1]. rewrite Hb1. simpl.
    apply IH.
    + by eapply insertFrom_wf.
    + intros Hps. apply Hbad. by constructor.
  - unfold insertPath. rewrite insertFrom_throws; [done..|].
    unfold tree_path_ok, directory_segments in Hp.
    apply not_Forall_Exists in Hp; [|apply _].
    eapply Exists_impl; [exact Hp|]. intros part Hpart.
    unfold compose in Hpart. by destruct (JS.inherited part).
Qed.

(** [buildTree] returns exactly on the lists of admissible paths, and
    throws a [TypeError] on the others. *)
Lemma buildTree_outcome filePaths rootDirectory :
  (Forall tree_path_ok filePaths
   ∧ ∃ t, buildTree filePaths rootDirectory = Ok t)
  ∨ (¬ Forall tree_path_ok filePaths
     ∧ buildTree filePaths rootDirectory = TypeError).
Proof.
  destruct (decide (Forall tree_path_ok filePaths)) as [Hok|Hbad].
  - left. split; [done|].
    destruct (buildTree_returns filePaths rootDirectory Hok) as [? ->].
    by eexists.
  - right. split; [done|]. unfold buildTree.
    rewrite insertPaths_throws; [done| |done]. apply folder_wf_empty.
Qed.

Lemma mapM_OutOfFuel {A B} (f : A → result B) l :
  mapM f l = OutOfFuel → ∃ x, x ∈ l ∧ f x = OutOfFuel.
Proof.
  induction l as [|x l IH]; [done|].
  change (mapM f (x :: l))
    with (f x ≫= fun y => mapM f l ≫= fun k => Ok (y :: k)).
  destruct (f x) as [y| |] eqn:Hx; simpl; [|done|].
  - destruct (mapM f l) as [k| |]; simpl; [done..|]. intros _.
    destruct IH as (x' & Hx' & Hf); [done|].
    exists x'. split; [by apply list_elem_of_further | done].
  - intros _. exists x. split; [apply list_elem_of_here | done].
Qed.

Lemma mapM_agree {A B} (f g : A → result B) l :
  (∀ x, f x ≠ OutOfFuel → g x = f x) →
  mapM f l ≠ OutOfFuel → mapM g l = mapM f l.
Proof.
  intros Hfg. induction l as [|x l IH]; [done|].
  change (mapM f (x :: l))
    with (f x ≫= fun y => mapM f l ≫= fun k => Ok (y :: k)).
  change (mapM g (x :: l))
    with (g x ≫= fun y => mapM g l ≫= fun k => Ok (y :: k)).
  destruct (f x) as [y| |] eqn:Hx; simpl.
  - rewrite Hfg, Hx by congruence. simpl. intros Hl. rewrite IH; [done|].
    by destruct (mapM f l).
  - rewrite Hfg, Hx by congruence. done.
  - done.
Qed.

Section WalkFuel.
Variable foldersByLength : gmap nat (list string).
Variable allFileNodes : gmap string (list string).

Lemma walk_node_OutOfFuel fuel depth dir :
  walk_node foldersByLength allFileNodes fuel depth dir = OutOfFuel →
  nested_call foldersByLength allFileNodes fuel depth dir = OutOfFuel.
Proof.
  unfold walk_node.
  destruct (nested_call foldersByLength allFileNodes fuel depth dir);
    [|done..].
  simpl. by destruct (JS.read (allFileNodes !! dir) dir).
Qed.

(** One unit of fuel per level with folders and one for the entry are
    enough, whatever the call meets. *)
Lemma walk_fuel_enough levels fuel dirs depth :
  (∀ d, is_Some (foldersByLength !! d) → d < levels) →
  levels ≤ fuel + depth → 1 ≤ fuel →
  walk foldersByLength allFileNodes fuel dirs depth ≠ OutOfFuel.
Proof.
  intros Hlevels. revert dirs depth.
  induction fuel as [|fuel IH]; intros dirs depth Hfuel Hpos; [lia|].
  destruct dirs as [dirs|]; [|done]. rewrite walk_unfold.
  intros (dir & _ & Hdir%walk_node_OutOfFuel)%mapM_OutOfFuel.
  unfold nested_call in Hdir.
  destruct (foldersByLength !! (depth + 1)) as [next|] eqn:Hnext; [|done].
  assert (depth + 1 < levels) by (apply Hlevels; by eexists).
  by eapply (IH _ (depth + 1)); [lia|lia|].
Qed.

(** More fuel does not change an outcome. *)
Lemma walk_more_fuel fuel dirs depth :
  walk foldersByLength allFileNodes fuel dirs depth ≠ OutOfFuel →
  walk foldersByLength allFileNodes (S fuel) dirs depth
  = walk foldersByLength allFileNodes fuel dirs depth.
Proof.
  revert dirs depth. induction fuel as [|fuel IH]; intros dirs depth.
  { by intros []. }
  destruct dirs as [dirs|]; [|done]. rewrite !walk_unfold.
  apply mapM_agree. intros dir Hdir. unfold walk_node, nested_call in *.
  destruct (foldersByLength !! (depth + 1)) as [next|]; [|done].
  rewrite IH; [done|]. intros Hout. by rewrite Hout in Hdir.
Qed.
End WalkFuel.

Lemma getAllFileNodes_loop_not_OutOfFuel allFileNodes files :
  getAllFileNodes_loop allFileNodes files ≠ OutOfFuel.
Proof.
  revert allFileNodes. induction files as [|file files IH];
    intros allFileNodes; simpl; [done|].
  destruct (getAllFileNodes_step allFileNodes file) as [m| |] eqn:Hstep;
    simpl; [apply IH|done|].
  unfold getAllFileNodes_step in Hstep.
  repeat (match type of Hstep with
          | context [match ?x with _ => _ end] => destruct x
          end; simpl in Hstep; try done).
Qed.

(** [makeFileHierarchy] does not run out of fuel. *)
Lemma makeFileHierarchy_not_OutOfFuel files :
  makeFileHierarchy files ≠ OutOfFuel.
Proof.
  unfold makeFileHierarchy.
  pose proof (getAllFileNodes_loop_not_OutOfFuel {["/" := []]} files) as Hget.
  fold (getAllFileNodes files) in Hget.
  destruct (getAllFileNodes files) as [allFileNodes| |]; [|done..].
  cbn [mbind result_bind].
  apply (walk_fuel_enough _ _ (walk_fuel (getAllFolders files))).
  - apply level_bound.
  - lia.
  - unfold walk_fuel. lia.
Qed.

(** The tables of [getAllFileNodes] have no key named like a property of
    [Object.prototype]. *)
Lemma getAllFileNodes_step_keys allFileNodes file allFileNodes' :
  getAllFileNodes_step allFileNodes file = Ok allFileNodes' →
  (∀ k, is_Some (allFileNodes !! k) → JS.inherited k = false) →
  ∀ k, is_Some (allFileNodes' !! k) → JS.inherited k = false.
Proof.
  unfold getAllFileNodes_step. intros Hstep Hkeys.
  apply bind_Ok in Hstep as (m1 & Hm1 & Hm2).
  assert (∀ k, is_Some (m1 !! k) → JS.inherited k = false) as Hkeys1.
  { destruct (_ && _) in Hm1; [|by simplify_eq].
    destruct (rev (JS.split "/" file)) as [|x path]; [by simplify_eq|].
    unfold JS.read in Hm1.
    destruct (allFileNodes !! JS.join "/" (rev path)) as [l|] eqn:Hdir.
    - simplify_eq. intros k. rewrite lookup_insert.
      case_decide; [subst; intros _; apply Hkeys; by eexists | apply Hkeys].
    - destruct (JS.inherited (JS.join "/" (rev path))) eqn:Hsafe; [done|].
      simplify_eq. intros k. rewrite lookup_insert.
      case_decide; [by subst | apply Hkeys]. }
  destruct (_ && _) in Hm2; [|by simplify_eq].
  unfold JS.read in Hm2.
  destruct (m1 !! "/") as [l|]; [|by destruct (JS.inherited "/")].
  simplify_eq. intros k. rewrite lookup_insert.
  case_decide; [by subst | apply Hkeys1].
Qed.

Lemma getAllFileNodes_keys files allFileNodes :
  getAllFileNodes files = Ok allFileNodes →
  ∀ k, is_Some (allFileNodes !! k) → JS.inherited k = false.
Proof.
  unfold getAllFileNodes.
  assert (∀ k, is_Some (({["/" := []]} : gmap string (list string)) !! k) →
               JS.inherited k = false) as Hinit.
  { intros k [l Hl]. apply lookup_singleton_Some in Hl as [<- _]. done. }
  revert Hinit. generalize ({["/" := []]} : gmap string (list string)).
  induction files as [|file files IH]; intros m Hm; simpl.
  { by intros [= <-]. }
  intros (m1 & Hstep & Hloop)%bind_Ok. eapply IH; [|done].
  by eapply getAllFileNodes_step_keys.
Qed.

(** On the input itself: the walker can take the paths whose first folder
    segment, when they have one, is not a property name of
    [Object.prototype]. *)
Lemma forest_ok_first_segment files :
  forest_ok files
  ↔ Forall (fun file =>
              ∀ first, head (folder_segments file) = Some first →
                       JS.inherited first = false) files.
Proof.
  unfold forest_ok. rewrite !Forall_forall. split.
  - intros Hok file Hfile first Hfirst. apply Hok, getAllFolders_elem.
    exists file. split; [done|].
    destruct (folder_segments file) as [|first' segments] eqn:Hseg;
      [done|]. injection Hfirst as ->.
    apply (prefixes_elem (first :: segments) 0). simpl. lia.
  - intros Hok dir (file & Hfile & Hdir)%getAllFolders_elem.
    destruct (JS.inherited dir) eqn:Hinh; [|done].
    apply inherited_no_separator in Hinh as Hcount.
    unfold prefixes, prefixes_from in Hdir.
    apply list_elem_of_fmap in Hdir as (i & -> & Hi).
    apply list_elem_of_In, in_seq in Hi.
    assert (Forall (fun seg => charCount seg "/" = 0) (folder_segments file))
      as Hsegs.
    { unfold folder_segments. destruct (JS.includes "." (file_segment file)).
      - apply directory_segments_count.
      - apply split_segments. }
    rewrite (charCount_join "/") in Hcount by by apply Forall_take.
    rewrite length_take in Hcount.
    assert (i = 0) as -> by lia.
    destruct (folder_segments file) as [|first segments] eqn:Hseg;
      [simpl in Hi; lia|].
    change (JS.join "/" (take (0 + 1) (first :: segments))) with first
      in Hinh.
    rewrite (Hok file Hfile first) in Hinh; [done|]. by rewrite Hseg.
Qed.

(** [makeFileHierarchy] returns exactly on the admissible inputs, and
    throws a [TypeError] on the others. *)
Lemma makeFileHierarchy_outcome files :
  (forest_ok files ∧ ∃ forest, makeFileHierarchy files = Ok forest)
  ∨ (¬ forest_ok files ∧ makeFileHierarchy files = TypeError).
Proof.
  destruct (decide (forest_ok files)) as [Hok|Hbad].
  { left. split; [done|].
    destruct (makeFileHierarchy_returns files Hok)
      as (? & forest & _ & _ & -> & _). by eexists. }
  right. split; [done|].
  pose proof (makeFileHierarchy_not_OutOfFuel files) as Hfuel.
  destruct (makeFileHierarchy files) as [forest| |] eqn:Hmake; [|done..].
  destruct Hbad. apply Forall_forall. intros dir Hdir.
  destruct (JS.inherited dir) eqn:Hinh; [|done]. exfalso.
  unfold makeFileHierarchy in Hmake.
  apply bind_Ok in Hmake as (allFileNodes & Hget & Hwalk).
  pose proof (inherited_no_separator dir Hinh) as Hcount.
  destruct (foldersByLength_elem _ _ Hdir) as (dirs & Hdirs & Hin).
  rewrite Hcount in Hdirs. rewrite Hdirs in Hwalk.
  apply walk_Ok in Hwalk as (fuel & _ & Hwalk).
  destruct (Forall2_elem_l _ _ _ _ Hwalk Hin) as (node & _ & _ & _ & Hread & _).
  apply Hread. unfold JS.read.
  destruct (allFileNodes !! dir) as [l|] eqn:Hl; [|by rewrite Hinh].
  pose proof (getAllFileNodes_keys files allFileNodes Hget dir) as Hkey.
  rewrite Hl in Hkey. rewrite Hkey in Hinh; [done | by eexists].
Qed.

(** * Further properties of the code *)

(** ** [getAllFolders] and [charCount] *)

Lemma split_snoc_segment a x :
  charCount x "/" = 0 →
  JS.split "/" (a +:+ "/" +:+ x) = JS.split "/" a ++ [x].
Proof.
  intros Hx. induction a as [|c a IH].
  - change ("" +:+ "/" +:+ x) with (String "/" x). simpl.
    by rewrite split_no_sep.
  - change (String c a +:+ "/" +:+ x) with (String c (a +:+ "/" +:+ x)).
    simpl. rewrite IH. destruct (Ascii.eqb c "/"); [done|].
    pose proof (split_nonempty "/" a). by destruct (JS.split "/" a).
Qed.

(** A path has one parent and one last segment. *)
Lemma parent_and_name_unique a x b y :
  charCount x "/" = 0 → charCount y "/" = 0 →
  a +:+ "/" +:+ x = b +:+ "/" +:+ y → a = b ∧ x = y.
Proof.
  intros Hx Hy Heq. apply (f_equal (JS.split "/")) in Heq.
  rewrite !split_snoc_segment in Heq by done.
  apply app_inj_tail in Heq as [Hab ->]. split; [|done].
  by rewrite <- (join_split "/" a), <- (join_split "/" b), Hab.
Qed.

Lemma folder_segments_count file :
  Forall (fun seg => charCount seg "/" = 0) (folder_segments file).
Proof.
  unfold folder_segments. destruct (JS.includes "." (file_segment file)).
  - apply directory_segments_count.
  - apply split_segments.
Qed.

Lemma getAllFolders_elem_take files dir :
  dir ∈ getAllFolders files
  ↔ ∃ file i,
      file ∈ files
      ∧ i < length (folder_segments file)
      ∧ dir = JS.join "/" (take (i + 1) (folder_segments file)).
Proof.
  rewrite getAllFolders_elem. unfold prefixes, prefixes_from. split.
  - intros (file & Hfile & (i & -> & Hi)%list_elem_of_fmap).
    apply list_elem_of_In, in_seq in Hi. exists file, i.
    split; [done|]. split; [lia | done].
  - intros (file & i & Hfile & Hi & ->). exists file. split; [done|].
    by apply prefixes_elem.
Qed.

(** X1: a path is a discovered folder exactly when it joins a non-empty
    prefix of the segments [getAllFolders] keeps of some input path: all
    the segments of a path whose last segment has no dot, all but the last
    segment otherwise. *)
Theorem getAllFolders_discovers files dir :
  dir ∈ getAllFolders files
  ↔ ∃ file i,
      file ∈ files
      ∧ i < length (folder_segments file)
      ∧ dir = JS.join "/" (take (i + 1) (folder_segments file)).
Proof. apply getAllFolders_elem_take. Qed.

(** X2: [getAllFolders] returns no folder twice, however often the input
    leads to it. *)
Theorem getAllFolders_no_duplicates files : NoDup (getAllFolders files).
Proof. apply getAllFolders_NoDup. Qed.

(** X3: the discovered folders are closed under taking the parent: with a
    folder [parent/name] its parent is discovered too. *)
Theorem getAllFolders_parent files parent name :
  charCount name "/" = 0 →
  parent +:+ "/" +:+ name ∈ getAllFolders files →
  parent ∈ getAllFolders files.
Proof.
  intros Hname (file & i & Hfile & Hi & Hdir)%getAllFolders_elem_take.
  pose proof (folder_segments_count file) as Hsegs.
  destruct i as [|i].
  { apply (f_equal (fun s => charCount s "/")) in Hdir.
    rewrite (charCount_join "/") in Hdir by by apply Forall_take.
    rewrite !charCount_app, length_take in Hdir.
    cbn [charCount] in Hdir. rewrite Ascii.eqb_refl in Hdir. lia. }
  destruct (lookup_lt_is_Some_2 (folder_segments file) (S i)) as [seg Hseg];
    [done|].
  replace (S i + 1) with (S (S i)) in Hdir by lia.
  rewrite (take_S_r _ _ _ Hseg), join_snoc in Hdir.
  2: { destruct (folder_segments file); [simpl in Hi; lia | done]. }
  apply parent_and_name_unique in Hdir as [-> _]; [|done|].
  - apply getAllFolders_elem_take. exists file, i.
    split; [done|]. split; [lia|]. f_equal. f_equal. lia.
  - rewrite Forall_forall in Hsegs. by eapply Hsegs, list_elem_of_lookup_2.
Qed.

Lemma getAllFolders_parent_witness :
  charCount "y" "/" = 0
  ∧ "foo" +:+ "/" +:+ "y" ∈ getAllFolders scenario_files
  ∧ "foo" ∈ getAllFolders scenario_files.
Proof.
  assert ("foo" +:+ "/" +:+ "y" ∈ getAllFolders scenario_files) as Hin
    by apply list_elem_of_further, list_elem_of_here.
  split; [reflexivity|]. split; [exact Hin|].
  exact (getAllFolders_parent scenario_files "foo" "y" eq_refl Hin).
Defined.

(** X4: [charCount(path, '/')] is one less than the number of segments
    [path.split('/')] gives, so the level of a folder in [foldersByLength]
    is the number of its segments minus one. *)
Theorem charCount_counts_segments path :
  charCount path "/" + 1 = length (JS.split "/" path).
Proof. symmetry. apply split_length_count. Qed.

(** ** [getAllFileNodes] *)

#[local] Instance index_path_ok_dec file : Decision (index_path_ok file).
Proof. unfold index_path_ok. apply _. Defined.

(** One turn of the loop changes at most one list, by appending to it. *)
Lemma getAllFileNodes_step_inv allFileNodes file allFileNodes' :
  getAllFileNodes_step allFileNodes file = Ok allFileNodes' →
  allFileNodes' = allFileNodes
  ∨ ∃ dir l x,
      allFileNodes' = <[dir := l ++ [x]]> allFileNodes
      ∧ default [] (allFileNodes !! dir) = l.
Proof.
  unfold getAllFileNodes_step.
  destruct (Nat.ltb_spec 1 (length (JS.split "/" file))) as [Hlen|Hlen];
    cbn [andb].
  - replace (length (JS.split "/" file) =? 1) with false
      by (symmetry; apply Nat.eqb_neq; lia).
    rewrite andb_false_r.
    destruct (match last (JS.split "/" file) with
              | Some l => JS.includes "." l
              | None => false
              end); cbn [mbind result_bind].
    + destruct (rev (JS.split "/" file)) as [|x path];
        [intros [= <-]; by left|].
      unfold JS.read.
      destruct (allFileNodes !! JS.join "/" (rev path)) as [l|] eqn:Hdir.
      * intros [= <-]. right. exists (JS.join "/" (rev path)), l, x.
        by rewrite Hdir.
      * destruct (JS.inherited (JS.join "/" (rev path))); [done|].
        intros [= <-]. right. exists (JS.join "/" (rev path)), [], x.
        by rewrite Hdir.
    + intros [= <-]. by left.
  - cbn [mbind result_bind].
    destruct (_ && _); [|intros [= <-]; by left].
    unfold JS.read. destruct (allFileNodes !! "/") as [l|] eqn:Hroot.
    + intros [= <-]. right. exists "/", l, file. by rewrite Hroot.
    + by destruct (JS.inherited "/").
Qed.

Lemma getAllFileNodes_step_throws allFileNodes file :
  (∀ k, is_Some (allFileNodes !! k) → JS.inherited k = false) →
  ¬ index_path_ok file →
  getAllFileNodes_step allFileNodes file = TypeError.
Proof.
  intros Hkeys Hbad. unfold index_path_ok in Hbad.
  destruct (JS.includes "." (file_segment file)) eqn:Hdot.
  2: { destruct Hbad. by intros [=]. }
  destruct (decide (directory_segments file = [])) as [Hds|Hds].
  { destruct Hbad. by intros _ []. }
  destruct (JS.inherited (JS.join "/" (directory_segments file))) eqn:Hinh.
  2: { destruct Hbad. by intros _ _. }
  clear Hbad.
  unfold getAllFileNodes_step, file_segment, directory_segments in *.
  destruct (split_last_is_Some "/" file) as [x Hx].
  apply last_Some in Hx as [ds Hsplit]. rewrite Hsplit in *. clear Hsplit.
  rewrite removelast_last in *.
  rewrite last_snoc, length_app, rev_app_distr in *.
  cbn [default from_option id rev app length] in *. rewrite Hdot.
  replace (1 <? length ds + 1) with true.
  2: { symmetry. apply Nat.ltb_lt. destruct ds; [done | simpl; lia]. }
  cbn [andb]. rewrite rev_involutive. unfold JS.read. rewrite Hinh.
  destruct (allFileNodes !! JS.join "/" ds) as [l|] eqn:Hdir; [|done].
  rewrite Hkeys in Hinh; [done | by eexists].
Qed.

Lemma getAllFileNodes_step_returns allFileNodes file :
  is_Some (allFileNodes !! "/") → index_path_ok file →
  ∃ allFileNodes',
    getAllFileNodes_step allFileNodes file = Ok allFileNodes'
    ∧ ∀ dir,
        default [] (allFileNodes' !! dir)
        = default [] (allFileNodes !! dir) ++ registers file dir.
Proof.
  intros Hroot Hok.
  destruct (JS.inherited (JS.join "/" (directory_segments file))) eqn:Hinh.
  2: { destruct (getAllFileNodes_step_spec allFileNodes file Hroot Hinh)
         as (m & Hm & _ & Hlists). by exists m. }
  assert (JS.includes "." (file_segment file) = false) as Hdot.
  { destruct (JS.includes "." (file_segment file)) eqn:Hdot; [|done].
    destruct (decide (directory_segments file = [])) as [Hds|Hds].
    - by rewrite Hds in Hinh.
    - by rewrite Hok in Hinh. }
  exists allFileNodes. unfold registers. rewrite Hdot. split.
  - unfold getAllFileNodes_step. unfold file_segment in Hdot.
    destruct (last (JS.split "/" file)) as [x|]; cbn in Hdot;
      rewrite ?Hdot; by rewrite andb_false_r.
  - intros dir. by rewrite app_nil_r.
Qed.

Lemma getAllFileNodes_step_root allFileNodes file allFileNodes' k :
  getAllFileNodes_step allFileNodes file = Ok allFileNodes' →
  is_Some (allFileNodes !! k) → is_Some (allFileNodes' !! k).
Proof.
  intros [->|(dir & l & x & -> & _)]%getAllFileNodes_step_inv Hk; [done|].
  rewrite lookup_insert. by case_decide.
Qed.

Lemma getAllFileNodes_loop_outcome allFileNodes files :
  is_Some (allFileNodes !! "/") →
  (∀ k, is_Some (allFileNodes !! k) → JS.inherited k = false) →
  (Forall index_path_ok files
   ∧ ∃ allFileNodes',
       getAllFileNodes_loop allFileNodes files = Ok allFileNodes'
       ∧ ∀ dir,
           default [] (allFileNodes' !! dir)
           = default [] (allFileNodes !! dir) ++ registered files dir)
  ∨ (¬ Forall index_path_ok files
     ∧ getAllFileNodes_loop allFileNodes files = TypeError).
Proof.
  revert allFileNodes. induction files as [|file files IH];
    intros m Hroot Hkeys.
  { left. split; [constructor|]. exists m. split; [done|].
    intros dir. by rewrite app_nil_r. }
  destruct (decide (index_path_ok file)) as [Hfile|Hfile].
  - destruct (getAllFileNodes_step_returns m file Hroot Hfile)
      as (m1 & Hstep & Hm1).
    destruct (IH m1) as [(Hfiles & m2 & Hloop & Hm2)|(Hfiles & Hloop)].
    + by eapply getAllFileNodes_step_root.
    + by eapply getAllFileNodes_step_keys.
    + left. split; [by constructor|]. exists m2. simpl. rewrite Hstep.
      split; [done|]. intros dir. rewrite Hm2, Hm1. simpl.
      by rewrite app_assoc.
    + right. split; [by intros [??]%Forall_cons_1|]. simpl. by rewrite Hstep.
  - right. split; [by intros [??]%Forall_cons_1|]. simpl.
    by rewrite getAllFileNodes_step_throws.
Qed.

Lemma sentinel_keys k :
  is_Some (({["/" := []]} : gmap string (list string)) !! k) →
  JS.inherited k = false.
Proof. intros [l Hl]. by apply lookup_singleton_Some in Hl as [<- _]. Qed.

(** X5: [getAllFileNodes] returns unless an input path registers a file in
    a directory named like a property of [Object.prototype]
    (['constructor/a.js']); then it throws a [TypeError]. *)
Theorem getAllFileNodes_outcome files :
  (Forall index_path_ok files
   ∧ ∃ allFileNodes, getAllFileNodes files = Ok allFileNodes)
  ∨ (¬ Forall index_path_ok files ∧ getAllFileNodes files = TypeError).
Proof.
  unfold getAllFileNodes.
  destruct (getAllFileNodes_loop_outcome {["/" := []]} files)
    as [(Hok & m & Hm & _)|Hbad].
  - rewrite lookup_singleton_eq. by eexists.
  - apply sentinel_keys.
  - left. split; [done | by exists m].
  - by right.
Qed.

Lemma registers_by_key file dir :
  registers file dir
  = if decide (JS.includes "." (file_segment file) = true
               ∧ directory_key file = dir)
    then [file_segment file] else [].
Proof.
  unfold registers, directory_key.
  destruct (JS.includes "." (file_segment file)) eqn:Hdot.
  2: { rewrite decide_False; [done | by intros [[=] _]]. }
  rewrite split_directory_file, length_app.
  destruct (directory_segments file) as [|d ds] eqn:Hds.
  - rewrite file_segment_root by done. cbn [length Nat.add Nat.ltb Nat.leb].
    repeat case_decide; naive_solver.
  - replace (1 <? length (d :: ds) + length [file_segment file]) with true
      by (symmetry; apply Nat.ltb_lt; simpl; lia).
    repeat case_decide; naive_solver.
Qed.

Lemma registered_by_key files dir :
  registered files dir
  = map file_segment
      (filter (fun p => JS.includes "." (file_segment p) = true
                        ∧ directory_key p = dir) files).
Proof.
  induction files as [|file files IH]; [done|].
  unfold registered in *. cbn [flat_map].
  rewrite IH, registers_by_key, filter_cons. by case_decide.
Qed.

Lemma getAllFileNodes_registered files allFileNodes :
  getAllFileNodes files = Ok allFileNodes →
  ∀ dir, default [] (allFileNodes !! dir) = registered files dir.
Proof.
  unfold getAllFileNodes. intros Hget.
  destruct (getAllFileNodes_loop_outcome {["/" := []]} files)
    as [(_ & m & Hm & Hlists)|[_ Hbad]].
  - rewrite lookup_singleton_eq. by eexists.
  - apply sentinel_keys.
  - rewrite Hget in Hm. injection Hm as <-. intros dir. rewrite Hlists.
    destruct (decide (dir = "/")) as [->|Hne].
    + by rewrite lookup_singleton_eq.
    + by rewrite lookup_singleton_ne.
  - by rewrite Hget in Hbad.
Qed.

(** X6: the list [getAllFileNodes] keeps under a key holds, in input
    order and with repetitions, the last segments of the input paths that
    have a dot in the last segment and that key: the joined directory, or
    the sentinel for a path of one segment. *)
Theorem getAllFileNodes_lists files allFileNodes dir :
  getAllFileNodes files = Ok allFileNodes →
  default [] (allFileNodes !! dir)
  = map file_segment
      (filter (fun p => JS.includes "." (file_segment p) = true
                        ∧ directory_key p = dir) files).
Proof.
  intros Hget. rewrite (getAllFileNodes_registered files) by done.
  apply registered_by_key.
Qed.

Lemma getAllFileNodes_lists_witness :
  getAllFileNodes scenario_files
  = Ok (<["foo/y" := ["bar.js"]]> {["/" := ["foo.js"]]})
  ∧ default []
      ((<["foo/y" := ["bar.js"]]> {["/" := ["foo.js"]]}
        : gmap string (list string)) !! "foo/y")
    = map file_segment
        (filter (fun p => JS.includes "." (file_segment p) = true
                          ∧ directory_key p = "foo/y") scenario_files).
Proof.
  assert (getAllFileNodes scenario_files
          = Ok (<["foo/y" := ["bar.js"]]> {["/" := ["foo.js"]]})) as Hget
    by (vm_compute; reflexivity).
  split; [exact Hget|].
  exact (getAllFileNodes_lists scenario_files _ "foo/y" Hget).
Defined.

Lemma getAllFileNodes_loop_nonempty allFileNodes files allFileNodes' :
  getAllFileNodes_loop allFileNodes files = Ok allFileNodes' →
  (∀ dir l, allFileNodes !! dir = Some l → dir ≠ "/" → l ≠ []) →
  ∀ dir l, allFileNodes' !! dir = Some l → dir ≠ "/" → l ≠ [].
Proof.
  revert allFileNodes. induction files as [|file files IH]; intros m.
  { by intros [= <-]. }
  simpl. intros (m1 & Hstep & Hloop)%bind_Ok Hm. apply (IH m1 Hloop).
  apply getAllFileNodes_step_inv in Hstep
    as [->|(dir' & l' & x & -> & _)]; [done|].
  intros dir l. rewrite lookup_insert. case_decide.
  - intros [= <-] _. by destruct l'.
  - apply Hm.
Qed.

Lemma getAllFileNodes_loop_root allFileNodes files allFileNodes' k :
  getAllFileNodes_loop allFileNodes files = Ok allFileNodes' →
  is_Some (allFileNodes !! k) → is_Some (allFileNodes' !! k).
Proof.
  revert allFileNodes. induction files as [|file files IH]; intros m.
  { by intros [= <-]. }
  simpl. intros (m1 & Hstep & Hloop)%bind_Ok Hk. apply (IH m1 Hloop).
  by eapply getAllFileNodes_step_root.
Qed.

(** X7: the keys of the table [getAllFileNodes] returns are the sentinel
    ['/'] and the keys of the input paths with a dot in the last segment;
    only the sentinel can hold an empty list. *)
Theorem getAllFileNodes_table_keys files allFileNodes dir :
  getAllFileNodes files = Ok allFileNodes →
  (is_Some (allFileNodes !! dir)
   ↔ dir = "/"
     ∨ ∃ file, file ∈ files
               ∧ JS.includes "." (file_segment file) = true
               ∧ directory_key file = dir)
  ∧ (allFileNodes !! dir = Some [] → dir = "/").
Proof.
  intros Hget.
  assert (∀ dir l, allFileNodes !! dir = Some l → dir ≠ "/" → l ≠ [])
    as Hnonempty.
  { unfold getAllFileNodes in Hget.
    apply (getAllFileNodes_loop_nonempty _ _ _ Hget).
    by intros d l [<- _]%lookup_singleton_Some. }
  assert (is_Some (allFileNodes !! "/")) as Hroot.
  { unfold getAllFileNodes in Hget.
    apply (getAllFileNodes_loop_root _ _ _ _ Hget).
    rewrite lookup_singleton_eq. by eexists. }
  pose proof (getAllFileNodes_registered files allFileNodes Hget dir) as Hlist.
  rewrite registered_by_key in Hlist.
  split; [split|].
  - intros [l Hl]. destruct (decide (dir = "/")) as [->|Hne]; [by left|].
    right. rewrite Hl in Hlist. simpl in Hlist.
    destruct l as [|name l]; [by destruct (Hnonempty dir [] Hl Hne)|].
    assert (name ∈ map file_segment
              (filter (fun p => JS.includes "." (file_segment p) = true
                                ∧ directory_key p = dir) files)) as Hin
      by (rewrite <- Hlist; left).
    apply list_elem_of_In, in_map_iff in Hin as (file & _ & Hin).
    apply list_elem_of_In, list_elem_of_filter in Hin as [[Hdot Hkey] Hin].
    by exists file.
  - intros [->|(file & Hin & Hdot & Hkey)]; [done|].
    destruct (allFileNodes !! dir) as [l|]; [by eexists|]. simpl in Hlist.
    assert (file ∈ filter (fun p => JS.includes "." (file_segment p) = true
                                    ∧ directory_key p = dir) files) as Hf
      by by apply list_elem_of_filter.
    destruct Hf; by simpl in Hlist.
  - intros Hl. destruct (decide (dir = "/")) as [->|Hne]; [done|].
    by destruct (Hnonempty dir [] Hl Hne).
Qed.

Lemma getAllFileNodes_table_keys_witness :
  getAllFileNodes scenario_files
  = Ok (<["foo/y" := ["bar.js"]]> {["/" := ["foo.js"]]})
  ∧ (is_Some ((<["foo/y" := ["bar.js"]]> {["/" := ["foo.js"]]}
               : gmap string (list string)) !! "foo")
     ↔ "foo" = "/"
       ∨ ∃ file, file ∈ scenario_files
                 ∧ JS.includes "." (file_segment file) = true
                 ∧ directory_key file = "foo").
Proof.
  assert (getAllFileNodes scenario_files
          = Ok (<["foo/y" := ["bar.js"]]> {["/" := ["foo.js"]]})) as Hget
    by (vm_compute; reflexivity).
  split; [exact Hget|].
  exact (proj1 (getAllFileNodes_table_keys scenario_files _ "foo" Hget)).
Defined.

Lemma directory_key_path file :
  directory_key file ≠ "/" →
  directory_key file +:+ "/" +:+ file_segment file = file.
Proof.
  unfold directory_key. intros Hkey.
  destruct (directory_segments file) as [|d ds] eqn:Hds; [done|].
  rewrite <- Hds. apply join_directory_file. by rewrite Hds.
Qed.

Lemma directory_key_sentinel file :
  directory_key file = "/" →
  file_segment file = file ∨ "//" +:+ file_segment file = file.
Proof.
  unfold directory_key. intros Hkey.
  destruct (directory_segments file) as [|d ds] eqn:Hds.
  { left. by apply file_segment_root. }
  right. rewrite <- (join_directory_file file) at 2 by by rewrite Hds.
  rewrite Hds. by rewrite Hkey.
Qed.

(** X8: a name listed under a key other than the sentinel comes from the
    input path made of the key, a slash and the name; the name has a dot
    and no slash. *)
Theorem getAllFileNodes_round_trip files allFileNodes dir l name :
  getAllFileNodes files = Ok allFileNodes →
  allFileNodes !! dir = Some l → dir ≠ "/" → name ∈ l →
  dir +:+ "/" +:+ name ∈ files
  ∧ JS.includes "." name = true ∧ charCount name "/" = 0.
Proof.
  intros Hget Hl Hne Hin.
  pose proof (getAllFileNodes_registered files allFileNodes Hget dir) as Hlist.
  rewrite Hl, registered_by_key in Hlist. simpl in Hlist. subst l.
  apply list_elem_of_In, in_map_iff in Hin as (file & <- & Hin).
  apply list_elem_of_In, list_elem_of_filter in Hin as [[Hdot <-] Hin].
  rewrite directory_key_path by done.
  split; [done|]. split; [done | apply file_segment_count].
Qed.

Lemma getAllFileNodes_round_trip_witness :
  getAllFileNodes scenario_files
  = Ok (<["foo/y" := ["bar.js"]]> {["/" := ["foo.js"]]})
  ∧ "foo/y" +:+ "/" +:+ "bar.js" ∈ scenario_files.
Proof.
  assert (getAllFileNodes scenario_files
          = Ok (<["foo/y" := ["bar.js"]]> {["/" := ["foo.js"]]})) as Hget
    by (vm_compute; reflexivity).
  split; [exact Hget|].
  refine (proj1 (getAllFileNodes_round_trip scenario_files _ "foo/y"
                   ["bar.js"] "bar.js" Hget _ _ _)).
  - vm_compute; reflexivity.
  - discriminate.
  - left.
Defined.

(** X9: a name listed under the sentinel ['/'] is an input path of one
    segment, or the last segment of an input path under the directory
    ['/'], whose key is the sentinel's: ['//a.js'] is listed with the
    root files. *)
Theorem getAllFileNodes_sentinel files allFileNodes l name :
  getAllFileNodes files = Ok allFileNodes →
  allFileNodes !! "/" = Some l → name ∈ l →
  name ∈ files ∨ "//" +:+ name ∈ files.
Proof.
  intros Hget Hl Hin.
  pose proof (getAllFileNodes_registered files allFileNodes Hget "/") as Hlist.
  rewrite Hl, registered_by_key in Hlist. simpl in Hlist. subst l.
  apply list_elem_of_In, in_map_iff in Hin as (file & <- & Hin).
  apply list_elem_of_In, list_elem_of_filter in Hin as [[Hdot Hkey] Hin].
  destruct (directory_key_sentinel file Hkey) as [->| ->]; [by left | by right].
Qed.

Lemma getAllFileNodes_sentinel_witness :
  getAllFileNodes ["//a.js"] = Ok {["/" := ["a.js"]]}
  ∧ ("a.js" ∈ ["//a.js"] ∨ "//" +:+ "a.js" ∈ ["//a.js"]).
Proof.
  assert (getAllFileNodes ["//a.js"] = Ok {["/" := ["a.js"]]}) as Hget
    by (vm_compute; reflexivity).
  split; [exact Hget|].
  refine (getAllFileNodes_sentinel ["//a.js"] _ ["a.js"] "a.js" Hget _ _).
  - vm_compute; reflexivity.
  - left.
Defined.

(** ** [walk] and [makeFileHierarchy] *)

Section WalkShape.
Variable foldersByLength : gmap nat (list string).
Variable allFileNodes : gmap string (list string).

Lemma contained_no_folder dir chain name relative children :
  ¬ forest_at (contained allFileNodes dir) chain
      (FolderNode name relative children).
Proof.
  unfold contained. intros Hat.
  inversion Hat as [? ? Hin|? ? ? ? ? ? Hin _]; subst;
    by apply list_elem_of_In, in_map_iff in Hin as (? & [=] & _).
Qed.

Lemma no_node_in_empty_forest chain (node : TreeNode) :
  ¬ forest_at [] chain node.
Proof.
  intros Hat. inversion Hat as [? ? Hin|? ? ? ? ? ? Hin _]; subst;
    by apply elem_of_nil in Hin.
Qed.

(** A folder node of the forest is the node [walk] makes for its
    [relative], at the depth of its chain; below the top level it was
    selected by [startsWith] on the [relative] of its parent. *)
Lemma walk_folder_node fuel dirs depth forest chain name relative children :
  walk foldersByLength allFileNodes fuel (Some dirs) depth = Ok forest →
  forest_at forest chain (FolderNode name relative children) →
  ∃ fuel' nested,
    nested_call foldersByLength allFileNodes fuel' (depth + length chain)
      relative = Ok nested
    ∧ name = hd "" (rev (JS.split "/" relative))
    ∧ children = nested ++ contained allFileNodes relative
    ∧ (chain = [] ∧ relative ∈ dirs
       ∨ ∃ parent l,
           last chain = Some parent
           ∧ foldersByLength !! (depth + length chain) = Some l
           ∧ relative ∈ l
           ∧ JS.startsWith parent relative = true).
Proof.
  revert dirs depth forest chain.
  induction fuel as [|fuel IH]; intros dirs depth forest chain.
  { by intros (? & ? & _)%walk_Ok. }
  intros (? & [= <-] & Hwalk)%walk_Ok Hat.
  inversion Hat as [? ? Hin|? nm rel fs chain' ? Hin Hat']; subst.
  { destruct (Forall2_elem_r _ _ _ _ Hwalk Hin)
      as (dir & Hdir & nested & Hnested & _ & [= -> -> ->]).
    exists fuel, nested. simpl. rewrite Nat.add_0_r.
    split; [done|]. split; [done|]. split; [done|]. by left. }
  destruct (Forall2_elem_r _ _ _ _ Hwalk Hin)
    as (dir & Hdir & nested & Hnested & _ & [= -> -> ->]).
  apply forest_at_app in Hat' as [Hat'|Hat'].
  2: { by apply contained_no_folder in Hat'. }
  unfold nested_call in Hnested.
  destruct (foldersByLength !! (depth + 1)) as [next|] eqn:Hnext.
  2: { injection Hnested as <-. by apply no_node_in_empty_forest in Hat'. }
  destruct (IH _ _ _ _ Hnested Hat')
    as (fuel' & nested' & Hn & Hname & Hch & Hpos).
  exists fuel', nested'. cbn [length].
  replace (depth + S (length chain')) with (depth + 1 + length chain')
    by lia.
  split; [done|]. split; [done|]. split; [done|]. right.
  destruct Hpos as [[-> Hrel]|(parent & l & Hlast & Hl & Hrel & Hstarts)].
  - apply list_elem_of_In, filter_In in Hrel as [Hrel Hstarts].
    exists dir, next. simpl. rewrite Nat.add_0_r.
    split; [done|]. split; [done|]. split; [|done].
    by apply list_elem_of_In.
  - exists parent, l. split; [|done]. by rewrite last_cons, Hlast.
Qed.

Lemma filter_FolderNodes (forest : list TreeNode) :
  Forall (fun node => is_FolderNode node = true) forest →
  List.filter is_FolderNode forest = forest.
Proof.
  induction 1 as [|node forest Hnode _ IH]; [done|].
  simpl. rewrite Hnode. by f_equal.
Qed.

Lemma nested_call_relatives fuel depth dir nested :
  nested_call foldersByLength allFileNodes fuel depth dir = Ok nested →
  node_relative <$> nested
  = List.filter (JS.startsWith dir)
      (default [] (foldersByLength !! (depth + 1))).
Proof.
  unfold nested_call.
  destruct (foldersByLength !! (depth + 1)) as [next|] eqn:Hnext.
  - apply walk_relatives.
  - by intros [= <-].
Qed.
End WalkShape.

Lemma hd_rev_last (l : list string) : hd "" (rev l) = default "" (last l).
Proof.
  destruct l as [|x l _] using rev_ind; [done|].
  by rewrite rev_app_distr, last_snoc.
Qed.

Lemma foldersByLength_default folders d :
  default [] (foldersByLength_of folders !! d)
  = filter (fun x => charCount x "/" = d) folders.
Proof.
  rewrite foldersByLength_lookup. by destruct (filter _ folders).
Qed.

(** What a returned forest was made from. *)
Lemma makeFileHierarchy_Ok files forest :
  makeFileHierarchy files = Ok forest →
  ∃ allFileNodes,
    (∀ dir, default [] (allFileNodes !! dir) = registered files dir)
    ∧ walk (foldersByLength_of (getAllFolders files)) allFileNodes
        (walk_fuel (getAllFolders files))
        (Some (filter (fun x => charCount x "/" = 0) (getAllFolders files)))
        0
      = Ok forest.
Proof.
  unfold makeFileHierarchy. intros (m & Hget & Hwalk)%bind_Ok.
  exists m. split; [by apply getAllFileNodes_registered|].
  rewrite <- Hwalk. rewrite foldersByLength_lookup. unfold walk_fuel.
  by destruct (filter _ (getAllFolders files)).
Qed.

(** X10: the top level of the forest is made of the discovered folders of
    one segment, in the order of their discovery; each is named by its
    path. *)
Theorem forest_top_level files forest :
  makeFileHierarchy files = Ok forest →
  node_relative <$> forest
  = filter (fun dir => charCount dir "/" = 0) (getAllFolders files)
  ∧ node_name <$> forest = node_relative <$> forest
  ∧ Forall (fun node => is_FolderNode node = true) forest.
Proof.
  intros (m & _ & Hwalk)%makeFileHierarchy_Ok.
  pose proof (walk_relatives _ _ _ _ _ _ Hwalk) as Hrel.
  split; [done|]. split.
  - rewrite Hrel. eapply walk_names; [done|].
    by intros dir [? _]%list_elem_of_filter.
  - by eapply walk_FolderNodes.
Qed.

Lemma forest_top_level_witness :
  makeFileHierarchy ["a/b.js"; "c/d"] = Ok
    [FolderNode "a" "a" [FileNode "b.js" "a/b.js"];
     FolderNode "c" "c" [FolderNode "d" "c/d" []]]
  ∧ node_relative
      <$> [FolderNode "a" "a" [FileNode "b.js" "a/b.js"];
           FolderNode "c" "c" [FolderNode "d" "c/d" []]]
    = filter (fun dir => charCount dir "/" = 0)
        (getAllFolders ["a/b.js"; "c/d"]).
Proof.
  assert (makeFileHierarchy ["a/b.js"; "c/d"] = Ok
            [FolderNode "a" "a" [FileNode "b.js" "a/b.js"];
             FolderNode "c" "c" [FolderNode "d" "c/d" []]]) as Hmake
    by (vm_compute; reflexivity).
  split; [exact Hmake|].
  exact (proj1 (forest_top_level ["a/b.js"; "c/d"] _ Hmake)).
Defined.

Lemma forest_folder_node files forest chain name relative children :
  makeFileHierarchy files = Ok forest →
  forest_at forest chain (FolderNode name relative children) →
  relative ∈ getAllFolders files
  ∧ charCount relative "/" = length chain
  ∧ name = file_segment relative
  ∧ (∀ parent, last chain = Some parent →
               JS.startsWith parent relative = true)
  ∧ ∃ nested,
      children
      = nested
        ++ map (fun file => FileNode file (relative +:+ "/" +:+ file))
             (registered files relative)
      ∧ Forall (fun node => is_FolderNode node = true) nested
      ∧ node_relative <$> nested
        = List.filter (JS.startsWith relative)
            (filter (fun dir => charCount dir "/" = length chain + 1)
               (getAllFolders files)).
Proof.
  intros (m & Hreg & Hwalk)%makeFileHierarchy_Ok Hat.
  destruct (walk_folder_node _ _ _ _ _ _ _ _ _ _ Hwalk Hat)
    as (fuel' & nested & Hnested & -> & -> & Hpos).
  simpl in Hnested, Hpos.
  assert (relative ∈ getAllFolders files
          ∧ charCount relative "/" = length chain
          ∧ ∀ parent, last chain = Some parent →
                      JS.startsWith parent relative = true)
    as (Hin & Hcount & Hparent).
  { destruct Hpos as [[-> Hrel]|(parent & l & Hlast & Hl & Hrel & Hstarts)].
    - apply list_elem_of_filter in Hrel as [Hcount Hrel]. done.
    - destruct (level_elem _ _ _ _ Hl Hrel) as [Hin Hcount].
      split; [done|]. split; [done|]. intros ? Hlast'.
      rewrite Hlast in Hlast'. by injection Hlast' as <-. }
  split; [done|]. split; [done|].
  split; [apply hd_rev_last|]. split; [done|].
  exists nested. unfold contained. rewrite Hreg. split; [done|].
  split; [by eapply nested_FolderNodes|].
  rewrite (nested_call_relatives _ _ _ _ _ _ Hnested).
  by rewrite foldersByLength_default.
Qed.

(** X11: a folder node of the forest stands for a discovered folder: its
    [relative] is a discovered path, it lies under as many folders as the
    path has separators, it is named by the last segment of the path, and
    the [relative] of the folder that holds it is a prefix of the path as
    a string. *)
Theorem forest_folder_identity files forest chain name relative children :
  makeFileHierarchy files = Ok forest →
  forest_at forest chain (FolderNode name relative children) →
  relative ∈ getAllFolders files
  ∧ charCount relative "/" = length chain
  ∧ name = file_segment relative
  ∧ (∀ parent, last chain = Some parent →
               JS.startsWith parent relative = true).
Proof.
  intros Hmake Hat.
  destruct (forest_folder_node _ _ _ _ _ _ Hmake Hat)
    as (? & ? & ? & ? & _). done.
Qed.

Lemma forest_folder_identity_witness :
  makeFileHierarchy ["a/b.js"; "c/d"] = Ok
    [FolderNode "a" "a" [FileNode "b.js" "a/b.js"];
     FolderNode "c" "c" [FolderNode "d" "c/d" []]]
  ∧ "c/d" ∈ getAllFolders ["a/b.js"; "c/d"]
  ∧ charCount "c/d" "/" = length ["c"]
  ∧ "d" = file_segment "c/d".
Proof.
  assert (makeFileHierarchy ["a/b.js"; "c/d"] = Ok
            [FolderNode "a" "a" [FileNode "b.js" "a/b.js"];
             FolderNode "c" "c" [FolderNode "d" "c/d" []]]) as Hmake
    by (vm_compute; reflexivity).
  split; [exact Hmake|].
  destruct (forest_folder_identity ["a/b.js"; "c/d"] _ ["c"] "d" "c/d" []
              Hmake) as (H1 & H2 & H3 & _).
  - eapply forest_at_down.
    + apply list_elem_of_further, list_elem_of_here.
    + apply forest_at_here, list_elem_of_here.
  - exact (conj H1 (conj H2 H3)).
Defined.

(** X12: the children of a folder node are folder nodes followed by file
    nodes.  The folder nodes stand, in the order of discovery, for the
    discovered folders one level deeper whose path starts with the
    [relative] of the folder as a string; the file nodes stand, in input
    order and with repetitions, for the input files registered under
    [relative]. *)
Theorem forest_folder_children files forest chain name relative children :
  makeFileHierarchy files = Ok forest →
  forest_at forest chain (FolderNode name relative children) →
  ∃ nested,
    children
    = nested
      ++ map (fun file => FileNode file (relative +:+ "/" +:+ file))
           (map file_segment
              (filter (fun p => JS.includes "." (file_segment p) = true
                                ∧ directory_key p = relative) files))
    ∧ Forall (fun node => is_FolderNode node = true) nested
    ∧ node_relative <$> nested
      = List.filter (JS.startsWith relative)
          (filter (fun dir => charCount dir "/" = length chain + 1)
             (getAllFolders files)).
Proof.
  intros Hmake Hat.
  destruct (forest_folder_node _ _ _ _ _ _ Hmake Hat)
    as (_ & _ & _ & _ & nested & Hchildren & Hnested).
  exists nested. by rewrite <- registered_by_key.
Qed.

Lemma forest_folder_children_witness :
  makeFileHierarchy ["a/b.js"; "c/d"] = Ok
    [FolderNode "a" "a" [FileNode "b.js" "a/b.js"];
     FolderNode "c" "c" [FolderNode "d" "c/d" []]]
  ∧ ∃ nested,
      [FileNode "b.js" "a/b.js"]
      = nested
        ++ map (fun file => FileNode file ("a" +:+ "/" +:+ file))
             (map file_segment
                (filter (fun p => JS.includes "." (file_segment p) = true
                                  ∧ directory_key p = "a")
                   ["a/b.js"; "c/d"])).
Proof.
  assert (makeFileHierarchy ["a/b.js"; "c/d"] = Ok
            [FolderNode "a" "a" [FileNode "b.js" "a/b.js"];
             FolderNode "c" "c" [FolderNode "d" "c/d" []]]) as Hmake
    by (vm_compute; reflexivity).
  split; [exact Hmake|].
  destruct (forest_folder_children ["a/b.js"; "c/d"] _ [] "a" "a"
              [FileNode "b.js" "a/b.js"] Hmake) as (nested & Hch & _).
  - apply forest_at_here, list_elem_of_here.
  - exists nested. exact Hch.
Defined.

(** The prefixes of a discovered folder are discovered, each at the level
    of its length. *)
Lemma getAllFolders_prefixes files dir i :
  dir ∈ getAllFolders files → i < length (JS.split "/" dir) →
  JS.join "/" (take (i + 1) (JS.split "/" dir)) ∈ getAllFolders files
  ∧ charCount (JS.join "/" (take (i + 1) (JS.split "/" dir))) "/" = i.
Proof.
  intros (file & k & Hfile & Hk & ->)%getAllFolders_elem_take.
  pose proof (folder_segments_count file) as Hsegs.
  rewrite (split_join "/").
  2: { destruct (folder_segments file);
         [simpl in Hk; lia | by rewrite Nat.add_1_r]. }
  2: { by apply Forall_take. }
  rewrite length_take. intros Hi. rewrite take_take.
  replace ((i + 1) `min` (k + 1)) with (i + 1) by lia. split.
  - apply getAllFolders_elem_take. exists file, i.
    split; [done|]. split; [lia | done].
  - rewrite (charCount_join "/") by by apply Forall_take.
    rewrite length_take. lia.
Qed.

(** X13: every discovered folder has a folder node in the forest, under
    the folders of its proper prefixes. *)
Theorem forest_has_every_folder files forest dir :
  makeFileHierarchy files = Ok forest →
  dir ∈ getAllFolders files →
  ∃ name children,
    forest_at forest
      (prefixes_from 0 (charCount dir "/") (JS.split "/" dir))
      (FolderNode name dir children).
Proof.
  intros (m & _ & Hwalk)%makeFileHierarchy_Ok Hdir.
  destruct (walk_folder_at (foldersByLength_of (getAllFolders files)) m
              (JS.split "/" dir) (charCount dir "/")
              (walk_fuel (getAllFolders files))
              (filter (fun x => charCount x "/" = 0) (getAllFolders files))
              0 forest)
    as (name & nested & Hat & _).
  - intros i Hi.
    destruct (getAllFolders_prefixes files dir i Hdir Hi) as [Hin Hcount].
    destruct (foldersByLength_elem _ _ Hin) as (l & Hl & Hinl).
    rewrite Hcount in Hl. by exists l.
  - exact Hwalk.
  - rewrite split_length_count. lia.
  - pose proof (split_length_count "/" dir) as Hlen.
    destruct (getAllFolders_prefixes files dir 0 Hdir) as [Hin Hcount];
      [lia|].
    by apply list_elem_of_filter.
  - rewrite join_split in Hat. by eexists _, _.
Qed.

Lemma forest_has_every_folder_witness :
  makeFileHierarchy ["a/b.js"; "c/d"] = Ok
    [FolderNode "a" "a" [FileNode "b.js" "a/b.js"];
     FolderNode "c" "c" [FolderNode "d" "c/d" []]]
  ∧ "c/d" ∈ getAllFolders ["a/b.js"; "c/d"]
  ∧ ∃ name children,
      forest_at
        [FolderNode "a" "a" [FileNode "b.js" "a/b.js"];
         FolderNode "c" "c" [FolderNode "d" "c/d" []]]
        ["c"] (FolderNode name "c/d" children).
Proof.
  assert (makeFileHierarchy ["a/b.js"; "c/d"] = Ok
            [FolderNode "a" "a" [FileNode "b.js" "a/b.js"];
             FolderNode "c" "c" [FolderNode "d" "c/d" []]]) as Hmake
    by (vm_compute; reflexivity).
  assert ("c/d" ∈ getAllFolders ["a/b.js"; "c/d"]) as Hin
    by (vm_compute; apply list_elem_of_further, list_elem_of_further,
          list_elem_of_here).
  split; [exact Hmake|]. split; [exact Hin|].
  exact (forest_has_every_folder ["a/b.js"; "c/d"] _ "c/d" Hmake Hin).
Defined.

(** X14: nesting goes by [startsWith] on whole paths, not by segments: a
    discovered folder one level below a folder node, whose path starts
    with the [relative] of that node as a string, is a child of the node,
    also when it belongs to another directory (['ab/c'] under ['a']). *)
Theorem forest_string_prefix_child files forest chain name relative children
    dir :
  makeFileHierarchy files = Ok forest →
  forest_at forest chain (FolderNode name relative children) →
  dir ∈ getAllFolders files →
  charCount dir "/" = length chain + 1 →
  JS.startsWith relative dir = true →
  ∃ name' children', FolderNode name' dir children' ∈ children.
Proof.
  intros Hmake Hat Hdir Hcount Hstarts.
  destruct (forest_folder_node _ _ _ _ _ _ Hmake Hat)
    as (_ & _ & _ & _ & nested & -> & Hfolders & Hrel).
  assert (dir ∈ node_relative <$> nested) as Hin.
  { rewrite Hrel. apply list_elem_of_In, filter_In. split; [|done].
    apply list_elem_of_In. by apply list_elem_of_filter. }
  apply list_elem_of_fmap in Hin as (node & -> & Hnode).
  rewrite Forall_forall in Hfolders. specialize (Hfolders node Hnode).
  destruct node as [|name' relative' children']; [done|].
  exists name', children'. apply elem_of_app. by left.
Qed.

Lemma forest_string_prefix_child_witness :
  makeFileHierarchy ["a/x"; "ab/c"] = Ok
    [FolderNode "a" "a"
       [FolderNode "x" "a/x" []; FolderNode "c" "ab/c" []];
     FolderNode "ab" "ab" [FolderNode "c" "ab/c" []]]
  ∧ ∃ name' children',
      FolderNode name' "ab/c" children'
      ∈ [FolderNode "x" "a/x" []; FolderNode "c" "ab/c" []].
Proof.
  assert (makeFileHierarchy ["a/x"; "ab/c"] = Ok
            [FolderNode "a" "a"
               [FolderNode "x" "a/x" []; FolderNode "c" "ab/c" []];
             FolderNode "ab" "ab" [FolderNode "c" "ab/c" []]]) as Hmake
    by (vm_compute; reflexivity).
  split; [exact Hmake|].
  refine (forest_string_prefix_child ["a/x"; "ab/c"] _ [] "a" "a" _ "ab/c"
            Hmake _ _ _ _).
  - apply forest_at_here, list_elem_of_here.
  - vm_compute. do 3 apply list_elem_of_further. apply list_elem_of_here.
  - reflexivity.
  - reflexivity.
Defined.

(** X15: on the input itself, [makeFileHierarchy] returns a forest unless
    the first of the folder segments of some path is a property name of
    [Object.prototype] (['constructor/a.js'], or ['toString'] alone);
    then it throws a [TypeError]. *)
Theorem makeFileHierarchy_throws_exactly files :
  let admissible :=
    Forall (fun file =>
              ∀ first, head (folder_segments file) = Some first →
                       JS.inherited first = false) files in
  (admissible ∧ ∃ forest, makeFileHierarchy files = Ok forest)
  ∨ (¬ admissible ∧ makeFileHierarchy files = TypeError).
Proof.
  cbv zeta. rewrite <- forest_ok_first_segment.
  apply makeFileHierarchy_outcome.
Qed.

Lemma folder_segments_nil file :
  folder_segments file = []
  ↔ charCount file "/" = 0 ∧ JS.includes "." file = true.
Proof.
  unfold folder_segments. split.
  - destruct (JS.includes "." (file_segment file)) eqn:Hdot.
    + intros Hds. rewrite file_segment_root in Hdot by done.
      by rewrite <- directory_segments_length, Hds.
    + intros Hsplit. pose proof (split_nonempty "/" file). done.
  - intros [Hcount Hdot].
    assert (directory_segments file = []) as Hds.
    { apply length_zero_iff_nil. by rewrite directory_segments_length. }
    by rewrite file_segment_root, Hdot.
Qed.

Lemma getAllFolders_nil files :
  getAllFolders files = []
  ↔ Forall (fun file => charCount file "/" = 0
                        ∧ JS.includes "." file = true) files.
Proof.
  rewrite Forall_forall. split.
  - intros Hnil file Hfile. apply folder_segments_nil.
    destruct (folder_segments file) as [|seg segs] eqn:Hsegs; [done|].
    assert (JS.join "/" (take (0 + 1) (folder_segments file))
            ∈ getAllFolders files) as Hin.
    { apply getAllFolders_elem_take. exists file, 0.
      split; [done|]. split; [|done]. rewrite Hsegs. simpl. lia. }
    rewrite Hnil in Hin. by apply elem_of_nil in Hin.
  - intros Hfiles.
    destruct (getAllFolders files) as [|dir dirs] eqn:Hdirs; [done|].
    assert (dir ∈ getAllFolders files) as Hin
      by (rewrite Hdirs; apply list_elem_of_here).
    apply getAllFolders_elem_take in Hin as (file & i & Hfile & Hi & _).
    apply Hfiles, folder_segments_nil in Hfile. rewrite Hfile in Hi.
    simpl in Hi. lia.
Qed.

(** X16: the forest is empty exactly when every input path is a single
    segment with a dot. *)
Theorem forest_empty_iff files :
  makeFileHierarchy files = Ok []
  ↔ Forall (fun file => charCount file "/" = 0
                        ∧ JS.includes "." file = true) files.
Proof.
  rewrite <- getAllFolders_nil. split.
  - intros Hmake.
    destruct (getAllFolders files) as [|dir dirs] eqn:Hdirs; [done|].
    assert (dir ∈ getAllFolders files) as Hin
      by (rewrite Hdirs; apply list_elem_of_here).
    pose proof (split_length_count "/" dir) as Hlen.
    destruct (getAllFolders_prefixes files dir 0 Hin) as [Hin0 Hcount];
      [lia|].
    apply makeFileHierarchy_Ok in Hmake as (m & _ & Hwalk).
    apply walk_relatives in Hwalk.
    assert (JS.join "/" (take (0 + 1) (JS.split "/" dir))
            ∈ filter (fun x => charCount x "/" = 0) (getAllFolders files))
      as Hfilter by by apply list_elem_of_filter.
    rewrite <- Hwalk in Hfilter. by apply elem_of_nil in Hfilter.
  - intros Hnil.
    destruct (makeFileHierarchy_outcome files)
      as [(_ & forest & Hmake)|[Hbad _]].
    + rewrite Hmake. f_equal.
      apply makeFileHierarchy_Ok in Hmake as (m & _ & Hwalk).
      apply walk_relatives in Hwalk. rewrite Hnil in Hwalk.
      by destruct forest.
    + destruct Hbad. unfold forest_ok. rewrite Hnil. constructor.
Qed.

(** ** [buildTree] and [convertTree] *)

Lemma elem_own {V} (o : JS.object V) k v :
  NoDup o.*1 → (k, v) ∈ o → JS.own o k = Some v.
Proof.
  induction o as [|[k' v'] o IH]; intros Hkeys Hin.
  { by apply elem_of_nil in Hin. }
  apply NoDup_cons in Hkeys as [Hk' Hkeys]. simpl.
  apply elem_of_cons in Hin as [[= -> ->]|Hin].
  - by rewrite String.eqb_refl.
  - destruct (String.eqb_spec k' k) as [->|Hne]; [|by apply IH].
    destruct Hk'. by apply (list_elem_of_fmap_2 fst _ (k, v)).
Qed.

(** A folder reached in the converted tree is the conversion of the folder
    reached in the trie. *)
Lemma convertTree_at_inv b names s :
  folder_wf b → tree_at (convertTree b) names s →
  ∃ c, folder_at b names = Some c ∧ s = convertTree c ∧ folder_wf c.
Proof.
  revert b. induction names as [|n names IH]; intros b Hwf Hat.
  { inversion Hat; subst. by exists b. }
  destruct Hwf as [path name files folders Hkeys Hall].
  rewrite convertTree_unfold in Hat.
  inversion Hat as [|? ? ? child ? ? Hin Hfolder Hat']; subst.
  apply elem_of_app in Hin as [Hin|Hin].
  2: { apply list_elem_of_fmap in Hin as ([??] & -> & _). done. }
  apply list_elem_of_fmap in Hin as (c & -> & Hc).
  rewrite (Object_values_perm folders) in Hc.
  apply list_elem_of_fmap in Hc as ([k c'] & -> & Hkc).
  rewrite Forall_forall in Hall.
  destruct (Hall _ Hkc) as (Hname & _ & Hwf). simpl in *.
  rewrite convertTree_name, Hname, (elem_own _ _ _ Hkeys Hkc).
  by apply IH.
Qed.

Lemma folder_paths_empty prefix path name files :
  folder_paths prefix (mkBuildingFolder path name files []).
Proof. by constructor. Qed.

Lemma insertFrom_paths filePath pathParts i rest b b' prefix :
  pathParts = prefix ++ rest → i = length prefix →
  insertFrom filePath pathParts i rest b = Ok b' →
  folder_paths prefix b → folder_paths prefix b'.
Proof.
  revert i b b' prefix.
  induction rest as [|part rest IH]; intros i b b' prefix Hparts Hi.
  { by intros [= <-]. }
  destruct b as [path name files folders].
  destruct (decide (rest = [])) as [->|Hrest].
  { intros [= <-]. inversion 1; subst. by constructor. }
  rewrite insertFrom_step by done.
  intros (child' & Hchild & [= <-])%bind_Ok.
  inversion 1 as [? ? ? ? ? Hall]; subst.
  assert (∀ child,
    insertFrom filePath (prefix ++ part :: rest) (S (length prefix)) rest
      child = Ok child' →
    folder_path child = JS.join "/" (prefix ++ [part]) →
    folder_paths (prefix ++ [part]) child →
    folder_path child' = JS.join "/" (prefix ++ [part])
    ∧ folder_paths (prefix ++ [part]) child') as Hstep.
  { intros child Hins Hpath Hpaths.
    pose proof (insertFrom_labels _ _ _ _ _ _ Hins) as [Hpath' _].
    split; [congruence|].
    eapply (IH _ _ _ (prefix ++ [part])); [| |done|done].
    - by rewrite <- app_assoc.
    - rewrite length_app. simpl. lia. }
  unfold JS.read in Hchild.
  destruct (JS.own folders part) as [child|] eqn:Hown.
  - destruct (set_present folders part child child' Hown)
      as (o1 & o2 & -> & Hset).
    constructor. rewrite Hset.
    rewrite Forall_app, Forall_cons in Hall |- *.
    destruct Hall as (H1 & [Hpath Hpaths] & H2). simpl in *.
    split; [done|]. split; [|done]. by eapply Hstep.
  - destruct (JS.inherited part); [done|].
    constructor. rewrite set_fresh by done. apply Forall_app.
    split; [done|]. apply Forall_singleton. simpl.
    eapply Hstep; [done| |apply folder_paths_empty].
    cbn [folder_path]. by rewrite take_app_add.
Qed.

Lemma insertPaths_paths filePaths b b' :
  insertPaths b filePaths = Ok b' → folder_paths [] b → folder_paths [] b'.
Proof.
  revert b. induction filePaths as [|p ps IH]; intros b; simpl.
  { by intros [= <-]. }
  intros (b1 & H1 & H2)%bind_Ok Hpaths. eapply IH; [done|].
  by eapply (insertFrom_paths _ _ _ _ _ _ []).
Qed.

Lemma folder_at_paths prefix b names c :
  folder_paths prefix b → folder_at b names = Some c → names ≠ [] →
  folder_path c = JS.join "/" (prefix ++ names).
Proof.
  revert prefix b. induction names as [|n names IH]; [done|].
  intros prefix b Hpaths Hat _. simpl in Hat.
  destruct (JS.own (folder_folders b) n) as [child|] eqn:Hown; [|done].
  destruct Hpaths as [prefix path name files folders Hall].
  simpl in Hown. apply own_Some_elem in Hown.
  rewrite Forall_forall in Hall. destruct (Hall _ Hown) as [Hpath Hpaths].
  simpl in *. destruct names as [|n' names].
  - by injection Hat as <-.
  - rewrite (IH (prefix ++ [n]) child) by done. by rewrite <- app_assoc.
Qed.

Lemma folder_at_name b names c :
  folder_wf b → folder_at b names = Some c → names ≠ [] →
  last names = Some (folder_name c).
Proof.
  revert b. induction names as [|n names IH]; [done|].
  intros b Hwf Hat _. simpl in Hat.
  destruct (JS.own (folder_folders b) n) as [child|] eqn:Hown; [|done].
  destruct Hwf as [path name files folders Hkeys Hall].
  simpl in Hown. apply own_Some_elem in Hown.
  rewrite Forall_forall in Hall.
  destruct (Hall _ Hown) as (Hname & _ & Hwf).
  simpl in *. destruct names as [|n' names].
  - injection Hat as <-. by rewrite Hname.
  - rewrite last_cons_cons. by apply (IH child).
Qed.

(** What a returned tree was made from. *)
Lemma buildTree_Ok filePaths rootDirectory t :
  buildTree filePaths rootDirectory = Ok t →
  ∃ b,
    insertPaths
      (mkBuildingFolder rootDirectory
         (default "/" (rootName rootDirectory)) [] [])
      filePaths
    = Ok b
    ∧ t = convertTree b ∧ folder_wf b ∧ folder_paths [] b.
Proof.
  unfold buildTree. intros (b & Hb & ->)%fmap_Ok. exists b.
  split; [done|]. split; [done|]. split.
  - eapply insertPaths_wf; [done | apply folder_wf_empty].
  - eapply insertPaths_paths; [done | apply folder_paths_empty].
Qed.

(** X17: [buildTree] returns a tree unless some directory segment of some
    input path is a property name of [Object.prototype]
    (['a/constructor/b.js']); then it throws a [TypeError]. *)
Theorem buildTree_throws_exactly filePaths rootDirectory :
  let admissible :=
    Forall (fun filePath =>
              Forall (fun part => JS.inherited part = false)
                (directory_segments filePath)) filePaths in
  (admissible ∧ ∃ t, buildTree filePaths rootDirectory = Ok t)
  ∨ (¬ admissible ∧ buildTree filePaths rootDirectory = TypeError).
Proof. apply buildTree_outcome. Qed.

(** X18: below the root, the [id] of a folder of the tree joins the names
    of the folders that lead to it, its own last, and its [name] is the
    last of them. *)
Theorem tree_folder_ids filePaths rootDirectory t names id name children :
  buildTree filePaths rootDirectory = Ok t →
  tree_at t names (TreeFolder id name children) →
  names ≠ [] →
  id = JS.join "/" names ∧ last names = Some name.
Proof.
  intros (b & _ & -> & Hwf & Hpaths)%buildTree_Ok Hat Hnames.
  apply convertTree_at_inv in Hat as (c & Hc & Hconv & _); [|done].
  pose proof (folder_at_paths [] _ _ _ Hpaths Hc Hnames) as Hpath.
  pose proof (folder_at_name _ _ _ Hwf Hc Hnames) as Hname.
  destruct c as [path' name' files' folders'].
  rewrite convertTree_unfold in Hconv. injection Hconv as -> -> _.
  done.
Qed.

Lemma tree_folder_ids_witness :
  buildTree ["x/y/z.js"] "root"
  = Ok (TreeFolder "root" "root"
          [TreeFolder "x" "x"
             [TreeFolder "x/y" "y" [TreeFile "x/y/z.js" "z.js"]]])
  ∧ "x/y" = JS.join "/" ["x"; "y"] ∧ last ["x"; "y"] = Some "y".
Proof.
  assert (buildTree ["x/y/z.js"] "root"
          = Ok (TreeFolder "root" "root"
                  [TreeFolder "x" "x"
                     [TreeFolder "x/y" "y" [TreeFile "x/y/z.js" "z.js"]]]))
    as Hbuild by (vm_compute; reflexivity).
  split; [exact Hbuild|].
  refine (tree_folder_ids ["x/y/z.js"] "root" _ ["x"; "y"] "x/y" "y"
            [TreeFile "x/y/z.js" "z.js"] Hbuild _ _); [|discriminate].
  apply (tree_at_down "root" "root" _
           (TreeFolder "x" "x"
              [TreeFolder "x/y" "y" [TreeFile "x/y/z.js" "z.js"]])
           ["y"]);
    [apply list_elem_of_here | reflexivity |].
  apply (tree_at_down "x" "x" _
           (TreeFolder "x/y" "y" [TreeFile "x/y/z.js" "z.js"]) []);
    [apply list_elem_of_here | reflexivity |].
  apply tree_at_here.
Defined.

(** X19: the children of a folder of the tree are its sub-folders followed
    by its files; the files are the input paths whose directory segments
    are the names that lead to the folder, in input order and as often as
    they were given, each with the path as [id] and its last segment as
    [name]. *)
Theorem tree_folder_files filePaths rootDirectory t names id name children :
  buildTree filePaths rootDirectory = Ok t →
  tree_at t names (TreeFolder id name children) →
  ∃ folders,
    children
    = folders
      ++ map (fun p => TreeFile p (file_segment p))
           (filter (fun p => directory_segments p = names) filePaths)
    ∧ Forall (fun child => is_folder child = true) folders.
Proof.
  intros (b & Hb & -> & Hwf & _)%buildTree_Ok Hat.
  apply convertTree_at_inv in Hat as (c & Hc & Hconv & _); [|done].
  pose proof (insertPaths_files_at _ _ _ names Hb) as Hfiles.
  unfold files_at in Hfiles at 1. rewrite Hc, files_at_new in Hfiles.
  destruct c as [path' name' files' folders'].
  rewrite convertTree_unfold in Hconv. injection Hconv as _ _ ->.
  simpl in Hfiles. subst files'.
  exists (map convertTree (JS.Object_values folders')).
  rewrite map_map. split; [done|].
  apply Forall_forall. intros child (c & -> & _)%list_elem_of_fmap.
  apply convertTree_is_folder.
Qed.

Lemma tree_folder_files_witness :
  buildTree ["a/b.js"; "c.js"; "a/d.js"] "root"
  = Ok (TreeFolder "root" "root"
          [TreeFolder "a" "a" [TreeFile "a/b.js" "b.js";
                               TreeFile "a/d.js" "d.js"];
           TreeFile "c.js" "c.js"])
  ∧ ∃ folders,
      [TreeFile "a/b.js" "b.js"; TreeFile "a/d.js" "d.js"]
      = folders
        ++ map (fun p => TreeFile p (file_segment p))
             (filter (fun p => directory_segments p = ["a"])
                ["a/b.js"; "c.js"; "a/d.js"]).
Proof.
  assert (buildTree ["a/b.js"; "c.js"; "a/d.js"] "root"
          = Ok (TreeFolder "root" "root"
                  [TreeFolder "a" "a" [TreeFile "a/b.js" "b.js";
                                       TreeFile "a/d.js" "d.js"];
                   TreeFile "c.js" "c.js"]))
    as Hbuild by (vm_compute; reflexivity).
  split; [exact Hbuild|].
  destruct (tree_folder_files ["a/b.js"; "c.js"; "a/d.js"] "root" _ ["a"]
              "a" "a" [TreeFile "a/b.js" "b.js"; TreeFile "a/d.js" "d.js"]
              Hbuild) as (folders & Hchildren & _).
  - apply (tree_at_down "root" "root" _
             (TreeFolder "a" "a" [TreeFile "a/b.js" "b.js";
                                  TreeFile "a/d.js" "d.js"]) []);
      [apply list_elem_of_here | reflexivity | apply tree_at_here].
  - exists folders. exact Hchildren.
Defined.

Lemma folder_at_new path name names c :
  folder_at (mkBuildingFolder path name [] []) names = Some c →
  names = [].
Proof. by destruct names. Qed.

Lemma folder_at_app b names1 names2 :
  is_Some (folder_at b (names1 ++ names2)) → is_Some (folder_at b names1).
Proof.
  revert b. induction names1 as [|n names1 IH]; intros b; simpl.
  { by eexists. }
  destruct (JS.own (folder_folders b) n) as [child|]; [apply IH|].
  by intros [??].
Qed.

(** A folder that is there after a path was inserted was there before, or
    lies on the directory of the path. *)
Lemma insertFrom_folder_at_inv filePath pathParts i rest b b' names :
  insertFrom filePath pathParts i rest b = Ok b' →
  is_Some (folder_at b' names) →
  is_Some (folder_at b names) ∨ names `prefix_of` removelast rest.
Proof.
  revert i b b' names.
  induction rest as [|part rest IH]; intros i b b' names.
  { intros [= <-]. by left. }
  destruct b as [path name files folders].
  destruct (decide (rest = [])) as [->|Hrest].
  { intros [= <-] Hat. left. by destruct names. }
  rewrite insertFrom_step by done.
  assert (removelast (part :: rest) = part :: removelast rest) as ->
    by (by destruct rest).
  intros (child' & Hchild & [= <-])%bind_Ok.
  destruct names as [|n names]; [left; by eexists|].
  cbn [folder_at folder_folders]. rewrite own_set.
  destruct (decide (part = n)) as [<-|Hne]; [|by left].
  intros Hat. unfold JS.read in Hchild.
  destruct (JS.own folders part) as [child|] eqn:Hown.
  - destruct (IH _ _ _ _ Hchild Hat) as [?|Hprefix]; [by left|].
    right. by apply prefix_cons.
  - destruct (JS.inherited part); [done|].
    destruct (IH _ _ _ _ Hchild Hat) as [[c Hc]|Hprefix].
    + apply folder_at_new in Hc as ->. right.
      apply prefix_cons, prefix_nil.
    + right. by apply prefix_cons.
Qed.

Lemma insertPaths_folder_at_inv filePaths b b' names :
  insertPaths b filePaths = Ok b' →
  is_Some (folder_at b' names) →
  is_Some (folder_at b names)
  ∨ ∃ p, p ∈ filePaths ∧ names `prefix_of` directory_segments p.
Proof.
  revert b. induction filePaths as [|p ps IH]; intros b; simpl.
  { intros [= <-]. by left. }
  intros (b1 & H1 & H2)%bind_Ok Hat.
  destruct (IH _ H2 Hat) as [Hb1|(q & Hq & Hprefix)].
  - destruct (insertFrom_folder_at_inv _ _ _ _ _ _ _ H1 Hb1)
      as [?|Hprefix]; [by left|].
    right. exists p. split; [apply list_elem_of_here | done].
  - right. exists q. split; [by apply list_elem_of_further | done].
Qed.

(** X20: the folders of the tree are the root and one folder for every
    prefix of the directory segments of an input path: following a list
    of names from the root leads to a folder exactly when the list is
    empty or a prefix of the directory segments of some input path. *)
Theorem tree_folders_exist_iff filePaths rootDirectory t names :
  buildTree filePaths rootDirectory = Ok t →
  (∃ s, tree_at t names s)
  ↔ names = []
    ∨ ∃ p, p ∈ filePaths ∧ names `prefix_of` directory_segments p.
Proof.
  intros (b & Hb & -> & Hwf & _)%buildTree_Ok. split.
  - intros [s Hat].
    apply convertTree_at_inv in Hat as (c & Hc & _); [|done].
    destruct (insertPaths_folder_at_inv _ _ _ names Hb) as [[c' Hc']|?];
      [by eexists | | by right].
    left. by eapply folder_at_new.
  - intros [->|(p & Hp & [rest Hrest])].
    { eexists. apply tree_at_here. }
    pose proof (insertPaths_folder_at _ _ _ _ Hb Hp) as Hat.
    rewrite Hrest in Hat. apply folder_at_app in Hat as [c Hc].
    exists (convertTree c). by apply convertTree_at.
Qed.

Lemma tree_folders_exist_iff_witness :
  buildTree ["x/y/z.js"] "root"
  = Ok (TreeFolder "root" "root"
          [TreeFolder "x" "x"
             [TreeFolder "x/y" "y" [TreeFile "x/y/z.js" "z.js"]]])
  ∧ ((∃ s,
        tree_at
          (TreeFolder "root" "root"
             [TreeFolder "x" "x"
                [TreeFolder "x/y" "y" [TreeFile "x/y/z.js" "z.js"]]])
          ["x"] s)
     ↔ ["x"] = []
       ∨ ∃ p, p ∈ ["x/y/z.js"] ∧ ["x"] `prefix_of` directory_segments p).
Proof.
  assert (buildTree ["x/y/z.js"] "root"
          = Ok (TreeFolder "root" "root"
                  [TreeFolder "x" "x"
                     [TreeFolder "x/y" "y" [TreeFile "x/y/z.js" "z.js"]]]))
    as Hbuild by (vm_compute; reflexivity).
  split; [exact Hbuild|].
  exact (tree_folders_exist_iff ["x/y/z.js"] "root" _ ["x"] Hbuild).
Defined.

Lemma keys_at_new path name names :
  keys_at (mkBuildingFolder path name [] []) names = [].
Proof. by destruct names. Qed.

Lemma next_segment_nil names : next_segment names [] = None.
Proof.
  unfold next_segment. case_decide; [|done]. by rewrite lookup_nil.
Qed.

Lemma next_segment_cons n names part segments :
  next_segment (n :: names) (part :: segments)
  = if decide (part = n) then next_segment names segments else None.
Proof.
  unfold next_segment. cbn [length take lookup list_lookup].
  repeat case_decide; simplify_eq; try done; congruence.
Qed.

Lemma Set_add_keys {V} (o : JS.object V) k v :
  (JS.set o k v).*1 = Set_add o.*1 k.
Proof.
  rewrite set_keys. unfold Set_add.
  destruct (JS.own o k) as [v'|] eqn:Hown.
  - rewrite bool_decide_eq_true_2; [done|].
    apply own_Some_elem in Hown.
    by apply (list_elem_of_fmap_2 fst _ (k, v')).
  - rewrite bool_decide_eq_false_2; [done|]. by apply own_None.
Qed.

(** Inserting a path creates at most one key in a folder: the segment that
    follows the folder in the directory of the path. *)
Lemma insertFrom_keys_at filePath pathParts i rest b b' names :
  insertFrom filePath pathParts i rest b = Ok b' →
  keys_at b' names
  = match next_segment names (removelast rest) with
    | Some key => Set_add (keys_at b names) key
    | None => keys_at b names
    end.
Proof.
  revert i b b' names.
  induction rest as [|part rest IH]; intros i b b' names.
  { intros [= <-]. by rewrite next_segment_nil. }
  destruct b as [path name files folders].
  destruct (decide (rest = [])) as [->|Hrest].
  { intros [= <-]. cbn [removelast]. rewrite next_segment_nil.
    by destruct names. }
  rewrite insertFrom_step by done.
  assert (removelast (part :: rest) = part :: removelast rest) as ->
    by (by destruct rest).
  intros (child' & Hchild & [= <-])%bind_Ok.
  destruct names as [|n names].
  { unfold keys_at, next_segment. cbn. apply Set_add_keys. }
  rewrite next_segment_cons.
  unfold keys_at. cbn [folder_at folder_folders]. rewrite own_set.
  destruct (decide (part = n)) as [<-|Hne]; [|done].
  unfold JS.read in Hchild.
  destruct (JS.own folders part) as [child|] eqn:Hown.
  - by apply (IH _ _ _ names) in Hchild.
  - destruct (JS.inherited part); [done|].
    apply (IH _ _ _ names) in Hchild. by rewrite keys_at_new in Hchild.
Qed.

Lemma insertPaths_keys_at filePaths b b' names :
  insertPaths b filePaths = Ok b' →
  keys_at b' names
  = fold_left
      (fun keys p =>
         match next_segment names (directory_segments p) with
         | Some key => Set_add keys key
         | None => keys
         end)
      filePaths (keys_at b names).
Proof.
  revert b. induction filePaths as [|p ps IH]; intros b; simpl.
  { by intros [= <-]. }
  intros (b1 & H1 & H2)%bind_Ok. rewrite (IH _ H2). f_equal.
  by eapply insertFrom_keys_at.
Qed.

Lemma index_properties_named {V} (o : JS.object V) :
  Forall (fun kv => JS.array_index (fst kv) = None) o →
  JS.Object_values o = o.*2.
Proof.
  unfold JS.Object_values. intros Hnamed.
  assert (JS.index_properties o = [] ∧ JS.named_properties o = o.*2)
    as [-> ->]; [|done].
  induction Hnamed as [|[k v] o Hk _ [IH1 IH2]]; [done|].
  simpl in *. rewrite Hk. split; [done | by f_equal].
Qed.

(** X21: the sub-folders of a folder of the tree are listed in the order
    of [Object.values]: those named by an array index first, in ascending
    numeric order, then the others in the order in which the input first
    asks for them; when no name is an array index this is the order of
    first appearance. *)
Theorem tree_subfolder_order filePaths rootDirectory t names id name
    children :
  buildTree filePaths rootDirectory = Ok t →
  tree_at t names (TreeFolder id name children) →
  folder_names children = property_order (subfolder_names filePaths names)
  ∧ (Forall (fun key => JS.array_index key = None)
       (subfolder_names filePaths names) →
     folder_names children = subfolder_names filePaths names).
Proof.
  intros (b & Hb & -> & Hwf & _)%buildTree_Ok Hat.
  apply convertTree_at_inv in Hat as (c & Hc & Hconv & Hwfc); [|done].
  pose proof (insertPaths_keys_at _ _ _ names Hb) as Hkeys.
  rewrite keys_at_new in Hkeys. unfold keys_at in Hkeys.
  rewrite Hc in Hkeys. fold (subfolder_names filePaths names) in Hkeys.
  destruct Hwfc as [path' name' files' folders' _ Hall].
  rewrite convertTree_unfold in Hconv. injection Hconv as _ _ ->.
  simpl in Hkeys. rewrite folder_names_convert, <- Hkeys.
  assert (map (fun kv => (fst kv, folder_name (snd kv))) folders'
          = map (fun key => (key, key)) folders'.*1) as Hmap.
  { clear Hkeys Hc. induction Hall as [|[k v] o (Hk & _) _ IH]; [done|].
    csimpl in *. by rewrite Hk, IH. }
  assert (folder_name <$> JS.Object_values folders'
          = property_order folders'.*1) as Horder.
  { unfold property_order. rewrite <- Hmap.
    symmetry. apply (Object_values_map folder_name). }
  split; [done|]. intros Hnamed. rewrite Horder. unfold property_order.
  rewrite index_properties_named.
  - rewrite <- list_fmap_compose. by rewrite list_fmap_id.
  - apply Forall_fmap. by eapply Forall_impl.
Qed.

Lemma tree_subfolder_order_witness :
  buildTree ["b/x"; "10/x"; "9/x"] "root"
  = Ok (TreeFolder "root" "root"
          [TreeFolder "9" "9" [TreeFile "9/x" "x"];
           TreeFolder "10" "10" [TreeFile "10/x" "x"];
           TreeFolder "b" "b" [TreeFile "b/x" "x"]])
  ∧ folder_names
      [TreeFolder "9" "9" [TreeFile "9/x" "x"];
       TreeFolder "10" "10" [TreeFile "10/x" "x"];
       TreeFolder "b" "b" [TreeFile "b/x" "x"]]
    = property_order (subfolder_names ["b/x"; "10/x"; "9/x"] []).
Proof.
  assert (buildTree ["b/x"; "10/x"; "9/x"] "root"
          = Ok (TreeFolder "root" "root"
                  [TreeFolder "9" "9" [TreeFile "9/x" "x"];
                   TreeFolder "10" "10" [TreeFile "10/x" "x"];
                   TreeFolder "b" "b" [TreeFile "b/x" "x"]]))
    as Hbuild by (vm_compute; reflexivity).
  split; [exact Hbuild|].
  exact (proj1 (tree_subfolder_order ["b/x"; "10/x"; "9/x"] "root" _ []
                  "root" "root" _ Hbuild (tree_at_here _))).
Defined.

Lemma rootName_segment rootDirectory part :
  rootName rootDirectory = Some part →
  part ∈ JS.split "/" rootDirectory.
Proof.
  unfold rootName.
  destruct (JS.split "/" rootDirectory !! _) as [part'|] eqn:Hlast.
  - destruct (JS.truthy part').
    + intros [= <-]. by eapply list_elem_of_lookup_2.
    + destruct (_ <? _); [|done]. apply list_elem_of_lookup_2.
  - destruct (_ <? _); [|done]. apply list_elem_of_lookup_2.
Qed.

Lemma rootName_None rootDirectory :
  rootName rootDirectory = None ↔ rootDirectory = "".
Proof.
  split; [|by intros ->].
  unfold rootName. pose proof (split_nonempty "/" rootDirectory) as Hne.
  pose proof (join_split "/" rootDirectory) as Hjoin.
  destruct (JS.split "/" rootDirectory) as [|part parts] using rev_ind;
    [done|]. clear IHparts Hne.
  rewrite length_app. cbn [length].
  replace (length parts + 1 - 1) with (length parts) by lia.
  rewrite lookup_app_r, Nat.sub_diag by lia. cbn [lookup list_lookup].
  destruct part as [|c part]; [|done]. cbn [JS.truthy].
  destruct parts as [|part' parts _] using rev_ind.
  { intros _. by rewrite <- Hjoin. }
  rewrite length_app. cbn [length].
  replace (1 <? length parts + 1 + 1) with true
    by (symmetry; apply Nat.ltb_lt; lia).
  replace (length parts + 1 + 1 - 2) with (length parts) by lia.
  rewrite <- app_assoc, lookup_app_r, Nat.sub_diag by lia. done.
Qed.

(** X22: the root of the tree has [rootDirectory] as [id], and a segment
    of [rootDirectory] as [name], but for the empty [rootDirectory]: the
    fallback name ['/'] is used for it and for no other. *)
Theorem root_name_fallback filePaths rootDirectory t :
  buildTree filePaths rootDirectory = Ok t →
  tree_id t = rootDirectory
  ∧ (tree_name t = "/" ↔ rootDirectory = "")
  ∧ (rootDirectory ≠ "" → tree_name t ∈ JS.split "/" rootDirectory).
Proof.
  intros Hbuild.
  destruct (buildTree_outcome filePaths rootDirectory)
    as [[Hok _]|[_ Hthrows]]; [|by rewrite Hbuild in Hthrows].
  destruct (buildTree_returns filePaths rootDirectory Hok)
    as [children Hchildren].
  rewrite Hbuild in Hchildren. injection Hchildren as ->. simpl.
  split; [done|].
  destruct (rootName rootDirectory) as [part|] eqn:Hroot; simpl.
  - apply rootName_segment in Hroot as Hpart.
    assert (rootDirectory ≠ "") as Hne.
    { intros ->. by vm_compute in Hroot. }
    split; [|done]. split; [|done]. intros ->.
    pose proof (split_segments "/" rootDirectory) as Hsegs.
    rewrite Forall_forall in Hsegs. by apply Hsegs in Hpart.
  - apply rootName_None in Hroot. done.
Qed.

Lemma root_name_fallback_witness :
  buildTree ["x/y/z.js"] ""
  = Ok (TreeFolder "" "/"
          [TreeFolder "x" "x"
             [TreeFolder "x/y" "y" [TreeFile "x/y/z.js" "z.js"]]])
  ∧ (tree_name
       (TreeFolder "" "/"
          [TreeFolder "x" "x"
             [TreeFolder "x/y" "y" [TreeFile "x/y/z.js" "z.js"]]])
     = "/" ↔ "" = "").
Proof.
  assert (buildTree ["x/y/z.js"] ""
          = Ok (TreeFolder "" "/"
                  [TreeFolder "x" "x"
                     [TreeFolder "x/y" "y" [TreeFile "x/y/z.js" "z.js"]]]))
    as Hbuild by (vm_compute; reflexivity).
  split; [exact Hbuild|].
  exact (proj1 (proj2 (root_name_fallback ["x/y/z.js"] "" _ Hbuild))).
Defined.

(** ** The two strategies on the same input *)

Lemma tree_path_ok_forest_ok files :
  Forall (fun p => JS.includes "." (file_segment p) = true) files →
  Forall tree_path_ok files → forest_ok files.
Proof.
  intros Hdots Hok. apply forest_ok_first_segment.
  rewrite Forall_forall in Hdots, Hok |- *.
  intros file Hfile first Hfirst.
  unfold folder_segments in Hfirst. rewrite (Hdots file Hfile) in Hfirst.
  specialize (Hok file Hfile). unfold tree_path_ok in Hok.
  destruct (directory_segments file) as [|first' segments]; [done|].
  injection Hfirst as ->. by apply Forall_cons_1 in Hok as [? _].
Qed.

(** X23: when every input path has a dot in its last segment, every input
    that [buildTree] takes is taken by [makeFileHierarchy] too. *)
Theorem makeFileHierarchy_returns_with_buildTree files rootDirectory t :
  Forall (fun p => JS.includes "." (file_segment p) = true) files →
  buildTree files rootDirectory = Ok t →
  ∃ forest, makeFileHierarchy files = Ok forest.
Proof.
  intros Hdots Hbuild.
  destruct (buildTree_outcome files rootDirectory)
    as [[Hok _]|[_ Hthrows]]; [|by rewrite Hbuild in Hthrows].
  destruct (makeFileHierarchy_returns files)
    as (_ & forest & _ & _ & Hmake & _).
  - by apply tree_path_ok_forest_ok.
  - by exists forest.
Qed.

Lemma makeFileHierarchy_returns_with_buildTree_witness :
  Forall (fun p => JS.includes "." (file_segment p) = true) ["x/y/z.js"]
  ∧ buildTree ["x/y/z.js"] "root"
    = Ok (TreeFolder "root" "root"
            [TreeFolder "x" "x"
               [TreeFolder "x/y" "y" [TreeFile "x/y/z.js" "z.js"]]])
  ∧ ∃ forest, makeFileHierarchy ["x/y/z.js"] = Ok forest.
Proof.
  assert (Forall (fun p => JS.includes "." (file_segment p) = true)
            ["x/y/z.js"]) as Hdots
    by (repeat constructor).
  assert (buildTree ["x/y/z.js"] "root"
          = Ok (TreeFolder "root" "root"
                  [TreeFolder "x" "x"
                     [TreeFolder "x/y" "y" [TreeFile "x/y/z.js" "z.js"]]]))
    as Hbuild by (vm_compute; reflexivity).
  split; [exact Hdots|]. split; [exact Hbuild|].
  exact (makeFileHierarchy_returns_with_buildTree ["x/y/z.js"] "root" _
           Hdots Hbuild).
Defined.

Lemma forest_file_is_input files forest chain name relative :
  makeFileHierarchy files = Ok forest →
  "/" ∉ getAllFolders files →
  forest_at forest chain (FileNode name relative) →
  relative ∈ files ∧ name = file_segment relative.
Proof.
  intros Hmake Hsentinel Hat.
  destruct (makeFileHierarchy_outcome files)
    as [[Hok _]|[_ Hthrows]]; [|by rewrite Hmake in Hthrows].
  destruct (makeFileHierarchy_returns files Hok)
    as (m & forest' & _ & Hreg & Hmake' & Hwalk).
  rewrite Hmake in Hmake'. injection Hmake' as <-.
  destruct (forest_file_input files m forest Hreg Hwalk chain name relative
              Hsentinel Hat) as (? & ? & _). done.
Qed.

(** X24: on an input both strategies take, and unless a folder with the
    path of the sentinel was discovered, every file node of the forest is
    a file of the tree, with its [relative] as [id] and the same name. *)
Theorem forest_files_in_tree files rootDirectory forest t chain name
    relative :
  makeFileHierarchy files = Ok forest →
  buildTree files rootDirectory = Ok t →
  "/" ∉ getAllFolders files →
  forest_at forest chain (FileNode name relative) →
  (relative, name) ∈ tree_files t.
Proof.
  intros Hmake Hbuild Hsentinel Hat.
  destruct (forest_file_is_input _ _ _ _ _ Hmake Hsentinel Hat)
    as [Hin ->].
  rewrite (buildTree_files _ _ _ Hbuild).
  by apply (list_elem_of_fmap_2 (fun p => (p, file_segment p))).
Qed.

Lemma forest_files_in_tree_witness :
  makeFileHierarchy ["x/y/z.js"] = Ok
    [FolderNode "x" "x"
       [FolderNode "y" "x/y" [FileNode "z.js" "x/y/z.js"]]]
  ∧ buildTree ["x/y/z.js"] "root"
    = Ok (TreeFolder "root" "root"
            [TreeFolder "x" "x"
               [TreeFolder "x/y" "y" [TreeFile "x/y/z.js" "z.js"]]])
  ∧ ("/" ∉ getAllFolders ["x/y/z.js"])
  ∧ ("x/y/z.js", "z.js")
    ∈ tree_files
        (TreeFolder "root" "root"
           [TreeFolder "x" "x"
              [TreeFolder "x/y" "y" [TreeFile "x/y/z.js" "z.js"]]]).
Proof.
  assert (makeFileHierarchy ["x/y/z.js"] = Ok
            [FolderNode "x" "x"
               [FolderNode "y" "x/y" [FileNode "z.js" "x/y/z.js"]]])
    as Hmake by (vm_compute; reflexivity).
  assert (buildTree ["x/y/z.js"] "root"
          = Ok (TreeFolder "root" "root"
                  [TreeFolder "x" "x"
                     [TreeFolder "x/y" "y" [TreeFile "x/y/z.js" "z.js"]]]))
    as Hbuild by (vm_compute; reflexivity).
  assert ("/" ∉ getAllFolders ["x/y/z.js"]) as Hsentinel.
  { vm_compute. intros Hin.
    apply elem_of_cons in Hin as [Hin|Hin]; [discriminate|].
    apply elem_of_cons in Hin as [Hin|Hin]; [discriminate|].
    by apply elem_of_nil in Hin. }
  split; [exact Hmake|]. split; [exact Hbuild|]. split; [exact Hsentinel|].
  refine (forest_files_in_tree ["x/y/z.js"] "root" _ _ ["x"; "x/y"] "z.js"
            "x/y/z.js" Hmake Hbuild Hsentinel _).
  eapply forest_at_down; [apply list_elem_of_here|].
  eapply forest_at_down; [apply list_elem_of_here|].
  apply forest_at_here, list_elem_of_here.
Defined.

(** ** The system test of a new project *)

Section NewProjectFacts.
Context {World Stats Completed Reason : Type}.
Variable statAsync : Promise World Reason Stats.
Variable exec : Promise World Reason Completed.
Variable support_folder_should_not_exist : Reason.

(** X25: the first check of the test cannot make it fail.  Whether the
    support folder is there at the start or not, the chain goes on to run
    the project and to look for the folder again: the error
    ['support folder should not exist'], thrown when the folder is there,
    is caught by the [catch] that follows it. *)
Theorem initial_check_is_swallowed world :
  passes statAsync exec support_folder_should_not_exist world
  = then_ exec (fun _ => statAsync) (statAsync world).2.
Proof.
  unfold passes, catch_, then_, throw.
  by destruct (statAsync world) as [[stats|reason] world'].
Qed.

(** X26: the test passes exactly when the run of the project completes
    and the support folder is there afterwards. *)
Theorem passes_iff world :
  (∃ stats world',
     passes statAsync exec support_folder_should_not_exist world
     = (Fulfilled stats, world'))
  ↔ ∃ completed world1 stats world2,
      exec (statAsync world).2 = (Fulfilled completed, world1)
      ∧ statAsync world1 = (Fulfilled stats, world2).
Proof.
  unfold passes, catch_, then_, throw.
  destruct (statAsync world) as [[stats0|reason0] world0]; simpl;
    (destruct (exec world0) as [[completed|reason1] world1] eqn:Hexec;
     [|split; [by intros (? & ? & [=]) | by intros (? & ? & ? & ? & [=] & _)]]);
    (split;
     [intros (stats & world' & Hstat); by exists completed, world1, stats, world'
     |intros (? & ? & stats & world2 & [= <- <-] & Hstat);
      by exists stats, world2]).
Qed.
End NewProjectFacts.

(** ** [getAllFolders] on a longer input *)

Lemma Set_add_prefix dirs dir : dirs `prefix_of` Set_add dirs dir.
Proof.
  unfold Set_add. case_bool_decide; [done|]. by apply prefix_app_r.
Qed.

Lemma fold_Set_add_prefix l dirs :
  dirs `prefix_of` fold_left (fun dirs dir => Set_add dirs dir) l dirs.
Proof.
  revert dirs. induction l as [|x l IH]; intros dirs; simpl; [done|].
  etrans; [apply (Set_add_prefix dirs x) | apply IH].
Qed.

Lemma fold_Set_add_present l dirs :
  (∀ x, x ∈ l → x ∈ dirs) →
  fold_left (fun dirs dir => Set_add dirs dir) l dirs = dirs.
Proof.
  induction l as [|x l IH]; intros Hin; simpl; [done|].
  unfold Set_add at 2. rewrite bool_decide_eq_true_2.
  - apply IH. intros y Hy. by apply Hin, list_elem_of_further.
  - apply Hin, list_elem_of_here.
Qed.

Lemma getAllFolders_app files1 files2 :
  getAllFolders (files1 ++ files2)
  = fold_left
      (fun dirs file =>
         fold_left (fun dirs dir => Set_add dirs dir)
           (prefixes (folder_segments file)) dirs)
      files2 (getAllFolders files1).
Proof.
  unfold getAllFolders. rewrite fold_left_app.
  apply fold_left_pointwise. intros. apply getAllFolders_step.
Qed.

(** X27: [getAllFolders] keeps the order of discovery when the input
    grows: the folders of a list of paths come first, unchanged, in the
    folders of any longer list; and paths that are given again add
    nothing. *)
Theorem getAllFolders_longer_input files1 files2 :
  getAllFolders files1 `prefix_of` getAllFolders (files1 ++ files2)
  ∧ ((∀ file, file ∈ files2 → file ∈ files1) →
     getAllFolders (files1 ++ files2) = getAllFolders files1).
Proof.
  rewrite getAllFolders_app. split.
  - generalize (getAllFolders files1).
    induction files2 as [|file files2 IH]; intros dirs; simpl; [done|].
    etrans; [|apply IH]. apply fold_Set_add_prefix.
  - intros Hin.
    assert (∀ file, file ∈ files2 →
              ∀ x, x ∈ prefixes (folder_segments file) →
                   x ∈ getAllFolders files1) as Hdirs.
    { intros file Hfile x Hx. apply getAllFolders_elem.
      exists file. split; [by apply Hin | done]. }
    clear Hin. revert Hdirs. generalize (getAllFolders files1).
    induction files2 as [|file files2 IH]; intros dirs Hdirs; simpl; [done|].
    rewrite fold_Set_add_present.
    + apply IH. intros f Hf. by apply Hdirs, list_elem_of_further.
    + apply Hdirs, list_elem_of_here.
Qed.

(** ** The levels of [makeFileHierarchy] *)

(** X28: the reduction that builds [foldersByLength] groups the folders by
    their number of separators and keeps their order: the list of a level
    holds the folders of that level in the order of the input list, and a
    level without folders has no entry, so that no entry is empty. *)
Theorem foldersByLength_groups allFolderNodes depth :
  default [] (foldersByLength_of allFolderNodes !! depth)
  = filter (fun dir => charCount dir "/" = depth) allFolderNodes
  ∧ foldersByLength_of allFolderNodes !! depth ≠ Some []
  ∧ (is_Some (foldersByLength_of allFolderNodes !! depth)
     ↔ ∃ dir, dir ∈ allFolderNodes ∧ charCount dir "/" = depth).
Proof.
  rewrite foldersByLength_lookup.
  destruct (filter _ allFolderNodes) as [|dir dirs] eqn:Hfilter.
  - split; [done|]. split; [done|]. split; [by intros [??]|].
    intros (dir & Hdir & Hcount).
    assert (dir ∈ filter (fun dir => charCount dir "/" = depth)
                    allFolderNodes) as Hin by by apply list_elem_of_filter.
    rewrite Hfilter in Hin. by apply elem_of_nil in Hin.
  - split; [done|]. split; [done|]. split; [|by eexists].
    intros _. exists dir.
    assert (dir ∈ filter (fun dir => charCount dir "/" = depth)
                    allFolderNodes) as Hin
      by (rewrite Hfilter; apply list_elem_of_here).
    by apply list_elem_of_filter in Hin as [??].
Qed.

(** * Chains, siblings and leaves *)

(** ** The forest on well-nested input *)

Lemma startsWith_inv p x : JS.startsWith p x = true → ∃ s, x = p +:+ s.
Proof.
  unfold JS.startsWith. revert x. induction p as [|c p IH]; intros x; simpl.
  { intros _. by exists x. }
  destruct x as [|c' x]; [done|]. cbn [String.prefix].
  destruct (ascii_dec c c') as [<-|]; [|done].
  intros [s ->]%IH. by exists s.
Qed.

Lemma forest_at_split forest chain1 relative chain2 node :
  forest_at forest (chain1 ++ relative :: chain2) node →
  ∃ name children,
    forest_at forest chain1 (FolderNode name relative children)
    ∧ forest_at children chain2 node.
Proof.
  revert forest. induction chain1 as [|r chain1 IH]; intros forest Hat;
    inversion Hat as [|? name ? children ? ? Hin Hat']; subst.
  - exists name, children. split; [by apply forest_at_here | done].
  - destruct (IH _ Hat') as (name' & children' & Hfolder & Hnode).
    exists name', children'. split; [|done]. by eapply forest_at_down.
Qed.

Lemma prefixes_app segments1 segments2 :
  prefixes_from 0 (length segments1) (segments1 ++ segments2)
  = prefixes segments1.
Proof.
  unfold prefixes, prefixes_from. apply map_ext_in. intros i Hi%in_seq.
  f_equal. apply take_app_le. lia.
Qed.

Lemma prefixes_snoc_segment segments x :
  prefixes (segments ++ [x])
  = prefixes segments ++ [JS.join "/" (segments ++ [x])].
Proof.
  rewrite prefixes_snoc by by destruct segments.
  rewrite length_app. cbn [length].
  replace (length segments + 1 - 1) with (length segments) by lia.
  by rewrite prefixes_app.
Qed.

(** A file node is made by the folder node that holds it. *)
Lemma forest_file_node files forest chain name relative :
  makeFileHierarchy files = Ok forest →
  forest_at forest chain (FileNode name relative) →
  ∃ chain' dir fname fchildren,
    chain = chain' ++ [dir]
    ∧ forest_at forest chain' (FolderNode fname dir fchildren)
    ∧ name ∈ registered files dir
    ∧ relative = dir +:+ "/" +:+ name.
Proof.
  intros Hmake Hat.
  destruct chain as [|dir chain' _] using rev_ind.
  { apply makeFileHierarchy_Ok in Hmake as (m & _ & Hwalk).
    apply walk_FolderNodes in Hwalk. rewrite Forall_forall in Hwalk.
    inversion Hat as [? ? Hin|]; subst. by apply Hwalk in Hin. }
  apply forest_at_split in Hat as (fname & fchildren & Hfolder & Hnode).
  exists chain', dir, fname, fchildren. split; [done|]. split; [done|].
  destruct (forest_folder_node _ _ _ _ _ _ Hmake Hfolder)
    as (_ & _ & _ & _ & nested & -> & Hnested & _).
  inversion Hnode as [? ? Hin|]; subst.
  apply elem_of_app in Hin as [Hin|Hin].
  - rewrite Forall_forall in Hnested. by apply Hnested in Hin.
  - by apply list_elem_of_fmap in Hin as (f & [= -> ->] & Hf).
Qed.

(** On well-nested input a folder node lies under the folders of its
    proper prefixes, and nowhere else. *)
Lemma forest_folder_chain files forest chain name relative children :
  makeFileHierarchy files = Ok forest → segment_nested files →
  forest_at forest chain (FolderNode name relative children) →
  chain ++ [relative] = prefixes (JS.split "/" relative).
Proof.
  intros Hmake Hnested. revert name relative children.
  induction chain as [|parent chain IH] using rev_ind;
    intros name relative children Hat;
    destruct (forest_folder_node _ _ _ _ _ _ Hmake Hat)
      as (Hin & Hcount & _ & Hstarts & _).
  { by rewrite split_no_sep. }
  apply forest_at_split in Hat as (pname & pchildren & Hparent & _).
  destruct (forest_folder_node _ _ _ _ _ _ Hmake Hparent)
    as (Hpin & Hpcount & _).
  rewrite (IH _ _ _ Hparent).
  destruct (startsWith_inv parent relative) as [rest Hrest].
  { apply Hstarts. by rewrite last_snoc. }
  rewrite length_app in Hcount. cbn [length] in Hcount.
  destruct (Hnested parent relative rest Hpin Hin) as [x ->]; [lia|done|].
  subst relative.
  assert (charCount x "/" = 0) as Hx.
  { rewrite !charCount_app in Hcount. cbn [charCount] in Hcount.
    rewrite Ascii.eqb_refl in Hcount. lia. }
  rewrite (split_snoc_segment parent x Hx), prefixes_snoc_segment.
  by rewrite <- (split_snoc_segment parent x Hx), join_split.
Qed.

(** So does a file node: under the folders of its directory prefixes. *)
Lemma forest_file_chain files forest chain name relative :
  makeFileHierarchy files = Ok forest → segment_nested files →
  forest_at forest chain (FileNode name relative) →
  chain = prefixes (directory_segments relative).
Proof.
  intros Hmake Hnested Hat.
  destruct (forest_file_node _ _ _ _ _ Hmake Hat)
    as (chain' & dir & fname & fchildren & -> & Hfolder & Hname & ->).
  rewrite (forest_folder_chain _ _ _ _ _ _ Hmake Hnested Hfolder).
  apply registered_elem in Hname as (file & _ & Hname).
  apply registers_elem in Hname as (-> & _).
  unfold directory_segments at 1.
  by rewrite split_snoc_segment, removelast_last
    by apply file_segment_count.
Qed.

(** ** Names of siblings *)










(** ** The leaves of the forest *)

Lemma split_app_segments a b :
  JS.split "/" (a +:+ "/" +:+ b) = JS.split "/" a ++ JS.split "/" b.
Proof.
  induction a as [|c a IH].
  - change ("" +:+ "/" +:+ b) with (String "/" b). done.
  - change (String c a +:+ "/" +:+ b) with (String c (a +:+ "/" +:+ b)).
    simpl. rewrite IH. destruct (Ascii.eqb c "/"); [done|].
    pose proof (split_nonempty "/" a). by destruct (JS.split "/" a).
Qed.

(** Two folders of one level have nothing below them in common. *)
Lemma below_unique dir1 dir2 r :
  charCount dir1 "/" = charCount dir2 "/" →
  (r = dir1 ∨ ∃ s, r = dir1 +:+ "/" +:+ s) →
  (r = dir2 ∨ ∃ s, r = dir2 +:+ "/" +:+ s) →
  dir1 = dir2.
Proof.
  intros Hcount [->|[s1 ->]] [H2|[s2 H2]].
  - done.
  - apply (f_equal (fun s => charCount s "/")) in H2.
    rewrite !charCount_app in H2. cbn [charCount] in H2.
    rewrite Ascii.eqb_refl in H2. lia.
  - apply (f_equal (fun s => charCount s "/")) in H2.
    rewrite !charCount_app in H2. cbn [charCount] in H2.
    rewrite Ascii.eqb_refl in H2. lia.
  - apply (f_equal (JS.split "/")) in H2.
    rewrite !split_app_segments in H2.
    apply app_inj_1 in H2 as [H2 _].
    + by rewrite <- (join_split "/" dir1), <- (join_split "/" dir2), H2.
    + rewrite !split_length_count. lia.
Qed.

Lemma flat_map_nil {A B} (f : A → list B) (l : list A) :
  (∀ x, x ∈ l → f x = []) → flat_map f l = [].
Proof.
  induction l as [|x l IH]; intros Hf; simpl; [done|].
  rewrite (Hf x) by apply list_elem_of_here. apply IH.
  intros y Hy. by apply Hf, list_elem_of_further.
Qed.

Lemma flat_map_single {A B} `{EqDecision A} (f : A → list B) (l : list A) k :
  NoDup l → k ∈ l →
  flat_map (fun x => if decide (k = x) then f x else []) l = f k.
Proof.
  induction l as [|x l IH]; intros Hl Hk.
  { by apply elem_of_nil in Hk. }
  apply NoDup_cons in Hl as [Hx Hl]. simpl. case_decide as Hkx.
  - subst x. rewrite flat_map_nil; [by rewrite app_nil_r|].
    intros y Hy. rewrite decide_False; [done|]. by intros <-.
  - apply elem_of_cons in Hk as [->|Hk]; [done|]. by rewrite IH.
Qed.

Lemma flat_map_app_perm {A B} (f g : A → list B) (l : list A) :
  flat_map (fun x => f x ++ g x) l ≡ₚ flat_map f l ++ flat_map g l.
Proof.
  induction l as [|x l IH]; simpl; [done|]. rewrite IH.
  rewrite <- !app_assoc. apply Permutation_app_head.
  rewrite !app_assoc. apply Permutation_app_tail, Permutation_app_comm.
Qed.

Lemma forest_at_node_folders forest chain name relative children :
  forest_at forest chain (FolderNode name relative children) →
  relative ∈ flat_map node_folders forest.
Proof.
  remember (FolderNode name relative children) as node eqn:Hnode.
  induction 1 as [forest node Hin|forest n r files chain node Hin Hat IH];
    subst; apply list_elem_of_In, in_flat_map.
  - eexists. split; [by apply list_elem_of_In|]. by left.
  - eexists. split; [by apply list_elem_of_In|]. right.
    by apply list_elem_of_In, IH.
Qed.

Section WalkLeaves.
Variable foldersByLength : gmap nat (list string).
Variable allFileNodes : gmap string (list string).

Lemma contained_files dir :
  flat_map node_files (contained allFileNodes dir)
  = map (fun file => (dir +:+ "/" +:+ file, file))
      (default [] (allFileNodes !! dir)).
Proof.
  unfold contained.
  induction (default [] (allFileNodes !! dir)) as [|f l IH]; [done|].
  simpl. by rewrite IH.
Qed.

Lemma contained_folders dir :
  flat_map node_folders (contained allFileNodes dir) = [].
Proof.
  unfold contained.
  by induction (default [] (allFileNodes !! dir)) as [|f l IH].
Qed.

(** The file nodes of a forest are those its folder nodes get from the
    table of files. *)
Lemma walk_files fuel dirs depth forest :
  walk foldersByLength allFileNodes fuel (Some dirs) depth = Ok forest →
  flat_map node_files forest
  ≡ₚ flat_map
       (fun r => flat_map node_files (contained allFileNodes r))
       (flat_map node_folders forest).
Proof.
  revert dirs depth forest.
  induction fuel as [|fuel IH]; intros dirs depth forest.
  { by intros (? & ? & _)%walk_Ok. }
  intros (? & [= <-] & Hwalk)%walk_Ok.
  induction Hwalk as [|dir node dirs forest Hnode _ IHw]; [done|].
  destruct Hnode as (nested & Hnested & _ & ->).
  assert (flat_map node_files nested
          ≡ₚ flat_map
               (fun r => flat_map node_files (contained allFileNodes r))
               (flat_map node_folders nested)) as Hn.
  { unfold nested_call in Hnested.
    destruct (foldersByLength !! (depth + 1)) as [next|].
    - by eapply IH.
    - by injection Hnested as <-. }
  cbn [flat_map node_files node_folders].
  rewrite !flat_map_app, contained_folders, app_nil_r.
  change (flat_map ?f (dir :: ?l)) with (f dir ++ flat_map f l).
  rewrite <- Hn, <- IHw. apply Permutation_app_tail, Permutation_app_comm.
Qed.

Hypothesis Hlevel :
  ∀ d l x, foldersByLength !! d = Some l → x ∈ l → charCount x "/" = d.
Hypothesis Hnodup : ∀ d l, foldersByLength !! d = Some l → NoDup l.
Hypothesis Hnested :
  ∀ d l1 l2 x y rest,
    foldersByLength !! d = Some l1 → foldersByLength !! (d + 1) = Some l2 →
    x ∈ l1 → y ∈ l2 → y = x +:+ rest → ∃ name, rest = "/" +:+ name.

(** On well-nested levels no folder has two folder nodes, and all that is
    below the node of a folder has a path below the path of the folder. *)
Lemma walk_folders fuel dirs depth forest :
  walk foldersByLength allFileNodes fuel (Some dirs) depth = Ok forest →
  NoDup dirs →
  (∀ x, x ∈ dirs → ∃ l, foldersByLength !! depth = Some l ∧ x ∈ l) →
  NoDup (flat_map node_folders forest)
  ∧ ∀ r, r ∈ flat_map node_folders forest →
         (∃ d l, foldersByLength !! d = Some l ∧ r ∈ l)
         ∧ ∃ dir, dir ∈ dirs ∧ (r = dir ∨ ∃ s, r = dir +:+ "/" +:+ s).
Proof.
  revert dirs depth forest.
  induction fuel as [|fuel IH]; intros dirs depth forest.
  { by intros (? & ? & _)%walk_Ok. }
  intros (? & [= <-] & Hwalk)%walk_Ok.
  induction Hwalk as [|dir node dirs forest Hnode _ IHw];
    intros Hdirs Hin.
  { split; [apply NoDup_nil_2|]. by intros r Hr%elem_of_nil. }
  apply NoDup_cons in Hdirs as [Hdir Hdirs].
  destruct IHw as [IH1 IH2]; [done| |].
  { intros x Hx. by apply Hin, list_elem_of_further. }
  destruct (Hin dir) as (level & Hlevel_d & Hdir_in);
    [apply list_elem_of_here|].
  destruct Hnode as (nested & Hnested_call & _ & ->).
  assert (NoDup (flat_map node_folders nested)
          ∧ ∀ r, r ∈ flat_map node_folders nested →
                 (∃ d l, foldersByLength !! d = Some l ∧ r ∈ l)
                 ∧ ∃ s, r = dir +:+ "/" +:+ s) as [Hn1 Hn2].
  { unfold nested_call in Hnested_call.
    destruct (foldersByLength !! (depth + 1)) as [next|] eqn:Hnext.
    2: { injection Hnested_call as <-. split; [apply NoDup_nil_2|].
         by intros r Hr%elem_of_nil. }
    destruct (IH _ _ _ Hnested_call) as [Hn1 Hn2].
    { apply NoDup_ListNoDup, List.NoDup_filter, NoDup_ListNoDup.
      by eapply Hnodup. }
    { intros x [Hx _]%list_elem_of_In%filter_In. exists next.
      split; [done | by apply list_elem_of_In]. }
    split; [done|]. intros r Hr.
    destruct (Hn2 r Hr) as (Hfound & child & Hchild & Hbelow).
    split; [done|].
    apply list_elem_of_In, filter_In in Hchild as [Hchild Hstarts].
    apply list_elem_of_In in Hchild.
    apply startsWith_inv in Hstarts as [rest ->].
    destruct (Hnested depth level next dir _ rest Hlevel_d Hnext Hdir_in
                Hchild eq_refl) as [name ->].
    destruct Hbelow as [->|[s ->]]; [by exists name|].
    exists (name +:+ "/" +:+ s). by rewrite !append_assoc. }
  cbn [flat_map node_folders].
  rewrite flat_map_app, contained_folders, app_nil_r.
  assert (dir ∉ flat_map node_folders nested) as Hfresh.
  { intros [_ [s Hs]]%Hn2.
    apply (f_equal (fun s => charCount s "/")) in Hs.
    rewrite !charCount_app in Hs. cbn [charCount] in Hs.
    rewrite Ascii.eqb_refl in Hs. lia. }
  split.
  - change (NoDup ((dir :: flat_map node_folders nested)
                   ++ flat_map node_folders forest)).
    apply NoDup_app. split; [by apply NoDup_cons|]. split; [|done].
    intros r Hr Hr'.
    destruct (IH2 r Hr') as (_ & dir' & Hdir' & Hbelow').
    assert (r = dir ∨ ∃ s, r = dir +:+ "/" +:+ s) as Hbelow.
    { apply elem_of_cons in Hr as [->|Hr]; [by left|].
      right. by apply Hn2. }
    destruct (Hin dir') as (level' & Hlevel' & Hdir'_in);
      [by apply list_elem_of_further|].
    assert (dir = dir') as ->; [|done].
    apply (below_unique _ _ r); [|done..].
    by rewrite (Hlevel _ _ _ Hlevel_d Hdir_in),
      (Hlevel _ _ _ Hlevel' Hdir'_in).
  - intros r [->|Hr]%elem_of_cons.
    + split; [by eexists _, _|]. exists dir.
      split; [apply list_elem_of_here | by left].
    + apply elem_of_app in Hr as [Hr|Hr].
      * destruct (Hn2 r Hr) as [Hfound Hs]. split; [done|].
        exists dir. split; [apply list_elem_of_here | by right].
      * destruct (IH2 r Hr) as (Hfound & dir' & Hdir' & Hbelow).
        split; [done|]. exists dir'.
        split; [by apply list_elem_of_further | done].
Qed.
End WalkLeaves.

Lemma level_elem_count files d l x :
  foldersByLength_of (getAllFolders files) !! d = Some l → x ∈ l →
  charCount x "/" = d.
Proof. intros Hl Hx. by destruct (level_elem files d l x Hl Hx). Qed.

Lemma segment_nested_levels files :
  segment_nested files →
  ∀ d l1 l2 x y rest,
    foldersByLength_of (getAllFolders files) !! d = Some l1 →
    foldersByLength_of (getAllFolders files) !! (d + 1) = Some l2 →
    x ∈ l1 → y ∈ l2 → y = x +:+ rest → ∃ name, rest = "/" +:+ name.
Proof.
  intros Hnested d l1 l2 x y rest Hl1 Hl2 Hx Hy Hrest.
  destruct (level_elem files _ _ _ Hl1 Hx) as [Hxin Hxcount].
  destruct (level_elem files _ _ _ Hl2 Hy) as [Hyin Hycount].
  apply (Hnested x y rest); [done|done|lia|done].
Qed.

(** On well-nested input every discovered folder has one folder node. *)
Lemma forest_folders files forest :
  makeFileHierarchy files = Ok forest → segment_nested files →
  flat_map node_folders forest ≡ₚ getAllFolders files.
Proof.
  intros Hmake Hnested.
  pose proof Hmake as (m & _ & Hwalk)%makeFileHierarchy_Ok.
  destruct (walk_folders (foldersByLength_of (getAllFolders files)) m
              (level_elem_count files) (level_NoDup files)
              (segment_nested_levels files Hnested) _ _ _ _ Hwalk)
    as [Hnodup Hbelow].
  { apply NoDup_filter, getAllFolders_NoDup. }
  { intros x [Hcount Hx]%list_elem_of_filter.
    destruct (foldersByLength_elem _ _ Hx) as (l & Hl & Hxl).
    rewrite Hcount in Hl. by exists l. }
  apply NoDup_Permutation; [done | apply getAllFolders_NoDup |].
  intros r. split.
  - intros [(d & l & Hl & Hr) _]%Hbelow. by eapply level_elem.
  - intros Hr.
    destruct (walk_folder_at (foldersByLength_of (getAllFolders files)) m
                (JS.split "/" r) (charCount r "/")
                (walk_fuel (getAllFolders files))
                (filter (fun x => charCount x "/" = 0) (getAllFolders files))
                0 forest)
      as (name & nested & Hat & _).
    + intros i Hi.
      destruct (getAllFolders_prefixes files r i Hr Hi) as [Hin Hcount].
      destruct (foldersByLength_elem _ _ Hin) as (l & Hl & Hinl).
      rewrite Hcount in Hl. by exists l.
    + exact Hwalk.
    + rewrite split_length_count. lia.
    + pose proof (split_length_count "/" r) as Hlen.
      destruct (getAllFolders_prefixes files r 0 Hr) as [Hin Hcount];
        [lia|].
      by apply list_elem_of_filter.
    + rewrite join_split in Hat. by eapply forest_at_node_folders.
Qed.

(** Summed over folders without repetition, the registered files are the
    input files with a directory. *)
Lemma registered_leaves files folders :
  NoDup folders → "/" ∉ folders →
  (∀ p, p ∈ files → JS.includes "." (file_segment p) = true →
        directory_segments p ≠ [] →
        JS.join "/" (directory_segments p) ∈ folders) →
  flat_map
    (fun r => map (fun file => (r +:+ "/" +:+ file, file))
                (registered files r))
    folders
  ≡ₚ map (fun p => (p, file_segment p))
       (filter (fun p => JS.includes "." (file_segment p) = true
                         ∧ directory_segments p ≠ []) files).
Proof.
  intros Hnodup Hsentinel.
  induction files as [|p files IH]; intros Hfolders.
  { by rewrite flat_map_nil. }
  unfold registered. cbn [flat_map]. fold (registered files).
  erewrite flat_map_ext; [|intros r; apply map_app].
  rewrite flat_map_app_perm, IH.
  2: { intros q Hq. by apply Hfolders, list_elem_of_further. }
  rewrite filter_cons.
  assert (∀ r,
    map (fun file => (r +:+ "/" +:+ file, file)) (registers p r)
    = if decide (directory_key p = r)
      then (if decide (JS.includes "." (file_segment p) = true)
            then [(r +:+ "/" +:+ file_segment p, file_segment p)] else [])
      else []) as Hp.
  { intros r. rewrite registers_by_key.
    repeat case_decide; naive_solver. }
  rewrite (flat_map_ext _ _ Hp).
  destruct (decide (JS.includes "." (file_segment p) = true
                    ∧ directory_segments p ≠ [])) as [[Hdot Hdir]|Hno].
  - rewrite flat_map_single; [|done|].
    + rewrite decide_True by done. rewrite directory_key_path; [done|].
      intros Hkey. apply Hsentinel. rewrite <- Hkey. unfold directory_key.
      destruct (directory_segments p) eqn:Hds; [done|]. rewrite <- Hds.
      apply Hfolders; [apply list_elem_of_here | done | by rewrite Hds].
    + unfold directory_key.
      destruct (directory_segments p) eqn:Hds; [done|]. rewrite <- Hds.
      apply Hfolders; [apply list_elem_of_here | done | by rewrite Hds].
  - rewrite flat_map_nil; [done|]. intros r Hr.
    destruct (decide (directory_key p = r)) as [Hkey|]; [|done].
    destruct (decide (JS.includes "." (file_segment p) = true)) as [Hdot|];
      [|done].
    destruct Hno. split; [done|]. intros Hds. unfold directory_key in Hkey.
    rewrite Hds in Hkey. by subst r.
Qed.

(** On well-nested input that leads to no folder ["/"], the file nodes of
    the forest are, counted with multiplicity, the input paths that have a
    dot in the last segment and a directory. *)
Lemma forest_leaves files forest :
  makeFileHierarchy files = Ok forest →
  segment_nested files → "/" ∉ getAllFolders files →
  flat_map node_files forest
  ≡ₚ map (fun p => (p, file_segment p))
       (filter (fun p => JS.includes "." (file_segment p) = true
                         ∧ directory_segments p ≠ []) files).
Proof.
  intros Hmake Hnested Hsentinel.
  pose proof Hmake as (m & Hreg & Hwalk)%makeFileHierarchy_Ok.
  rewrite (walk_files _ _ _ _ _ _ Hwalk).
  rewrite (forest_folders _ _ Hmake Hnested).
  erewrite flat_map_ext.
  2: { intros r. rewrite contained_files, Hreg. reflexivity. }
  apply registered_leaves; [apply getAllFolders_NoDup | done |].
  intros p Hp _ Hdir. by apply directory_in_getAllFolders.
Qed.

(** ** Checks on concrete input *)

Lemma append_inj_l p a b : p +:+ a = p +:+ b → a = b.
Proof. induction p as [|c p IH]; simpl; [done|]. intros [= H]. by apply IH. Qed.

Lemma segment_nestedb_spec files :
  segment_nestedb (getAllFolders files) = true → segment_nested files.
Proof.
  unfold segment_nestedb. rewrite forallb_forall.
  intros Hcheck parent dir rest Hparent%list_elem_of_In Hdir%list_elem_of_In
    Hcount ->.
  specialize (Hcheck parent Hparent). rewrite forallb_forall in Hcheck.
  specialize (Hcheck _ Hdir).
  rewrite (proj2 (Nat.eqb_eq _ _) Hcount) in Hcheck.
  pose proof (startsWith_app parent rest) as Hprefix.
  unfold JS.startsWith in Hprefix. rewrite Hprefix in Hcheck.
  cbn [andb implb] in Hcheck.
  destruct (startsWith_inv _ _ Hcheck) as [name Hname].
  exists name. rewrite append_assoc in Hname. by apply append_inj_l in Hname.
Qed.

(** The file nodes listed by [forest_files] are those of the forest. *)
Lemma forest_files_at forest relative name :
  (relative, name) ∈ forest_files forest
  ↔ ∃ chain, forest_at forest chain (FileNode name relative).
Proof.
  unfold forest_files. split.
  - assert (∀ node,
      match node with
      | FileNode _ _ => True
      | FolderNode _ _ files =>
          ∀ relative name,
            (relative, name) ∈ flat_map node_files files →
            ∃ chain, forest_at files chain (FileNode name relative)
      end) as Hnodes.
    { induction node as [|n r files IH] using TreeNode_nested_ind; [done|].
      intros rel nm (node & Hnode & Hin)%list_elem_of_In%in_flat_map.
      apply list_elem_of_In in Hnode, Hin.
      rewrite Forall_forall in IH. specialize (IH node Hnode).
      destruct node as [n' r'|n' r' files'].
      - apply list_elem_of_singleton in Hin as [= -> ->].
        exists []. by apply forest_at_here.
      - destruct (IH rel nm Hin) as [chain Hat].
        exists (r' :: chain). by eapply forest_at_down. }
    apply (Hnodes (FolderNode "" "" forest)).
  - intros [chain Hat].
    remember (FileNode name relative) as node eqn:Hnode.
    induction Hat as [forest node Hin|forest n r files chain node Hin _ IH];
      subst; apply list_elem_of_In, in_flat_map.
    + eexists. split; [by apply list_elem_of_In|]. by left.
    + eexists. split; [by apply list_elem_of_In|].
      by apply list_elem_of_In, IH.
Qed.

(** ** The files of one folder node *)

Lemma filter_nested_contained (nested : list TreeNode) dir names :
  Forall (fun node => is_FolderNode node = true) nested →
  List.filter (fun node => negb (is_FolderNode node))
    (nested ++ map (fun file => FileNode file (dir +:+ "/" +:+ file)) names)
  = map (fun file => FileNode file (dir +:+ "/" +:+ file)) names.
Proof.
  intros Hnested. rewrite List.filter_app.
  replace (List.filter (fun node => negb (is_FolderNode node)) nested)
    with (@nil TreeNode).
  2: { induction Hnested as [|node nested Hnode _ IH]; [done|].
       simpl. by rewrite Hnode. }
  induction names as [|f names IH]; [done|]. simpl. f_equal. apply IH.
Qed.

(** The files registered under a directory other than the sentinel are the
    input paths of that directory. *)
Lemma registered_of_directory files dir :
  dir ≠ "/" →
  map (fun file => FileNode file (dir +:+ "/" +:+ file))
    (registered files dir)
  = map (fun p => FileNode (file_segment p) p)
      (filter (fun p => JS.includes "." (file_segment p) = true
                        ∧ directory_segments p ≠ []
                        ∧ JS.join "/" (directory_segments p) = dir) files).
Proof.
  intros Hdir. induction files as [|p files IH]; [done|].
  unfold registered in *. cbn [flat_map]. rewrite map_app, IH.
  rewrite filter_cons, registers_by_key. unfold directory_key.
  destruct (decide (JS.includes "." (file_segment p) = true
                    ∧ directory_segments p ≠ []
                    ∧ JS.join "/" (directory_segments p) = dir))
    as [(Hdot & Hds & Hjoin)|Hno].
  - rewrite decide_True.
    + cbn [map app]. by rewrite <- Hjoin, join_directory_file.
    + split; [done|]. by destruct (directory_segments p).
  - rewrite decide_False; [done|]. intros [Hdot Hkey]. apply Hno.
    split; [done|]. by destruct (directory_segments p); [subst|].
Qed.

(** The file nodes of a folder node, in its list of children, stand for
    the input paths of its directory, in input order and as often as they
    are given. *)
Lemma folder_file_children files forest chain name relative children :
  makeFileHierarchy files = Ok forest →
  forest_at forest chain (FolderNode name relative children) →
  relative ≠ "/" →
  List.filter (fun node => negb (is_FolderNode node)) children
  = map (fun p => FileNode (file_segment p) p)
      (filter (fun p => JS.includes "." (file_segment p) = true
                        ∧ directory_segments p ≠ []
                        ∧ JS.join "/" (directory_segments p) = relative)
         files).
Proof.
  intros Hmake Hat Hrelative.
  destruct (forest_folder_node _ _ _ _ _ _ Hmake Hat)
    as (_ & _ & _ & _ & nested & -> & Hnested & _).
  rewrite filter_nested_contained by done.
  by apply registered_of_directory.
Qed.

(** ** Evaluations and keys used by the claims *)

(** The forest of the scenario. *)
Lemma scenario_forest_value :
  makeFileHierarchy scenario_files
  = Ok [FolderNode "foo" "foo"
          [FolderNode "y" "foo/y" [FileNode "bar.js" "foo/y/bar.js"];
           FolderNode "bar" "foo/bar" []];
        FolderNode "a" "a"
          [FolderNode "b" "a/b" [FolderNode "c" "a/b/c" []]]].
Proof. vm_compute. reflexivity. Qed.

Lemma registers_key file :
  JS.includes "." (file_segment file) = true →
  registers file (directory_key file) = [file_segment file].
Proof.
  intros Hdot. unfold directory_key.
  destruct (directory_segments file) as [|d ds] eqn:Hds.
  - rewrite registers_root by done. by rewrite file_segment_root.
  - rewrite <- Hds. apply registers_file; [done|]. by rewrite Hds.
Qed.

(** * The claims of the specification *)

(** C1, as the code has it.  [buildTree]: counted with multiplicity, the
    [TreeFile]s of the tree are exactly the input paths, each with the
    input string as [id] and its last segment as [name].
    [makeFileHierarchy]: an input path with a directory and a dot in its
    last segment is the [relative] of a [FileNode] under the folders of
    its directory prefixes.  The [FileNode]s in a folder node whose
    [relative] is not the path of the sentinel are exactly the input paths
    with a dot in the last segment and that directory, in input order,
    each as often as it is given, with the input string as [relative] and
    its last segment as [name].  Unless a folder with the path of the
    sentinel was discovered, every [FileNode] of the forest stands for
    such an input path.  On well-nested input, again without such a
    folder, the [FileNode]s of the forest at all depths, counted with
    multiplicity, are exactly the input paths with a directory and a dot
    in the last segment: such a path is a leaf as often as it is given,
    and root-level files and paths without a dot are no leaves. *)
Theorem input_paths_as_leaves files rootDirectory :
  (Forall tree_path_ok files →
   ∃ t,
     buildTree files rootDirectory = Ok t
     ∧ tree_files t ≡ₚ map (fun p => (p, file_segment p)) files)
  ∧ (forest_ok files →
     ∃ forest,
       makeFileHierarchy files = Ok forest
       ∧ (∀ p,
            p ∈ files → JS.includes "." (file_segment p) = true →
            directory_segments p ≠ [] →
            forest_at forest (prefixes (directory_segments p))
              (FileNode (file_segment p) p))
       ∧ ("/" ∉ getAllFolders files →
          ∀ chain name relative,
            forest_at forest chain (FileNode name relative) →
            relative ∈ files
            ∧ name = file_segment relative
            ∧ JS.includes "." (file_segment relative) = true
            ∧ directory_segments relative ≠ [])
       ∧ (∀ chain name relative children,
            forest_at forest chain (FolderNode name relative children) →
            relative ≠ "/" →
            List.filter (fun node => negb (is_FolderNode node)) children
            = map (fun p => FileNode (file_segment p) p)
                (filter
                   (fun p => JS.includes "." (file_segment p) = true
                             ∧ directory_segments p ≠ []
                             ∧ JS.join "/" (directory_segments p) = relative)
                   files))
       ∧ (∀ relative name,
            (relative, name) ∈ forest_files forest
            ↔ ∃ chain, forest_at forest chain (FileNode name relative))
       ∧ (segment_nested files → "/" ∉ getAllFolders files →
          forest_files forest
          ≡ₚ map (fun p => (p, file_segment p))
               (filter (fun p => JS.includes "." (file_segment p) = true
                                 ∧ directory_segments p ≠ []) files))).
Proof.
  split.
  - intros Htree.
    destruct (buildTree_returns files rootDirectory Htree) as [children Ht].
    eexists. split; [exact Ht|]. by eapply buildTree_files.
  - intros Hforest.
    destruct (makeFileHierarchy_returns files Hforest)
      as (allFileNodes & forest & _ & Hreg & Hmake & Hwalk).
    exists forest. split; [done|]. split; [|split; [|split; [|split]]].
    + intros p. by eapply forest_input_file.
    + intros Hsentinel chain name relative.
      by eapply forest_file_input.
    + intros chain name relative children.
      by apply folder_file_children.
    + apply forest_files_at.
    + intros Hnested Hsentinel. by apply forest_leaves.
Qed.

Lemma input_paths_as_leaves_witness :
  Forall tree_path_ok scenario_files ∧ forest_ok scenario_files
  ∧ segment_nested scenario_files ∧ ("/" ∉ getAllFolders scenario_files)
  ∧ (∃ t,
       buildTree scenario_files "root" = Ok t
       ∧ tree_files t
         ≡ₚ map (fun p => (p, file_segment p)) scenario_files)
  ∧ ∃ forest,
      makeFileHierarchy scenario_files = Ok forest
      ∧ forest_at forest ["foo"; "foo/y"] (FileNode "bar.js" "foo/y/bar.js")
      ∧ forest_files forest ≡ₚ [("foo/y/bar.js", "bar.js")].
Proof.
  assert (Forall tree_path_ok scenario_files) as Htree
    by (repeat constructor).
  assert (forest_ok scenario_files) as Hforest by (repeat constructor).
  assert (segment_nested scenario_files) as Hnested
    by (apply segment_nestedb_spec; vm_compute; reflexivity).
  assert ("/" ∉ getAllFolders scenario_files) as Hsentinel
    by (apply (bool_decide_unpack _); vm_compute; exact I).
  split; [exact Htree|]. split; [exact Hforest|].
  split; [exact Hnested|]. split; [exact Hsentinel|].
  destruct (input_paths_as_leaves scenario_files "root")
    as (Htrie & Hwalker).
  split; [exact (Htrie Htree)|].
  destruct (Hwalker Hforest)
    as (forest & Hmake & Hfiles & _ & _ & _ & Hleaves).
  exists forest. split; [exact Hmake|]. split.
  - apply (Hfiles "foo/y/bar.js").
    + apply list_elem_of_further, list_elem_of_here.
    + reflexivity.
    + discriminate.
  - exact (Hleaves Hnested Hsentinel).
Defined.

(** C1 does not hold as stated: of the input paths [foo.js] and [a/b] the
    first is a root-level file and the second has no dot, so that it is
    taken for a folder; the forest has no leaf at all. *)
Lemma root_file_and_folder_path_are_no_leaves :
  makeFileHierarchy ["foo.js"; "a/b"]
  = Ok [FolderNode "a" "a" [FolderNode "b" "a/b" []]]
  ∧ ¬ ∃ forest chain name relative,
        makeFileHierarchy ["foo.js"; "a/b"] = Ok forest
        ∧ forest_at forest chain (FileNode name relative).
Proof.
  assert (makeFileHierarchy ["foo.js"; "a/b"]
          = Ok [FolderNode "a" "a" [FolderNode "b" "a/b" []]]) as Heq
    by (vm_compute; reflexivity).
  split; [exact Heq|].
  intros (forest & chain & name & relative & Hforest & Hat).
  rewrite Heq in Hforest. injection Hforest as <-.
  assert ((relative, name)
          ∈ forest_files [FolderNode "a" "a" [FolderNode "b" "a/b" []]])
    as Hin by (apply forest_files_at; by exists chain).
  by apply elem_of_nil in Hin.
Qed.




(** C3, as the code has it: on the scenario input [getAllFolders] returns
    [foo], [foo/y], [foo/bar], [a], [a/b] and [a/b/c]; the forest is the
    folder [foo], holding the folder [y] with the file [bar.js] and the
    empty folder [bar], and the folder [a], holding [b], holding [c]; and
    the sentinel list of [getAllFileNodes] is [foo.js]. *)
Theorem scenario_forest :
  getAllFolders scenario_files
  = ["foo"; "foo/y"; "foo/bar"; "a"; "a/b"; "a/b/c"]
  ∧ makeFileHierarchy scenario_files
    = Ok [FolderNode "foo" "foo"
            [FolderNode "y" "foo/y" [FileNode "bar.js" "foo/y/bar.js"];
             FolderNode "bar" "foo/bar" []];
          FolderNode "a" "a"
            [FolderNode "b" "a/b" [FolderNode "c" "a/b/c" []]]]
  ∧ (fun allFileNodes : gmap string (list string) => allFileNodes !! "/")
      <$> getAllFileNodes scenario_files
    = Ok (Some ["foo.js"]).
Proof.
  split; [vm_compute; reflexivity|].
  split; [exact scenario_forest_value|]. vm_compute. reflexivity.
Qed.

(** C3 does not hold as stated: the folder [foo] of the scenario holds no
    file called [bar]; [foo/bar] has no dot and is a folder. *)
Lemma scenario_bar_is_a_folder :
  ¬ ∃ forest relative files relative',
      makeFileHierarchy scenario_files = Ok forest
      ∧ FolderNode "foo" relative files ∈ forest
      ∧ FileNode "bar" relative' ∈ files.
Proof.
  intros (forest & relative & files & relative' & Hforest & Hfoo & Hbar).
  rewrite scenario_forest_value in Hforest. injection Hforest as <-.
  repeat (apply elem_of_cons in Hfoo as [Hfoo|Hfoo]; [try discriminate|]).
  - injection Hfoo as -> ->.
    repeat (apply elem_of_cons in Hbar as [Hbar|Hbar]; [discriminate|]).
    by apply elem_of_nil in Hbar.
  - by apply elem_of_nil in Hfoo.
Qed.

(** C4: [buildTree(['x/y/z.js'], 'root')] is the root folder [root] holding
    the folder [x], holding the folder [x/y] named [y], holding the file
    [x/y/z.js] named [z.js]. *)
Theorem scenario_tree :
  buildTree ["x/y/z.js"] "root"
  = Ok (TreeFolder "root" "root"
          [TreeFolder "x" "x"
             [TreeFolder "x/y" "y" [TreeFile "x/y/z.js" "z.js"]]]).
Proof. vm_compute. reflexivity. Qed.

(** C5, as the code has it: the root name is the last segment of the root
    directory when that segment is not empty; when the root directory ends
    in a separator and the segment before it is not empty, it is that
    segment; and it is ["/"] for the empty root directory. *)
Theorem root_name_cases filePaths rootDirectory :
  Forall tree_path_ok filePaths →
  ∃ name children,
    buildTree filePaths rootDirectory
    = Ok (TreeFolder rootDirectory name children)
    ∧ (∀ part,
         last (JS.split "/" rootDirectory) = Some part → part ≠ "" →
         name = part)
    ∧ (∀ parts part,
         JS.split "/" rootDirectory = parts ++ [part; ""] → part ≠ "" →
         name = part)
    ∧ (rootDirectory = "" → name = "/").
Proof.
  intros Hok.
  destruct (buildTree_returns filePaths rootDirectory Hok) as [children ->].
  eexists _, children. split; [done|]. unfold rootName.
  replace (length (JS.split "/" rootDirectory) - 1)
    with (pred (length (JS.split "/" rootDirectory))) by lia.
  rewrite <- last_lookup. split_and!.
  - intros part -> Hpart. by destruct part.
  - intros parts part Hsplit Hpart. rewrite Hsplit.
    rewrite (last_app_cons parts [""] part), length_app.
    change (last [part; ""]) with (Some "").
    change (length [part; ""]) with 2. cbn [JS.truthy].
    replace (1 <? length parts + 2) with true
      by (symmetry; apply Nat.ltb_lt; lia).
    replace (length parts + 2 - 2) with (length parts + 0) by lia.
    by rewrite lookup_app_r, Nat.add_0_r, Nat.sub_diag by lia.
  - by intros ->.
Qed.

Lemma root_name_cases_witness :
  Forall tree_path_ok ["x/y/z.js"]
  ∧ ∃ name children,
      buildTree ["x/y/z.js"] "specs/unit/"
      = Ok (TreeFolder "specs/unit/" name children)
      ∧ name = "unit".
Proof.
  assert (Forall tree_path_ok ["x/y/z.js"]) as Hok
    by (repeat constructor).
  split; [exact Hok|].
  destruct (root_name_cases ["x/y/z.js"] "specs/unit/" Hok)
    as (name & children & Htree & _ & Hslash & _).
  exists name, children. split; [exact Htree|].
  by apply (Hslash ["specs"]).
Defined.

(** C5 does not hold as stated: for the root directory [a//] the last
    non-empty segment is [a], and the root is named by the empty string. *)
Lemma root_name_double_slash :
  spec_rootName "a//" = "a"
  ∧ buildTree [] "a//" = Ok (TreeFolder "a//" "" [])
  ∧ tree_name <$> buildTree [] "a//" ≠ Ok (spec_rootName "a//").
Proof. split_and!; [done..|]. vm_compute. discriminate. Qed.

(** C6: on the empty input neither strategy throws: [makeFileHierarchy([])]
    is the empty forest and [buildTree([], 'root')] is the folder [root]
    without children. *)
Theorem empty_input :
  makeFileHierarchy [] = Ok []
  ∧ buildTree [] "root" = Ok (TreeFolder "root" "root" []).
Proof. split; vm_compute; reflexivity. Qed.

(** C7, as the code has it: a path given twice is registered twice in the
    same place, nothing is deduplicated, where the strategy takes the path
    for a file.  [buildTree] does so for every path: the folder under the
    directory segments of the path has two children [TreeFile] for it.
    The walker does so for a path with a dot in the last segment: the list
    [getAllFileNodes] keeps for its directory holds its name twice, and
    when the path has a directory, the folder of that directory in the
    forest holds two [FileNode]s for it. *)
Theorem duplicate_paths_registered_twice before between after p
    rootDirectory :
  (Forall tree_path_ok (before ++ p :: between ++ p :: after) →
   ∃ t id name l1 l2 l3,
     buildTree (before ++ p :: between ++ p :: after) rootDirectory = Ok t
     ∧ tree_at t (directory_segments p)
         (TreeFolder id name
            (l1 ++ TreeFile p (file_segment p)
                :: l2 ++ TreeFile p (file_segment p) :: l3)))
  ∧ (forest_ok (before ++ p :: between ++ p :: after) →
     JS.includes "." (file_segment p) = true →
     (∃ allFileNodes l1 l2 l3,
        getAllFileNodes (before ++ p :: between ++ p :: after)
        = Ok allFileNodes
        ∧ allFileNodes !! directory_key p
          = Some (l1 ++ file_segment p :: l2 ++ file_segment p :: l3))
     ∧ (directory_segments p ≠ [] →
        ∃ forest name l1 l2 l3,
          makeFileHierarchy (before ++ p :: between ++ p :: after)
          = Ok forest
          ∧ forest_at forest
              (prefixes_from 0 (length (directory_segments p) - 1)
                 (directory_segments p))
              (FolderNode name (JS.join "/" (directory_segments p))
                 (l1 ++ FileNode (file_segment p) p
                     :: l2 ++ FileNode (file_segment p) p :: l3)))).
Proof.
  set (files := before ++ p :: between ++ p :: after).
  assert (p ∈ files) as Hp.
  { apply elem_of_app. right. apply list_elem_of_here. }
  split.
  - intros Htree.
    destruct (buildTree_directory files rootDirectory p Htree Hp)
      as (t & id & name & folders & Ht & Hat & _).
    unfold files in Hat.
    rewrite filter_app, filter_cons_True, filter_app, filter_cons_True
      in Hat by done.
    rewrite map_app in Hat. cbn [map] in Hat.
    rewrite map_app in Hat. cbn [map] in Hat.
    rewrite app_assoc in Hat.
    by exists t, id, name; eexists _, _, _.
  - intros Hforest Hdot.
    destruct (makeFileHierarchy_returns files Hforest)
      as (allFileNodes & forest & Hget & Hreg & Hmake & Hwalk).
    assert (∀ dir,
      registers p dir = [file_segment p] →
      registered files dir
      = registered before dir
        ++ file_segment p
           :: registered between dir ++ file_segment p :: registered after dir)
      as Htwice.
    { intros dir Hdir. unfold files.
      rewrite registered_app.
      change (p :: between ++ p :: after)
        with ([p] ++ between ++ [p] ++ after).
      rewrite !registered_app. unfold registered at 2 4. simpl.
      by rewrite !app_nil_r, Hdir. }
    split.
    + exists allFileNodes. eexists _, _, _. split; [done|].
      pose proof (Hreg (directory_key p)) as Hkey.
      rewrite (Htwice _ (registers_key p Hdot)) in Hkey.
      destruct (allFileNodes !! directory_key p) as [l|]; simpl in Hkey.
      * by rewrite Hkey.
      * by destruct (registered before (directory_key p)).
    + intros Hdir.
      destruct (forest_directory files allFileNodes forest Hreg Hwalk
                  p Hp Hdir) as (name & nested & Hat & _).
      rewrite (Htwice _ (registers_file p Hdot Hdir)) in Hat.
      rewrite map_app in Hat. cbn [map] in Hat.
      rewrite map_app in Hat. cbn [map] in Hat.
      rewrite (join_directory_file p Hdir), app_assoc in Hat.
      by exists forest, name; eexists _, _, _.
Qed.

Lemma duplicate_paths_registered_twice_witness :
  Forall tree_path_ok ["a/b.js"; "a/b.js"] ∧ forest_ok ["a/b.js"; "a/b.js"]
  ∧ (∃ t id name l1 l2 l3,
       buildTree ["a/b.js"; "a/b.js"] "root" = Ok t
       ∧ tree_at t ["a"]
           (TreeFolder id name
              (l1 ++ TreeFile "a/b.js" "b.js"
                  :: l2 ++ TreeFile "a/b.js" "b.js" :: l3)))
  ∧ ∃ forest name l1 l2 l3,
      makeFileHierarchy ["a/b.js"; "a/b.js"] = Ok forest
      ∧ forest_at forest []
          (FolderNode name "a"
             (l1 ++ FileNode "b.js" "a/b.js"
                 :: l2 ++ FileNode "b.js" "a/b.js" :: l3)).
Proof.
  assert (Forall tree_path_ok ([] ++ "a/b.js" :: [] ++ "a/b.js" :: []))
    as Htree by (repeat constructor).
  assert (forest_ok ([] ++ "a/b.js" :: [] ++ "a/b.js" :: [])) as Hforest
    by (repeat constructor).
  split; [exact Htree|]. split; [exact Hforest|].
  destruct (duplicate_paths_registered_twice [] [] [] "a/b.js" "root")
    as (Htrie & Hwalker).
  split; [exact (Htrie Htree)|].
  destruct (Hwalker Hforest eq_refl) as (_ & Hfolder).
  apply Hfolder. discriminate.
Defined.

(** C7 does not hold as stated: the path [a/b], given twice, is two files
    of the folder [a] for [buildTree]; the walker takes it for a folder,
    which it keeps once: [getAllFileNodes] lists nothing for it, and the
    forest holds one folder [b] and no file. *)
Lemma path_without_dot_is_registered_once :
  buildTree ["a/b"; "a/b"] "root"
  = Ok (TreeFolder "root" "root"
          [TreeFolder "a" "a" [TreeFile "a/b" "b"; TreeFile "a/b" "b"]])
  ∧ getAllFolders ["a/b"; "a/b"] = ["a"; "a/b"]
  ∧ getAllFileNodes ["a/b"; "a/b"] = Ok {["/" := []]}
  ∧ makeFileHierarchy ["a/b"; "a/b"]
    = Ok [FolderNode "a" "a" [FolderNode "b" "a/b" []]]
  ∧ ¬ ∃ allFileNodes dir l1 entry l2 l3,
        getAllFileNodes ["a/b"; "a/b"] = Ok allFileNodes
        ∧ allFileNodes !! dir = Some (l1 ++ entry :: l2 ++ entry :: l3).
Proof.
  assert (getAllFileNodes ["a/b"; "a/b"] = Ok {["/" := []]}) as Hget
    by (vm_compute; reflexivity).
  split; [vm_compute; reflexivity|]. split; [vm_compute; reflexivity|].
  split; [exact Hget|]. split; [vm_compute; reflexivity|].
  intros (allFileNodes & dir & l1 & entry & l2 & l3 & Hget' & Hdir).
  rewrite Hget in Hget'. injection Hget' as <-.
  apply lookup_singleton_Some in Hdir as [_ Hnil].
  by destruct l1.
Qed.

(** C8, as the code has it: in the forest a [FileNode] lies under exactly
    as many nested folders as its path has directory segments; an input
    path with a directory and a dot in its last segment lies under the
    folders of its directory prefixes, one for each; and on well-nested
    input a [FileNode] lies under the folders of the directory prefixes of
    its path and under no other chain of folders. *)
Theorem folder_chain_depth files :
  forest_ok files →
  ∃ forest,
    makeFileHierarchy files = Ok forest
    ∧ (∀ chain name relative,
         forest_at forest chain (FileNode name relative) →
         length chain = length (directory_segments relative))
    ∧ (∀ p,
         p ∈ files → JS.includes "." (file_segment p) = true →
         directory_segments p ≠ [] →
         forest_at forest (prefixes (directory_segments p))
           (FileNode (file_segment p) p)
         ∧ length (prefixes (directory_segments p))
           = length (directory_segments p))
    ∧ (segment_nested files →
       ∀ chain name relative,
         forest_at forest chain (FileNode name relative) →
         chain = prefixes (directory_segments relative)).
Proof.
  intros Hforest.
  destruct (makeFileHierarchy_returns files Hforest)
    as (allFileNodes & forest & _ & Hreg & Hmake & Hwalk).
  exists forest. split; [done|]. split; [|split].
  - intros chain name relative Hat.
    by destruct (forest_file files allFileNodes forest Hreg Hwalk
                   chain name relative Hat)
      as (dir & file & _ & _ & _ & _ & _ & Hlen).
  - intros p Hp Hdot Hdir. split; [|apply prefixes_length].
    by eapply forest_input_file.
  - intros Hnested chain name relative.
    by apply (forest_file_chain files).
Qed.

Lemma folder_chain_depth_witness :
  forest_ok scenario_files ∧ segment_nested scenario_files
  ∧ ∃ forest,
      makeFileHierarchy scenario_files = Ok forest
      ∧ forest_at forest ["foo"; "foo/y"] (FileNode "bar.js" "foo/y/bar.js")
      ∧ length ["foo"; "foo/y"] = length (directory_segments "foo/y/bar.js")
      ∧ ∀ chain,
          forest_at forest chain (FileNode "bar.js" "foo/y/bar.js") →
          chain = ["foo"; "foo/y"].
Proof.
  assert (forest_ok scenario_files) as Hforest by (repeat constructor).
  assert (segment_nested scenario_files) as Hnested
    by (apply segment_nestedb_spec; vm_compute; reflexivity).
  split; [exact Hforest|]. split; [exact Hnested|].
  destruct (folder_chain_depth scenario_files Hforest)
    as (forest & Hmake & _ & Hfiles & Hchain).
  exists forest. split; [exact Hmake|].
  split; [|split; [reflexivity|]].
  - apply (Hfiles "foo/y/bar.js").
    + apply list_elem_of_further, list_elem_of_here.
    + reflexivity.
    + discriminate.
  - intros chain Hat. exact (Hchain Hnested chain _ _ Hat).
Defined.

(** C8 does not hold as stated: of the paths [foo.js], [a/x] and
    [ab/c/d.js], the first has no directory segment and is under no chain
    of the forest, not even the empty one; and the last lies, besides the
    folders [ab] and [ab/c] of its directory prefixes, under the folders
    [a] and [ab/c], of which [a] is no prefix of its directory. *)
Lemma file_under_a_folder_of_another_directory :
  makeFileHierarchy ["foo.js"; "a/x"; "ab/c/d.js"]
  = Ok [FolderNode "a" "a"
          [FolderNode "x" "a/x" [];
           FolderNode "c" "ab/c" [FileNode "d.js" "ab/c/d.js"]];
        FolderNode "ab" "ab"
          [FolderNode "c" "ab/c" [FileNode "d.js" "ab/c/d.js"]]]
  ∧ (∃ forest,
       makeFileHierarchy ["foo.js"; "a/x"; "ab/c/d.js"] = Ok forest
       ∧ forest_at forest ["a"; "ab/c"] (FileNode "d.js" "ab/c/d.js")
       ∧ forest_at forest ["ab"; "ab/c"] (FileNode "d.js" "ab/c/d.js"))
  ∧ prefixes (directory_segments "ab/c/d.js") = ["ab"; "ab/c"]
  ∧ ¬ ∃ forest chain name,
        makeFileHierarchy ["foo.js"; "a/x"; "ab/c/d.js"] = Ok forest
        ∧ forest_at forest chain (FileNode name "foo.js").
Proof.
  assert (makeFileHierarchy ["foo.js"; "a/x"; "ab/c/d.js"]
          = Ok [FolderNode "a" "a"
                  [FolderNode "x" "a/x" [];
                   FolderNode "c" "ab/c" [FileNode "d.js" "ab/c/d.js"]];
                FolderNode "ab" "ab"
                  [FolderNode "c" "ab/c" [FileNode "d.js" "ab/c/d.js"]]])
    as Heq by (vm_compute; reflexivity).
  split; [exact Heq|]. split; [|split; [reflexivity|]].
  - eexists. split; [exact Heq|]. split.
    + eapply forest_at_down; [apply list_elem_of_here|].
      eapply forest_at_down;
        [apply list_elem_of_further, list_elem_of_here|].
      apply forest_at_here, list_elem_of_here.
    + eapply forest_at_down;
        [apply list_elem_of_further, list_elem_of_here|].
      eapply forest_at_down; [apply list_elem_of_here|].
      apply forest_at_here, list_elem_of_here.
  - intros (forest & chain & name & Hforest & Hat).
    rewrite Heq in Hforest. injection Hforest as <-.
    assert (("foo.js", name)
            ∈ forest_files
                [FolderNode "a" "a"
                   [FolderNode "x" "a/x" [];
                    FolderNode "c" "ab/c" [FileNode "d.js" "ab/c/d.js"]];
                 FolderNode "ab" "ab"
                   [FolderNode "c" "ab/c" [FileNode "d.js" "ab/c/d.js"]]])
      as Hin by (apply forest_files_at; by exists chain).
    cbn in Hin.
    apply elem_of_cons in Hin as [[=]|Hin].
    apply elem_of_cons in Hin as [[=]|Hin].
    by apply elem_of_nil in Hin.
Qed.

(** C9: [buildTree] for one root directory is [buildTree] for any other
    with the [id] and [name] of the root replaced: the children, and with
    them the [id] of every node below the root, do not depend on
    [rootDirectory], and neither does whether the call throws. *)
Theorem root_directory_independence filePaths rootDirectory1 rootDirectory2 :
  buildTree filePaths rootDirectory1
  = (fun t =>
       TreeFolder rootDirectory1 (default "/" (rootName rootDirectory1))
         (tree_children t))
      <$> buildTree filePaths rootDirectory2
  ∧ tree_children <$> buildTree filePaths rootDirectory1
    = tree_children <$> buildTree filePaths rootDirectory2.
Proof.
  assert (buildTree filePaths rootDirectory1
          = (fun t =>
               TreeFolder rootDirectory1
                 (default "/" (rootName rootDirectory1)) (tree_children t))
              <$> buildTree filePaths rootDirectory2) as Heq.
  { unfold buildTree.
    rewrite (insertPaths_relabel filePaths rootDirectory1 _ rootDirectory2
               (default "/" (rootName rootDirectory2))).
    destruct (insertPaths _ filePaths) as [[path name files folders]| |];
      [|done..].
    cbn [fmap result_fmap]. unfold relabel.
    cbn [folder_files folder_folders]. by rewrite !convertTree_unfold. }
  split; [done|]. rewrite Heq.
  by destruct (buildTree filePaths rootDirectory2).
Qed.

(** C10: the empty string among the input paths does not make [buildTree]
    throw: it splits into the single segment [""], which is stored as a
    file of the root, so the root has a child [TreeFile] with [id] and
    [name] empty. *)
Theorem empty_path_is_root_file filePaths rootDirectory :
  "" ∈ filePaths →
  (∀ p, p ∈ filePaths → p ≠ "" → tree_path_ok p) →
  JS.split "/" "" = [""]
  ∧ ∃ children,
      buildTree filePaths rootDirectory
      = Ok (TreeFolder rootDirectory
              (default "/" (rootName rootDirectory)) children)
      ∧ TreeFile "" "" ∈ children.
Proof.
  intros Hin Hok. split; [done|].
  assert (Forall tree_path_ok filePaths) as Hall.
  { apply Forall_forall. intros p Hp.
    destruct (decide (p = "")) as [->|Hne]; [constructor | by apply Hok]. }
  destruct (buildTree_returns filePaths rootDirectory Hall)
    as [children Hchildren].
  destruct (buildTree_directory filePaths rootDirectory "" Hall Hin)
    as (t & id & name & folders & Ht & Hat & _).
  exists children. split; [done|].
  rewrite Hchildren in Ht. injection Ht as <-.
  inversion Hat as [? Heq|]; subst.
  apply elem_of_app. right.
  apply (list_elem_of_fmap_2 (fun q => TreeFile q (file_segment q)) _ "").
  by apply list_elem_of_filter.
Qed.

Lemma empty_path_is_root_file_witness :
  "" ∈ ["a/b.js"; ""]
  ∧ (∀ p, p ∈ ["a/b.js"; ""] → p ≠ "" → tree_path_ok p)
  ∧ JS.split "/" "" = [""]
  ∧ ∃ children,
      buildTree ["a/b.js"; ""] "root"
      = Ok (TreeFolder "root" (default "/" (rootName "root")) children)
      ∧ TreeFile "" "" ∈ children.
Proof.
  assert ("" ∈ ["a/b.js"; ""]) as Hin
    by apply list_elem_of_further, list_elem_of_here.
  assert (∀ p, p ∈ ["a/b.js"; ""] → p ≠ "" → tree_path_ok p) as Hok.
  { intros p Hp Hne. repeat apply elem_of_cons in Hp as [->|Hp].
    - repeat constructor.
    - done.
    - by apply elem_of_nil in Hp. }
  split; [exact Hin|]. split; [exact Hok|].
  exact (empty_path_is_root_file ["a/b.js"; ""] "root" Hin Hok).
Defined.
